(** * BlockSuite store: workspace metadata, schema registry and block tree store

    A shallow embedding of [packages/store/src/workspace/workspace.ts]
    ([WorkspaceMeta], [Workspace]) and [packages/store/src/workspace/page.ts]
    ([Page]) together with the properties of the store layer that are
    checked against it.

    Conventions of the embedding.
    - JavaScript [Map]s and Yjs [Y.Map]s are insertion-ordered; they are
      modelled by association lists with in-place update ([OMap]).
    - [Y.Array<string>] is a list of strings; its [insert]/[delete] raise the
      Yjs "Length exceeded" error outside the valid range.
    - A thrown [Error] is a constructor of [Error], one per message of the
      source.  Every stateful method is a function in the monad [M]: it takes
      the state and returns an outcome together with the state reached, which
      is kept when the method throws (JavaScript does not roll back).
    - Console output and emitted signals are appended to logs kept in the
      state, so that "logs and returns" and "emits" are observable. *)

From Stdlib Require Import String List ZArith Bool Arith Lia.
Import ListNotations.
Open Scope string_scope.
Open Scope list_scope.

Set Implicit Arguments.

(** ** Insertion-ordered maps with string keys (JS [Map], [Y.Map]) *)

Module OMap.

Definition t (V : Type) := list (string * V).

Definition empty {V} : t V := [].

Fixpoint get {V} (k : string) (m : t V) : option V :=
  match m with
  | [] => None
  | (k', v) :: m' => if String.eqb k k' then Some v else get k m'
  end.

Definition has {V} (k : string) (m : t V) : bool :=
  match get k m with Some _ => true | None => false end.

(** [Map.prototype.set]: an existing key keeps its position. *)
Fixpoint set {V} (k : string) (v : V) (m : t V) : t V :=
  match m with
  | [] => [(k, v)]
  | (k', v') :: m' =>
      if String.eqb k k' then (k', v) :: m' else (k', v') :: set k v m'
  end.

Fixpoint delete {V} (k : string) (m : t V) : t V :=
  match m with
  | [] => []
  | (k', v') :: m' =>
      if String.eqb k k' then delete k m' else (k', v') :: delete k m'
  end.

Definition keys {V} (m : t V) : list string := map fst m.

Definition size {V} (m : t V) : nat := length m.

End OMap.

(** ** Errors and the state-and-exception monad *)

(** One constructor per [throw new Error(...)] message of the two source
    files, plus the errors raised by the replicated-document primitive and by
    the JavaScript runtime.  The names of the specification's taxonomy are
    given next to the message they stand for. *)
Inductive Error : Type :=
| InvalidWorkspaceData                      (* "Invalid workspace data, missing versions field" : ConfigurationError *)
| EditorMissingFlavour (flavour : string)   (* "Editor missing <f> flavour" : SchemaMissingError *)
| EditorTooOld (flavour : string) (v : Z)   (* "Editor doesn't support <f>@<v>" : SchemaTooNewError *)
| DataOutdated (flavour : string) (v : Z)   (* "... <f>@<v> is outdated" : SchemaStaleError *)
| PageAlreadyExists                         (* "page already exists" : AlreadyExistsError *)
| SyncMoreThanOnce                          (* "Cannot sync from existing doc more than once" : StateError *)
| ReadonlyMode                              (* "cannot modify data in readonly mode" : ReadOnlyError *)
| MissingFlavour                            (* "Block props must contain flavour" *)
| CannotFindParent                          (* "cannot find parent model" : NotFoundError *)
| FlavourNotRegistered (flavour : string)   (* "Block flavour <f> is not registered" *)
| BlockIdUndefined                          (* "Block id is not defined" *)
| BlockDoesNotExist (id : string)           (* "Block with id <id> does not exist" *)
| InvalidChild (id : string)                (* assertValidChildren *)
| AssertExistsFailed                        (* assertExists *)
| LengthExceeded                            (* Yjs: index outside the sequence *)
| TypeError (what : string)                 (* property access on undefined *)
| RangeError.                               (* call stack exhausted *)

Inductive outcome (A : Type) : Type :=
| Ok (a : A)
| Throw (e : Error).
Arguments Ok {A} a.
Arguments Throw {A} e.

Definition M (S A : Type) : Type := S -> outcome A * S.

Definition ret {S A} (a : A) : M S A := fun s => (Ok a, s).
Definition throw {S A} (e : Error) : M S A := fun s => (Throw e, s).
Definition bind {S A B} (m : M S A) (k : A -> M S B) : M S B :=
  fun s => match m s with
           | (Ok a, s') => k a s'
           | (Throw e, s') => (Throw e, s')
           end.
Definition gets {S A} (f : S -> A) : M S A := fun s => (Ok (f s), s).
Definition modify {S} (f : S -> S) : M S unit := fun s => (Ok tt, f s).
Definition lift_outcome {S A} (o : outcome A) : M S A := fun s => (o, s).

Notation "x <- m ;; k" := (bind m (fun x => k))
  (at level 61, m at next level, right associativity).
Notation "m ;;; k" := (bind m (fun _ => k))
  (at level 61, right associativity).

(** [xs.forEach(f)] where [f] may throw: the first exception stops the loop. *)
Fixpoint forEachM {S A} (f : A -> M S unit) (xs : list A) : M S unit :=
  match xs with
  | [] => ret tt
  | x :: xs' => f x ;;; forEachM f xs'
  end.

(** ** Block schemas and the flavour registry *)

(** A block-model constructor ([typeof BaseBlockModel]) is known to the store
    by the flavour its instances carry and by its static [version]. *)
Record BlockModelCtor : Type := mkCtor {
  ctor_flavour : string;   (* the [flavour] field the class declares *)
  ctor_version : Z         (* [static version] *)
}.

Definition FlavourMap := OMap.t BlockModelCtor.

(** [Workspace.register]: for each key of the schema object,
    [flavourMap.set(key, blockSchema[key])]. *)
Definition register (blockSchema : OMap.t BlockModelCtor) (flavourMap : FlavourMap)
  : FlavourMap :=
  fold_left
    (fun fm key =>
       match OMap.get key blockSchema with
       | Some ctor => OMap.set key ctor fm
       | None => fm
       end)
    (OMap.keys blockSchema) flavourMap.

(** ** The version ledger *)

(** [versions.toJSON()]: flavour name to the version the document was written
    with, enumerated as [Object.keys] does. *)
Definition VersionLedger := OMap.t Z.

(** [WorkspaceMeta.writeVersion]. *)
Definition writeVersion (flavourMap : FlavourMap) (versions : VersionLedger)
  : VersionLedger :=
  fold_left (fun vs '(flavour, model) => OMap.set flavour (ctor_version model) vs)
            flavourMap versions.

(** [workspace.flavourMap.get(dataFlavour)?.version] *)
Definition editorVersionOf (flavourMap : FlavourMap) (dataFlavour : string)
  : option Z :=
  option_map ctor_version (OMap.get dataFlavour flavourMap).

(** [!editorVersion]: [undefined] and [0] are falsy. *)
Definition falsyVersion (v : option Z) : bool :=
  match v with
  | None => true
  | Some z => Z.eqb z 0
  end.

(** Body of the [forEach] callback of [validateVersion]. *)
Definition checkFlavour (flavourMap : FlavourMap) (entry : string * Z)
  : outcome unit :=
  let '(dataFlavour, dataVersion) := entry in
  let editorVersion := editorVersionOf flavourMap dataFlavour in
  if falsyVersion editorVersion then Throw (EditorMissingFlavour dataFlavour)
  else match editorVersion with
       | Some ev =>
           if Z.ltb ev dataVersion then Throw (EditorTooOld dataFlavour dataVersion)
           else if Z.ltb dataVersion ev then Throw (DataOutdated dataFlavour dataVersion)
           else Ok tt
       | None => Ok tt
       end.

Fixpoint checkFlavours (flavourMap : FlavourMap) (entries : list (string * Z))
  : outcome unit :=
  match entries with
  | [] => Ok tt
  | e :: rest =>
      match checkFlavour flavourMap e with
      | Ok _ => checkFlavours flavourMap rest
      | Throw err => Throw err
      end
  end.

(** [WorkspaceMeta.validateVersion]. *)
Definition validateVersion (flavourMap : FlavourMap) (versions : VersionLedger)
  : outcome unit :=
  match versions with
  | [] => Throw InvalidWorkspaceData
  | _ => checkFlavours flavourMap versions
  end.

(** ** The replicated document primitive, as far as the store uses it *)

Inductive JsVal : Type :=
| JStr (s : string)
| JNum (z : Z)
| JBool (b : bool).

(** Values held by a block's [Y.Map]. *)
Inductive YVal : Type :=
| YPrim (v : JsVal)
| YArray (ids : list string)          (* [Y.Array<string>] *)
| YText (content : string)            (* [Y.Text] *)
| YMapV (entries : OMap.t JsVal).     (* nested [Y.Map] *)

Definition YBlock := OMap.t YVal.
Definition YBlocks := OMap.t YBlock.

(** [array.findIndex(x => x === id)], [-1] when absent. *)
Fixpoint findIndexFrom (i : Z) (id : string) (xs : list string) : Z :=
  match xs with
  | [] => (-1)%Z
  | x :: xs' => if String.eqb x id then i else findIndexFrom (i + 1) id xs'
  end.
Definition findIndex (id : string) (xs : list string) : Z := findIndexFrom 0 id xs.

Fixpoint insertAt {A} (n : nat) (content : list A) (xs : list A) : list A :=
  match n, xs with
  | O, _ => content ++ xs
  | S n', x :: xs' => x :: insertAt n' content xs'
  | S _, [] => content
  end.

Fixpoint removeAt {A} (n : nat) (xs : list A) : list A :=
  match n, xs with
  | _, [] => []
  | O, _ :: xs' => xs'
  | S n', x :: xs' => x :: removeAt n' xs'
  end.

(** [yarray.insert(index, content)]; Yjs accepts [0 <= index <= length] and
    raises "Length exceeded" beyond the end.  An index below zero is outside
    the primitive's contract and is given the same outcome here. *)
Definition yarray_insert (index : Z) (content : list string) (xs : list string)
  : outcome (list string) :=
  if (index <? 0)%Z then Throw LengthExceeded
  else if (Z.of_nat (length xs) <? index)%Z then Throw LengthExceeded
  else Ok (insertAt (Z.to_nat index) content xs).

(** [yarray.delete(index, 1)], with the same convention. *)
Definition yarray_delete1 (index : Z) (xs : list string) : outcome (list string) :=
  if (index <? 0)%Z then Throw LengthExceeded
  else if (Z.of_nat (length xs) <=? index)%Z then Throw LengthExceeded
  else Ok (removeAt (Z.to_nat index) xs).

(** Change events delivered to a deep observer of the block map, already
    classified by target as [_handleYEvent] does. *)
Inductive KeyAction : Type := KAdd | KUpdate | KDelete.

Inductive YEvent : Type :=
| EvBlocks (keys : list (string * KeyAction))        (* target is [_yBlocks] *)
| EvBlockMap (blockKey : string) (keysChanged : list string)
                       (* [YMapEvent] whose target is the block stored under [blockKey] *)
| EvBlockText
                       (* [YTextEvent] whose target's parent is [_yBlocks] *)
| EvBlockArray (blockKey : string) (key : string).
                       (* [YArrayEvent] on the sequence that block holds under [key] *)

(** [event.path.length]: Yjs delivers the events of a transaction sorted by it. *)
Definition pathLength (e : YEvent) : nat :=
  match e with
  | EvBlocks _ => 0
  | EvBlockMap _ _ => 1
  | EvBlockText => 1
  | EvBlockArray _ _ => 2
  end.

Fixpoint insertByPath (e : YEvent) (sorted : list YEvent) : list YEvent :=
  match sorted with
  | [] => [e]
  | e' :: rest =>
      if Nat.ltb (pathLength e) (pathLength e') then e :: sorted
      else e' :: insertByPath e rest
  end.

(** Stable sort by path length. *)
Definition sortByPath (es : list YEvent) : list YEvent :=
  fold_left (fun acc e => insertByPath e acc) es [].

(** ** Block models and the state of a [Page] *)

(** Model objects are shared and mutated in place ([parent.children] holds
    references, [_blockMap] holds references to the same objects); they live
    in a heap and are referred to by address. *)
Definition addr := nat.

(** The fields of [BaseBlockModel] the store reads and writes. *)
Record BaseBlockModel : Type := mkModel {
  m_flavour : string;
  m_id : string;
  m_children : list (option addr);   (* [children]; [None] is an [undefined] slot *)
  m_childMap : OMap.t Z;             (* [childMap]: child id to index *)
  m_fields : OMap.t YVal;            (* the remaining own properties *)
  m_hasText : bool;                  (* [text] has been attached *)
  m_disposed : bool
}.

(** [this._root]: [null], one model, or the pair [[root, surface]]. *)
Inductive RootSlot : Type :=
| RootNull
| RootModel (a : addr)
| RootPair (r : option addr) (layer : addr).

Inductive Signal : Type :=
| SigRootAdded (r : RootSlot)
| SigRootDeleted (id : string)
| SigTextUpdated
| SigUpdated
| SigHistoryUpdated
| SigPropsUpdated (a : addr)
| SigChildrenUpdated (a : addr).

(** A type of the document touched inside a transaction. *)
Inductive Changed : Type :=
| ChTop (id : string)                      (* a key of [_yBlocks] *)
| ChBlockKey (blockId : string) (key : string)   (* a key of one block's map *)
| ChArray (blockId : string) (key : string).     (* a sequence held by a block *)

Record Page : Type := mkPage {
  flavourMap : FlavourMap;   (* [this.workspace.flavourMap] *)
  versions : VersionLedger;   (* [this.workspace.meta.proxy.versions] *)
  readonly : bool;   (* [this.awarenessAdapter.isReadonly(this)] *)
  idGenerator : nat -> string;   (* [this._idGenerator]: the id returned by its n-th call *)
  idCalls : nat;   (* number of calls of the generator so far *)
  ignoredKeys : list string;   (* [this._ignoredKeys] *)
  yBlocks : YBlocks;   (* [this._yBlocks], the replicated flat block map *)
  heap : list BaseBlockModel;   (* the model objects allocated so far *)
  blockMap : OMap.t addr;   (* [this._blockMap] *)
  root : RootSlot;   (* [this._root] *)
  synced : bool;   (* [this._synced] *)
  observing : bool;   (* [_handleYEvents] is registered with [observeDeep] *)
  hasHistory : bool;   (* [this._history] has been created *)
  inTxn : bool;   (* a transaction of the document is open *)
  inCleanup : bool;   (* the observers of a committed transaction are running *)
  txnBefore : YBlocks;   (* block map when the open transaction began *)
  changed : list Changed;   (* types touched by the open transaction, first change first *)
  queued : list (bool * list YEvent);   (* committed transactions whose listeners have not run yet:
                                           whether the history manager tracks the origin, and the events *)
  txCount : nat;   (* number of transactions begun on the document *)
  signals : list Signal;   (* signals emitted, oldest first *)
  console : list string;   (* [console.error] output, oldest first *)
  blockMapUndefined : option addr   (* the entry of [_blockMap] under the key [undefined] *)
}.

Definition set_flavourMap (v : FlavourMap) (p : Page) : Page :=
  mkPage v (versions p) (readonly p) (idGenerator p) (idCalls p) (ignoredKeys p) (yBlocks p) (heap p) (blockMap p) (root p) (synced p) (observing p) (hasHistory p) (inTxn p) (inCleanup p) (txnBefore p) (changed p) (queued p) (txCount p) (signals p) (console p) (blockMapUndefined p).
Definition set_versions (v : VersionLedger) (p : Page) : Page :=
  mkPage (flavourMap p) v (readonly p) (idGenerator p) (idCalls p) (ignoredKeys p) (yBlocks p) (heap p) (blockMap p) (root p) (synced p) (observing p) (hasHistory p) (inTxn p) (inCleanup p) (txnBefore p) (changed p) (queued p) (txCount p) (signals p) (console p) (blockMapUndefined p).
Definition set_readonly (v : bool) (p : Page) : Page :=
  mkPage (flavourMap p) (versions p) v (idGenerator p) (idCalls p) (ignoredKeys p) (yBlocks p) (heap p) (blockMap p) (root p) (synced p) (observing p) (hasHistory p) (inTxn p) (inCleanup p) (txnBefore p) (changed p) (queued p) (txCount p) (signals p) (console p) (blockMapUndefined p).
Definition set_idGenerator (v : nat -> string) (p : Page) : Page :=
  mkPage (flavourMap p) (versions p) (readonly p) v (idCalls p) (ignoredKeys p) (yBlocks p) (heap p) (blockMap p) (root p) (synced p) (observing p) (hasHistory p) (inTxn p) (inCleanup p) (txnBefore p) (changed p) (queued p) (txCount p) (signals p) (console p) (blockMapUndefined p).
Definition set_idCalls (v : nat) (p : Page) : Page :=
  mkPage (flavourMap p) (versions p) (readonly p) (idGenerator p) v (ignoredKeys p) (yBlocks p) (heap p) (blockMap p) (root p) (synced p) (observing p) (hasHistory p) (inTxn p) (inCleanup p) (txnBefore p) (changed p) (queued p) (txCount p) (signals p) (console p) (blockMapUndefined p).
Definition set_ignoredKeys (v : list string) (p : Page) : Page :=
  mkPage (flavourMap p) (versions p) (readonly p) (idGenerator p) (idCalls p) v (yBlocks p) (heap p) (blockMap p) (root p) (synced p) (observing p) (hasHistory p) (inTxn p) (inCleanup p) (txnBefore p) (changed p) (queued p) (txCount p) (signals p) (console p) (blockMapUndefined p).
Definition set_yBlocks (v : YBlocks) (p : Page) : Page :=
  mkPage (flavourMap p) (versions p) (readonly p) (idGenerator p) (idCalls p) (ignoredKeys p) v (heap p) (blockMap p) (root p) (synced p) (observing p) (hasHistory p) (inTxn p) (inCleanup p) (txnBefore p) (changed p) (queued p) (txCount p) (signals p) (console p) (blockMapUndefined p).
Definition set_heap (v : list BaseBlockModel) (p : Page) : Page :=
  mkPage (flavourMap p) (versions p) (readonly p) (idGenerator p) (idCalls p) (ignoredKeys p) (yBlocks p) v (blockMap p) (root p) (synced p) (observing p) (hasHistory p) (inTxn p) (inCleanup p) (txnBefore p) (changed p) (queued p) (txCount p) (signals p) (console p) (blockMapUndefined p).
Definition set_blockMap (v : OMap.t addr) (p : Page) : Page :=
  mkPage (flavourMap p) (versions p) (readonly p) (idGenerator p) (idCalls p) (ignoredKeys p) (yBlocks p) (heap p) v (root p) (synced p) (observing p) (hasHistory p) (inTxn p) (inCleanup p) (txnBefore p) (changed p) (queued p) (txCount p) (signals p) (console p) (blockMapUndefined p).
Definition set_root (v : RootSlot) (p : Page) : Page :=
  mkPage (flavourMap p) (versions p) (readonly p) (idGenerator p) (idCalls p) (ignoredKeys p) (yBlocks p) (heap p) (blockMap p) v (synced p) (observing p) (hasHistory p) (inTxn p) (inCleanup p) (txnBefore p) (changed p) (queued p) (txCount p) (signals p) (console p) (blockMapUndefined p).
Definition set_synced (v : bool) (p : Page) : Page :=
  mkPage (flavourMap p) (versions p) (readonly p) (idGenerator p) (idCalls p) (ignoredKeys p) (yBlocks p) (heap p) (blockMap p) (root p) v (observing p) (hasHistory p) (inTxn p) (inCleanup p) (txnBefore p) (changed p) (queued p) (txCount p) (signals p) (console p) (blockMapUndefined p).
Definition set_observing (v : bool) (p : Page) : Page :=
  mkPage (flavourMap p) (versions p) (readonly p) (idGenerator p) (idCalls p) (ignoredKeys p) (yBlocks p) (heap p) (blockMap p) (root p) (synced p) v (hasHistory p) (inTxn p) (inCleanup p) (txnBefore p) (changed p) (queued p) (txCount p) (signals p) (console p) (blockMapUndefined p).
Definition set_hasHistory (v : bool) (p : Page) : Page :=
  mkPage (flavourMap p) (versions p) (readonly p) (idGenerator p) (idCalls p) (ignoredKeys p) (yBlocks p) (heap p) (blockMap p) (root p) (synced p) (observing p) v (inTxn p) (inCleanup p) (txnBefore p) (changed p) (queued p) (txCount p) (signals p) (console p) (blockMapUndefined p).
Definition set_inTxn (v : bool) (p : Page) : Page :=
  mkPage (flavourMap p) (versions p) (readonly p) (idGenerator p) (idCalls p) (ignoredKeys p) (yBlocks p) (heap p) (blockMap p) (root p) (synced p) (observing p) (hasHistory p) v (inCleanup p) (txnBefore p) (changed p) (queued p) (txCount p) (signals p) (console p) (blockMapUndefined p).
Definition set_inCleanup (v : bool) (p : Page) : Page :=
  mkPage (flavourMap p) (versions p) (readonly p) (idGenerator p) (idCalls p) (ignoredKeys p) (yBlocks p) (heap p) (blockMap p) (root p) (synced p) (observing p) (hasHistory p) (inTxn p) v (txnBefore p) (changed p) (queued p) (txCount p) (signals p) (console p) (blockMapUndefined p).
Definition set_txnBefore (v : YBlocks) (p : Page) : Page :=
  mkPage (flavourMap p) (versions p) (readonly p) (idGenerator p) (idCalls p) (ignoredKeys p) (yBlocks p) (heap p) (blockMap p) (root p) (synced p) (observing p) (hasHistory p) (inTxn p) (inCleanup p) v (changed p) (queued p) (txCount p) (signals p) (console p) (blockMapUndefined p).
Definition set_changed (v : list Changed) (p : Page) : Page :=
  mkPage (flavourMap p) (versions p) (readonly p) (idGenerator p) (idCalls p) (ignoredKeys p) (yBlocks p) (heap p) (blockMap p) (root p) (synced p) (observing p) (hasHistory p) (inTxn p) (inCleanup p) (txnBefore p) v (queued p) (txCount p) (signals p) (console p) (blockMapUndefined p).
Definition set_queued (v : list (bool * list YEvent)) (p : Page) : Page :=
  mkPage (flavourMap p) (versions p) (readonly p) (idGenerator p) (idCalls p) (ignoredKeys p) (yBlocks p) (heap p) (blockMap p) (root p) (synced p) (observing p) (hasHistory p) (inTxn p) (inCleanup p) (txnBefore p) (changed p) v (txCount p) (signals p) (console p) (blockMapUndefined p).
Definition set_txCount (v : nat) (p : Page) : Page :=
  mkPage (flavourMap p) (versions p) (readonly p) (idGenerator p) (idCalls p) (ignoredKeys p) (yBlocks p) (heap p) (blockMap p) (root p) (synced p) (observing p) (hasHistory p) (inTxn p) (inCleanup p) (txnBefore p) (changed p) (queued p) v (signals p) (console p) (blockMapUndefined p).
Definition set_signals (v : list Signal) (p : Page) : Page :=
  mkPage (flavourMap p) (versions p) (readonly p) (idGenerator p) (idCalls p) (ignoredKeys p) (yBlocks p) (heap p) (blockMap p) (root p) (synced p) (observing p) (hasHistory p) (inTxn p) (inCleanup p) (txnBefore p) (changed p) (queued p) (txCount p) v (console p) (blockMapUndefined p).
Definition set_console (v : list string) (p : Page) : Page :=
  mkPage (flavourMap p) (versions p) (readonly p) (idGenerator p) (idCalls p) (ignoredKeys p) (yBlocks p) (heap p) (blockMap p) (root p) (synced p) (observing p) (hasHistory p) (inTxn p) (inCleanup p) (txnBefore p) (changed p) (queued p) (txCount p) (signals p) v (blockMapUndefined p).
Definition set_blockMapUndefined (v : option addr) (p : Page) : Page :=
  mkPage (flavourMap p) (versions p) (readonly p) (idGenerator p) (idCalls p) (ignoredKeys p) (yBlocks p) (heap p) (blockMap p) (root p) (synced p) (observing p) (hasHistory p) (inTxn p) (inCleanup p) (txnBefore p) (changed p) (queued p) (txCount p) (signals p) (console p) v.

(** ** Replicated writes and the events of a transaction *)

Definition PageM := M Page.

Definition isNil {A} (xs : list A) : bool :=
  match xs with [] => true | _ => false end.

Definition emit (sg : Signal) : PageM unit :=
  modify (fun p => set_signals (signals p ++ [sg]) p).

Definition consoleError (msg : string) : PageM unit :=
  modify (fun p => set_console (console p ++ [msg]) p).

Definition markChanged (c : Changed) : PageM unit :=
  modify (fun p => set_changed (changed p ++ [c]) p).

(** [this._yBlocks.set(id, yBlock)] *)
Definition yBlocks_set (id : string) (yBlock : YBlock) : PageM unit :=
  modify (fun p => set_yBlocks (OMap.set id yBlock (yBlocks p)) p) ;;;
  markChanged (ChTop id).

(** [this._yBlocks.delete(id)] *)
Definition yBlocks_delete (id : string) : PageM unit :=
  has <- gets (fun p => OMap.has id (yBlocks p)) ;;
  if has : bool then
    modify (fun p => set_yBlocks (OMap.delete id (yBlocks p)) p) ;;;
    markChanged (ChTop id)
  else ret tt.

(** [this._yBlocks.get(id) as YBlock] followed by a method call on it. *)
Definition yBlocks_get (id : string) : PageM YBlock :=
  yb <- gets (fun p => OMap.get id (yBlocks p)) ;;
  match yb with
  | Some b => ret b
  | None => throw (TypeError "yBlock is undefined")
  end.

(** [yBlock.set(key, value)] on the block stored under [blockId]. *)
Definition yBlock_set (blockId key : string) (v : YVal) : PageM unit :=
  yb <- yBlocks_get blockId ;;
  modify (fun p => set_yBlocks (OMap.set blockId (OMap.set key v yb) (yBlocks p)) p) ;;;
  markChanged (ChBlockKey blockId key).

(** [yParent.get('sys:children') as Y.Array<string>] followed by a method
    call on it. *)
Definition yChildren_get (blockId : string) : PageM (list string) :=
  yb <- yBlocks_get blockId ;;
  match OMap.get "sys:children" yb with
  | Some (YArray ids) => ret ids
  | _ => throw (TypeError "yChildren is not a Y.Array")
  end.

Definition yChildren_put (blockId : string) (ids : list string) : PageM unit :=
  yb <- yBlocks_get blockId ;;
  modify (fun p =>
    set_yBlocks (OMap.set blockId (OMap.set "sys:children" (YArray ids) yb) (yBlocks p)) p) ;;;
  markChanged (ChArray blockId "sys:children").

(** [yChildren.insert(index, content)] on the children of [blockId]. *)
Definition yChildren_insert (blockId : string) (index : Z) (content : list string)
  : PageM unit :=
  ids <- yChildren_get blockId ;;
  ids' <- lift_outcome (yarray_insert index content ids) ;;
  if isNil content then ret tt else yChildren_put blockId ids'.

(** [yChildren.delete(index, 1)] on the children of [blockId]. *)
Definition yChildren_delete1 (blockId : string) (index : Z) : PageM unit :=
  ids <- yChildren_get blockId ;;
  ids' <- lift_outcome (yarray_delete1 index ids) ;;
  yChildren_put blockId ids'.

Definition inb (x : string) (xs : list string) : bool :=
  existsb (String.eqb x) xs.

Fixpoint dedupe (seen : list string) (xs : list string) : list string :=
  match xs with
  | [] => []
  | x :: xs' => if inb x seen then dedupe seen xs' else x :: dedupe (x :: seen) xs'
  end.

Definition topKeysOf (chs : list Changed) : list string :=
  dedupe [] (flat_map (fun c => match c with ChTop id => [id] | _ => [] end) chs).

Definition blockKeysOf (blockId : string) (chs : list Changed) : list string :=
  dedupe [] (flat_map (fun c => match c with
                                | ChBlockKey b k => if String.eqb b blockId then [k] else []
                                | _ => []
                                end) chs).

Definition topAction (before after : YBlocks) (id : string)
  : list (string * KeyAction) :=
  match OMap.get id before, OMap.get id after with
  | None, Some _ => [(id, KAdd)]
  | Some _, None => [(id, KDelete)]
  | Some _, Some _ => [(id, KUpdate)]
  | None, None => []
  end.

(** The type a change belongs to, when that type existed before the
    transaction and still exists after it (changes inside a block created or
    removed by the transaction raise no event of their own). *)
Definition eventOfChange (before after : YBlocks) (chs : list Changed) (c : Changed)
  : list YEvent :=
  match c with
  | ChTop _ => []
  | ChBlockKey b _ =>
      if inb b (topKeysOf chs) then []
      else if OMap.has b after then [EvBlockMap b (blockKeysOf b chs)] else []
  | ChArray b k =>
      if inb b (topKeysOf chs) then []
      else if inb k (blockKeysOf b chs) then []
      else if OMap.has b after then [EvBlockArray b k] else []
  end.

Definition sameTarget (e1 e2 : YEvent) : bool :=
  match e1, e2 with
  | EvBlocks _, EvBlocks _ => true
  | EvBlockMap b1 _, EvBlockMap b2 _ => String.eqb b1 b2
  | EvBlockArray b1 k1, EvBlockArray b2 k2 => String.eqb b1 b2 && String.eqb k1 k2
  | EvBlockText, EvBlockText => true
  | _, _ => false
  end.

Fixpoint dedupeEvents (seen : list YEvent) (es : list YEvent) : list YEvent :=
  match es with
  | [] => []
  | e :: es' =>
      if existsb (sameTarget e) seen then dedupeEvents seen es'
      else e :: dedupeEvents (e :: seen) es'
  end.

(** The batch handed to the deep observer when a transaction commits: one
    event per changed type, in order of first change, sorted by path length. *)
Definition computeEvents (before after : YBlocks) (chs : list Changed) : list YEvent :=
  let top := match topKeysOf chs with
             | [] => []
             | ks => [EvBlocks (flat_map (topAction before after) ks)]
             end in
  sortByPath (top ++ dedupeEvents [] (flat_map (eventOfChange before after chs) chs)).

(** ** The typed projection: model objects, lookup and tree walks *)

Definition getModel (a : addr) (p : Page) : option BaseBlockModel := nth_error (heap p) a.

Fixpoint replaceNth {A} (n : nat) (x : A) (xs : list A) : list A :=
  match n, xs with
  | _, [] => []
  | O, _ :: xs' => x :: xs'
  | S n', y :: xs' => y :: replaceNth n' x xs'
  end.

(** In-place mutation of the model object at [a]. *)
Definition updModel (a : addr) (f : BaseBlockModel -> BaseBlockModel) : PageM unit :=
  modify (fun p =>
    match getModel a p with
    | Some m => set_heap (replaceNth a (f m) (heap p)) p
    | None => p
    end).

Definition allocModel (m : BaseBlockModel) : PageM addr :=
  a <- gets (fun p => length (heap p)) ;;
  modify (fun p => set_heap (heap p ++ [m]) p) ;;;
  ret a.

Definition with_children (cs : list (option addr)) (m : BaseBlockModel) : BaseBlockModel :=
  mkModel (m_flavour m) (m_id m) cs (m_childMap m) (m_fields m) (m_hasText m) (m_disposed m).
Definition with_childMap (cm : OMap.t Z) (m : BaseBlockModel) : BaseBlockModel :=
  mkModel (m_flavour m) (m_id m) (m_children m) cm (m_fields m) (m_hasText m) (m_disposed m).
Definition with_hasText (b : bool) (m : BaseBlockModel) : BaseBlockModel :=
  mkModel (m_flavour m) (m_id m) (m_children m) (m_childMap m) (m_fields m) b (m_disposed m).
Definition with_disposed (b : bool) (m : BaseBlockModel) : BaseBlockModel :=
  mkModel (m_flavour m) (m_id m) (m_children m) (m_childMap m) (m_fields m) (m_hasText m) b.
Definition with_fields (fs : OMap.t YVal) (m : BaseBlockModel) : BaseBlockModel :=
  mkModel (m_flavour m) (m_id m) (m_children m) (m_childMap m) fs (m_hasText m) (m_disposed m).
Definition with_id (i : string) (m : BaseBlockModel) : BaseBlockModel :=
  mkModel (m_flavour m) i (m_children m) (m_childMap m) (m_fields m) (m_hasText m) (m_disposed m).
Definition with_flavour (f : string) (m : BaseBlockModel) : BaseBlockModel :=
  mkModel f (m_id m) (m_children m) (m_childMap m) (m_fields m) (m_hasText m) (m_disposed m).

(** [createChildMap]: [new Map(yChildIds.map((child, index) => [child, index]))] *)
Fixpoint createChildMapFrom (i : Z) (ids : list string) (acc : OMap.t Z) : OMap.t Z :=
  match ids with
  | [] => acc
  | id :: ids' => createChildMapFrom (i + 1) ids' (OMap.set id i acc)
  end.
Definition createChildMap (yChildIds : list string) : OMap.t Z :=
  createChildMapFrom 0 yChildIds OMap.empty.

(** [this.root] *)
Definition rootOf (p : Page) : option addr :=
  match root p with
  | RootNull => None
  | RootModel a => Some a
  | RootPair r _ => r
  end.

(** [this.rootLayer] *)
Definition rootLayer (p : Page) : option addr :=
  match root p with
  | RootPair _ l => Some l
  | _ => None
  end.

(** [Page.getBlockById]: [this._blockMap.get(id) ?? null] *)
Definition getBlockById (id : string) (p : Page) : option addr :=
  OMap.get id (blockMap p).

(** The loop [for (const [childId] of root.childMap)] of [getParentById];
    [walk] is the recursive call. *)
Fixpoint parentLoop (walk : string -> option (option addr)) (ra : addr)
    (targetId : string) (cm : list (string * Z)) : option (option addr) :=
  match cm with
  | [] => Some None
  | (childId, _) :: cm' =>
      if String.eqb childId targetId then Some (Some ra)
      else match walk childId with
           | None => None
           | Some (Some pa) => Some (Some pa)
           | Some None => parentLoop walk ra targetId cm'
           end
  end.

(** [Page.getParentById].  The walk follows [childMap] through [_blockMap]
    and recurses without a visited set; [fuel] bounds the depth of the
    recursion and the outer [None] stands for the exhausted call stack of a
    walk that never returns (a cycle of [childMap] entries). *)
Fixpoint getParentById (fuel : nat) (p : Page) (rootId targetId : string)
  : option (option addr) :=
  match fuel with
  | O => None
  | S fuel' =>
      if String.eqb rootId targetId then Some None
      else match OMap.get rootId (blockMap p) with
           | None => Some None
           | Some ra =>
               match getModel ra p with
               | None => Some None
               | Some rm =>
                   parentLoop (fun childId => getParentById fuel' p childId targetId)
                              ra targetId (m_childMap rm)
               end
           end
  end.

(** [Page.getParent], for a block whose [id] is [targetId].  Any path of
    [childMap] entries longer than the number of registered models repeats
    an id, so this much fuel is exhausted only by a walk that loops. *)
Definition getParent (p : Page) (targetId : string) : outcome (option addr) :=
  match rootOf p with
  | None => Ok None
  | Some ra =>
      match getModel ra p with
      | None => Ok None
      | Some rm =>
          match getParentById (S (OMap.size (blockMap p))) p (m_id rm) targetId with
          | Some r => Ok r
          | None => Throw RangeError
          end
      end
  end.

(** [children.indexOf(model)]: the first slot holding that object. *)
Fixpoint indexOfFrom (i : Z) (a : addr) (cs : list (option addr)) : Z :=
  match cs with
  | [] => (-1)%Z
  | Some a' :: cs' => if Nat.eqb a a' then i else indexOfFrom (i + 1) a cs'
  | None :: cs' => indexOfFrom (i + 1) a cs'
  end.
Definition indexOf (a : addr) (cs : list (option addr)) : Z := indexOfFrom 0 a cs.

(** ** Reconciliation of the projection with change events *)

Definition sysIdOf (yb : YBlock) : option string :=
  match OMap.get "sys:id" yb with
  | Some (YPrim (JStr s)) => Some s
  | _ => None
  end.

(** [s.replace(pat, '')]: the first occurrence of [pat] is removed. *)
Fixpoint removeFirst (pat s : string) : string :=
  if String.prefix pat s then substring (String.length pat) (String.length s) s
  else match s with
       | EmptyString => EmptyString
       | String c s' => String c (removeFirst pat s')
       end.

(** [ids.map(id => this._blockMap.get(id) as BaseBlockModel)] *)
Definition modelsOf (p : Page) (ids : list string) : list (option addr) :=
  map (fun id => OMap.get id (blockMap p)) ids.

(** [Page._handleYBlockDelete] *)
Definition _handleYBlockDelete (id : string) : PageM unit :=
  model <- gets (getBlockById id) ;;
  r <- gets root ;;
  (match model, r with
   | Some a, RootModel ra => if Nat.eqb a ra then emit (SigRootDeleted id) else ret tt
   | _, _ => ret tt
   end) ;;;
  modify (fun p => set_blockMap (OMap.delete id (blockMap p)) p).

(** [Object.assign(model, props)] for one collected property.  A value that
    is [undefined] leaves the property unset. *)
Definition assignProp (name : string) (v : option YVal) (m : BaseBlockModel)
  : BaseBlockModel :=
  match v with
  | Some (YPrim (JStr s)) =>
      if String.eqb name "id" then with_id s m
      else if String.eqb name "flavour" then with_flavour s m
      else with_fields (OMap.set name (YPrim (JStr s)) (m_fields m)) m
  | Some val => with_fields (OMap.set name val (m_fields m)) m
  | None => with_fields (OMap.delete name (m_fields m)) m
  end.

(** One iteration of the loop over [event.keysChanged]; the accumulator is
    [(props, hasPropsUpdate, hasChildrenUpdate)]. *)
Definition updateKey (target : YBlock) (a : addr) (key : string)
    (acc : list (string * option YVal) * bool * bool)
  : PageM (list (string * option YVal) * bool * bool) :=
  let '(props, hasProps, hasChildren) := acc in
  if String.eqb key "prop:text" then ret acc
  else if String.eqb key "sys:children" then
    match OMap.get "sys:children" target with
    | Some (YArray ids) =>
        updModel a (with_childMap (createChildMap ids)) ;;;
        cs <- gets (fun p => modelsOf p ids) ;;
        updModel a (with_children cs) ;;;
        ret (props, hasProps, true)
    | _ =>
        consoleError "Failed to update block children!, sys:children is not an Y array" ;;;
        ret (props, hasProps, true)
    end
  else ret (props ++ [(removeFirst "prop:" key, OMap.get key target)], true, hasChildren).

Fixpoint foldKeysM {A} (f : string -> A -> PageM A) (keys : list string) (acc : A)
  : PageM A :=
  match keys with
  | [] => ret acc
  | k :: ks => acc' <- f k acc ;; foldKeysM f ks acc'
  end.

(** [Page._handleYBlockUpdate] for a map event on the block stored under
    [blockKey]. *)
Definition _handleYBlockUpdate (blockKey : string) (keysChanged : list string)
  : PageM unit :=
  target <- gets (fun p => OMap.get blockKey (yBlocks p)) ;;
  match target with
  | None => ret tt
  | Some yb =>
      model <- gets (fun p => match sysIdOf yb with
                              | Some id => getBlockById id p
                              | None => None
                              end) ;;
      match model with
      | None => ret tt
      | Some a =>
          acc <- foldKeysM (updateKey yb a) keysChanged ([], false, false) ;;
          let '(props, hasProps, hasChildren) := acc in
          (if hasProps : bool then
             updModel a (fun m => fold_left (fun m' '(n, v) => assignProp n v m') props m) ;;;
             emit (SigPropsUpdated a)
           else ret tt) ;;;
          (if hasChildren : bool then emit (SigChildrenUpdated a) else ret tt)
      end
  end.

(** The array branch of [_handleYEvent]: a sequence event whose owner is a
    block map carrying [sys:id]. *)
Definition handleArrayEvent (blockKey key : string) : PageM unit :=
  target <- gets (fun p => OMap.get blockKey (yBlocks p)) ;;
  match target with
  | None => ret tt
  | Some yb =>
      if negb (OMap.has "sys:id" yb) then ret tt
      else
        model <- gets (fun p => match sysIdOf yb with
                                | Some id => getBlockById id p
                                | None => None
                                end) ;;
        match model with
        | None => throw (BlockDoesNotExist (match sysIdOf yb with Some id => id | None => "" end))
        | Some a =>
            if String.eqb key "sys:children" then
              match OMap.get key yb with
              | Some (YArray childIds) =>
                  cs <- gets (fun p => modelsOf p childIds) ;;
                  updModel a (with_children cs) ;;;
                  updModel a (with_childMap (createChildMap childIds)) ;;;
                  emit (SigChildrenUpdated a)
              | _ => ret tt
              end
            else ret tt
        end
  end.

(** The loop of [_handleYEvent] over the keys of a top-level event; [visited]
    is the local set shared with [_handleYBlockAdd]. *)
Fixpoint handleTopKeys (handleAdd : list string -> string -> PageM (list string))
    (keys : list (string * KeyAction)) (visited : list string) : PageM unit :=
  match keys with
  | [] => ret tt
  | (id, KAdd) :: rest =>
      if inb id visited then handleTopKeys handleAdd rest visited
      else
        visited' <- handleAdd (id :: visited) id ;;
        handleTopKeys handleAdd rest visited'
  | (id, KDelete) :: rest =>
      _handleYBlockDelete id ;;; handleTopKeys handleAdd rest visited
  | (_, KUpdate) :: rest => handleTopKeys handleAdd rest visited
  end.

(** [Page._handleYEvent] *)
Definition _handleYEvent (handleAdd : list string -> string -> PageM (list string))
    (event : YEvent) : PageM unit :=
  match event with
  | EvBlocks keys => handleTopKeys handleAdd keys []
  | EvBlockText => emit SigTextUpdated
  | EvBlockMap blockKey keysChanged => _handleYBlockUpdate blockKey keysChanged
  | EvBlockArray blockKey key => handleArrayEvent blockKey key
  end.

(** [Page._handleYEvents] *)
Definition _handleYEvents (handleAdd : list string -> string -> PageM (list string))
    (events : list YEvent) : PageM unit :=
  forEachM (_handleYEvent handleAdd) events ;;;
  emit SigUpdated.

(** ** Transactions *)

Definition HandleAdd := list string -> string -> PageM (list string).

(** The deep observer is called with the batch of one committed transaction,
    when it is registered and the transaction changed something under
    [_yBlocks]. *)
Definition dispatchBatch (handleAdd : HandleAdd) (events : list YEvent) : PageM unit :=
  fun p =>
    if observing p && negb (isNil events) then _handleYEvents handleAdd events p
    else (Ok tt, p).

(** [Page._historyObserver] *)
Definition _historyObserver : PageM unit := emit SigHistoryUpdated.

(** [Page._historyAddObserver]: the cursor it stores in the stack item
    belongs to the awareness adapter, outside the store. *)
Definition _historyAddObserver : PageM unit := _historyObserver.

(** The history manager [_initYBlocks] creates, a [Y.UndoManager] over
    [_yBlocks] that tracks the origin [doc.clientID], is told of every
    committed transaction after the observers of that transaction have run,
    also when one of them has thrown.  A transaction of a tracked origin that
    changed something under [_yBlocks] adds an item to the undo stack or
    extends the last one; the listeners registered for [stack-item-added]
    ([_historyAddObserver]) and [stack-item-updated] ([_historyObserver])
    both emit [historyUpdated]. *)
Definition historyAfterTransaction (tracked : bool) (events : list YEvent) : PageM unit :=
  fun p =>
    if hasHistory p && tracked && negb (isNil events) then _historyAddObserver p
    else (Ok tt, p).

(** Yjs runs the listeners of the committed transactions one after the
    other, also after an observer has thrown; the exception that reaches the
    caller is the last one raised. *)
Fixpoint drain (handleAdd : HandleAdd) (fuel : nat) (err : option Error) (p : Page)
  : option Error * Page :=
  match fuel with
  | O => (err, p)
  | S fuel' =>
      match queued p with
      | [] => (err, p)
      | (tracked, events) :: rest =>
          let '(r, p1) := dispatchBatch handleAdd events (set_queued rest p) in
          let '(_, p2) := historyAfterTransaction tracked events p1 in
          drain handleAdd fuel' (match r with Throw e => Some e | Ok _ => err end) p2
      end
  end.

(** [doc.transact(fn, origin)]; [tracked] tells whether the origin is the
    one the history manager tracks.
    - Inside an open transaction [fn] simply runs.
    - Otherwise a transaction is begun, [fn] runs, and the transaction is
      committed whether or not [fn] threw.  When the commit happens while the
      observers of an earlier transaction are still running, its batch is
      queued behind them; otherwise the observers run now.  Each observer
      round starts at most one transaction per block it materializes, so the
      fuel given to [drain] covers every queued batch. *)
Definition transactFrom (tracked : bool) (handleAdd : HandleAdd) (fn : PageM unit)
  : PageM unit :=
  fun p =>
    if inTxn p then fn p
    else
      let p1 := set_txCount (S (txCount p))
                  (set_changed [] (set_txnBefore (yBlocks p) (set_inTxn true p))) in
      let '(r, p2) := fn p1 in
      let events := computeEvents (txnBefore p2) (yBlocks p2) (changed p2) in
      let p3 := set_changed [] (set_inTxn false p2) in
      if inCleanup p3 then (r, set_queued (queued p3 ++ [(tracked, events)]) p3)
      else
        let p4 := set_inCleanup true (set_queued [(tracked, events)] p3) in
        let '(err, p5) := drain handleAdd (S (OMap.size (yBlocks p4))) None p4 in
        let p6 := set_inCleanup false p5 in
        match err with
        | Some e => (Throw e, p6)
        | None => (r, p6)
        end.

(** [Space.transact]: [this.doc.transact(fn, this.doc.clientID)], the origin
    the history manager tracks. *)
Definition transactWith (handleAdd : HandleAdd) (fn : PageM unit) : PageM unit :=
  transactFrom true handleAdd fn.

(** ** Block properties and the helpers of [utils/utils.ts] *)

Inductive TextProp : Type :=
| TextObj (content : string)       (* a [Text] *)
| PrelimTextObj (ready : bool).    (* a [PrelimText] *)

(** [Partial<BlockProps>] as the mutation entry points receive it. *)
Record BlockProps : Type := mkProps {
  bp_flavour : option string;
  bp_id : option string;
  bp_text : option TextProp;
  bp_children : option (list (option addr));
  bp_fields : OMap.t JsVal
}.

(** [children.map(child => child.id)]; reading [id] of an [undefined] slot or
    of a dangling reference is a [TypeError]. *)
Fixpoint childIds (p : Page) (cs : list (option addr)) : outcome (list string) :=
  match cs with
  | [] => Ok []
  | c :: cs' =>
      match c with
      | Some a =>
          match getModel a p with
          | Some m =>
              match childIds p cs' with
              | Ok ids => Ok (m_id m :: ids)
              | Throw e => Throw e
              end
          | None => Throw (TypeError "child is undefined")
          end
      | None => Throw (TypeError "child is undefined")
      end
  end.

(** Modelled from the spec: [assertValidChildren] of [utils/utils.ts], which
    is not part of the sources at hand.  Every id appearing in a children
    list must exist as a key of the flat map. *)
Definition assertValidChildren (p : Page) (props : BlockProps) : outcome unit :=
  match bp_children props with
  | None => Ok tt
  | Some cs =>
      match childIds p cs with
      | Throw e => Throw e
      | Ok ids =>
          match find (fun id => negb (OMap.has id (yBlocks p))) ids with
          | Some id => Throw (InvalidChild id)
          | None => Ok tt
          end
      end
  end.

Definition optStr (o : option string) (yb : YBlock) (key : string) : YBlock :=
  match o with
  | Some s => OMap.set key (YPrim (JStr s)) yb
  | None => yb
  end.

(** Modelled from the spec: [initInternalProps] of [utils/utils.ts].  It
    writes the [sys:*] fields of the persisted layout: [sys:id],
    [sys:flavour] and [sys:children], the ordered list of child ids. *)
Definition initInternalProps (yBlock : YBlock) (props : BlockProps)
    (childrenIds : list string) : YBlock :=
  OMap.set "sys:children" (YArray childrenIds)
    (optStr (bp_flavour props) (optStr (bp_id props) yBlock "sys:id") "sys:flavour").

Definition SYS_KEYS : list string := ["id"; "flavour"; "children"].

(** Modelled from the spec: [syncBlockProps] of [utils/utils.ts].  Every
    declared property is written as [prop:<name>]; the reserved keys, the
    keys of a bare model and [text] are skipped.  The defaults are the ones
    the unit tests of the store observe: a paragraph gets [prop:type = 'text'],
    the page block gets its [meta:tags] and [meta:tagSchema] side tables.
    [syncBlockPropsWrites] lists the [yBlock.set] calls in order. *)
Definition flavourIs (props : BlockProps) (f : string) : bool :=
  match bp_flavour props with
  | Some f' => String.eqb f' f
  | None => false
  end.

Definition syncBlockPropsWrites (yBlock : YBlock) (props : BlockProps)
    (ignored : list string) : list (string * YVal) :=
  let declared :=
    flat_map
      (fun '(key, value) =>
         if inb key SYS_KEYS || inb key ignored || String.eqb key "text" then []
         else [(("prop:" ++ key)%string, YPrim value)])
      (bp_fields props) in
  let typed :=
    if flavourIs props "affine:paragraph"
       && negb (OMap.has "prop:type" yBlock || inb "prop:type" (map fst declared))
    then [("prop:type", YPrim (JStr "text"))] else [] in
  let meta :=
    if flavourIs props "affine:page"
    then [("meta:tags", YMapV []); ("meta:tagSchema", YMapV [])] else [] in
  declared ++ typed ++ meta.

Definition applyWrites (writes : list (string * YVal)) (yBlock : YBlock) : YBlock :=
  fold_left (fun yb '(key, v) => OMap.set key v yb) writes yBlock.

Definition syncBlockProps (yBlock : YBlock) (props : BlockProps)
    (ignored : list string) : YBlock :=
  applyWrites (syncBlockPropsWrites yBlock props ignored) yBlock.

(** Modelled from the spec: [trySyncTextProp] of [utils/utils.ts].  A ready
    rich-text handle becomes the block's [prop:text]; the bookkeeping of
    split texts is outside the embedding. *)
Definition trySyncTextProp (yBlock : YBlock) (text : option TextProp) : YBlock :=
  match text with
  | Some (TextObj content) => OMap.set "prop:text" (YText content) yBlock
  | _ => yBlock
  end.

(** Modelled from the spec: [toBlockProps] of [utils/utils.ts], the inverse
    reading of the persisted layout: [sys:id] and [sys:flavour] become [id]
    and [flavour], every [prop:<name>] becomes [<name>]. *)
Definition toBlockProps (yBlock : YBlock) : option string * option string * OMap.t YVal :=
  let str key := match OMap.get key yBlock with
                 | Some (YPrim (JStr s)) => Some s
                 | _ => None
                 end in
  (str "sys:id", str "sys:flavour",
   fold_left (fun acc '(key, v) =>
                if String.prefix "prop:" key
                then OMap.set (removeFirst "prop:" key) v acc else acc)
             yBlock []).

(** ** Materialization of block models *)

(** [Page._getYBlock] *)
Definition _getYBlock (id : string) : PageM YBlock :=
  yb <- gets (fun p => OMap.get id (yBlocks p)) ;;
  match yb with
  | Some b => ret b
  | None => throw (BlockDoesNotExist id)
  end.

(** [Page._createBlockModel].  An absent flavour is looked up as
    [undefined] and is never registered.  The new model carries the flavour
    its class declares, the given id and the given properties. *)
Definition _createBlockModel (flavour : option string) (id : string)
    (fields : OMap.t YVal) : PageM addr :=
  ctor <- gets (fun p => match flavour with
                         | Some f => OMap.get f (flavourMap p)
                         | None => None
                         end) ;;
  match ctor with
  | None => throw (FlavourNotRegistered
                     (match flavour with Some f => f | None => "undefined" end))
  | Some c =>
      if String.eqb id "" then throw BlockIdUndefined
      else allocModel (mkModel (ctor_flavour c) id [] [] fields false false)
  end.

(** [array[index] = v], extending the array with empty slots when needed. *)
Fixpoint arraySet {A} (n : nat) (v : option A) (xs : list (option A))
  : list (option A) :=
  match n, xs with
  | O, [] => [v]
  | O, _ :: xs' => v :: xs'
  | S n', [] => None :: arraySet n' v []
  | S n', x :: xs' => x :: arraySet n' v xs'
  end.

(** JavaScript truthiness of [yBlock.get(key)]. *)
Definition truthy (v : option YVal) : bool :=
  match v with
  | None => false
  | Some (YPrim (JStr s)) => negb (String.eqb s "")
  | Some (YPrim (JNum z)) => negb (Z.eqb z 0)
  | Some (YPrim (JBool b)) => b
  | Some _ => true
  end.

(** [this._blockMap.size] *)
Definition blockMapSize (p : Page) : nat :=
  OMap.size (blockMap p) + match blockMapUndefined p with Some _ => 1 | None => 0 end.

(** [this._blockMap.set(props.id, model)]: the model is registered under the
    block's own [sys:id]; a block without one is registered under the key
    [undefined], which no lookup by a string reaches. *)
Definition blockMap_set (sysId : option string) (a : addr) : PageM unit :=
  modify (fun p =>
    match sysId with
    | Some s => set_blockMap (OMap.set s a (blockMap p)) p
    | None => set_blockMapUndefined (Some a) p
    end).

Definition modelIdOf (a : addr) : PageM string :=
  m <- gets (getModel a) ;;
  match m with
  | Some model => ret (m_id model)
  | None => throw (TypeError "model is undefined")
  end.

(** The loop [yChildren.forEach] of [_handleYBlockAdd] for the model at [a];
    [self] is the recursive call. *)
Fixpoint forEachChild (self : HandleAdd) (a : addr) (childMap : OMap.t Z)
    (ids : list string) (visited : list string) : PageM (list string) :=
  match ids with
  | [] => ret visited
  | cid :: rest =>
      match OMap.get cid childMap with
      | Some index =>
          hasChild <- gets (fun p => OMap.has cid (blockMap p)) ;;
          visited1 <- (if hasChild : bool then ret visited
                       else self (cid :: visited) cid) ;;
          child <- gets (fun p => OMap.get cid (blockMap p)) ;;
          updModel a (fun m =>
            with_children (arraySet (Z.to_nat index) child (m_children m)) m) ;;;
          forEachChild self a childMap rest visited1
      | None => forEachChild self a childMap rest visited
      end
  end.

(** Second half of the body of [Page._handleYBlockAdd], once the model has
    been created at [a] and registered: the text, the tag tables, the
    children and the link from the parent.  [self] is the method itself, for
    the recursion on children and for the observers of the transaction that
    gives a text block its [prop:text]. *)
Definition linkBlockModel (self : HandleAdd) (visited : list string) (id : string)
    (yBlock : YBlock) (a : addr) (flavour : string) (isRoot : bool)
  : PageM (list string) :=
  let isSurface := String.eqb flavour "affine:surface" in
  (if inb flavour ["affine:paragraph"; "affine:list"; "affine:code"]
      && negb (truthy (OMap.get "prop:text" yBlock))
   then transactWith self (yBlock_set id "prop:text" (YText ""))
   else ret tt) ;;;
  updModel a (with_hasText true) ;;;
  yBlock' <- _getYBlock id ;;
  (if String.eqb flavour "affine:page"
   then updModel a (fun m => assignProp "tagSchema" (OMap.get "meta:tags" yBlock')
                               (assignProp "tags" (OMap.get "meta:tags" yBlock') m))
   else ret tt) ;;;
  visited' <-
    match OMap.get "sys:children" yBlock' with
    | Some (YArray yChildren) =>
        let childMap := createChildMap yChildren in
        updModel a (with_childMap childMap) ;;;
        forEachChild self a childMap yChildren visited
    | _ => ret visited
    end ;;
  (if isRoot : bool then
     modify (set_root (RootModel a)) ;;; emit (SigRootAdded (RootModel a))
   else if isSurface then
     r <- gets rootOf ;;
     modify (set_root (RootPair r a)) ;;; emit (SigRootAdded (RootPair r a))
   else
     mid <- modelIdOf a ;;
     parent <- (fun p => (getParent p mid, p)) ;;
     match parent with
     | Some pa =>
         pm <- gets (getModel pa) ;;
         match pm with
         | Some parentModel =>
             match OMap.get mid (m_childMap parentModel) with
             | Some index =>
                 updModel pa (fun m =>
                   with_children (arraySet (Z.to_nat index) (Some a) (m_children m)) m) ;;;
                 emit (SigChildrenUpdated pa)
             | None => ret tt
             end
         | None => ret tt
         end
     | None => ret tt
     end) ;;;
  ret visited'.

(** The body of [Page._handleYBlockAdd]: the model is created from the raw
    fields and registered under the block's own [sys:id], then linked. *)
Definition handleYBlockAddStep (self : HandleAdd) (visited : list string) (id : string)
  : PageM (list string) :=
  yBlock <- _getYBlock id ;;
  isRoot <- gets (fun p => Nat.eqb (blockMapSize p) 0) ;;
  let '(propsId, propsFlavour, fields) := toBlockProps yBlock in
  a <- _createBlockModel propsFlavour id fields ;;
  flavour <- gets (fun p => match getModel a p with
                            | Some m => m_flavour m
                            | None => ""
                            end) ;;
  blockMap_set propsId a ;;;
  linkBlockModel self visited id yBlock a flavour isRoot.

(** [Page._handleYBlockAdd].  [fuel] bounds the depth of the recursion on
    children that have no model yet; the walk registers a model before it
    descends, so it is at most the number of blocks of the flat map deep
    unless a block's [sys:id] differs from its key, in which case the source
    may recurse until the call stack is exhausted. *)
Fixpoint _handleYBlockAdd (fuel : nat) (visited : list string) (id : string)
    {struct fuel} : PageM (list string) :=
  match fuel with
  | O => throw RangeError
  | S fuel' => handleYBlockAddStep (_handleYBlockAdd fuel') visited id
  end.

(** The handler the deep observer uses for a block added to the flat map. *)
Definition handleAdd : HandleAdd :=
  fun visited id p => _handleYBlockAdd (S (OMap.size (yBlocks p))) visited id p.

(** [this.transact(fn)] as the methods of [Page] call it. *)
Definition transact (fn : PageM unit) : PageM unit := transactWith handleAdd fn.

(** ** The mutation entry points of [Page] *)

Definition readonlyError : string := "cannot modify data in readonly mode".

(** The [parent] argument of [addBlockByFlavour]:
    [BaseBlockModel | string | null | undefined]. *)
Inductive ParentArg : Type :=
| ParentUndefined
| ParentNull
| ParentId (id : string)
| ParentModel (a : addr).

(** [this._idGenerator()] *)
Definition nextId : PageM string :=
  id <- gets (fun p => idGenerator p (idCalls p)) ;;
  modify (fun p => set_idCalls (S (idCalls p)) p) ;;;
  ret id.

Definition rootId (p : Page) : option string :=
  match rootOf p with
  | Some ra => option_map m_id (getModel ra p)
  | None => None
  end.

(** [parent === null ? null : parent?.id ?? this.root?.id], after a string
    [parent] has been replaced by [this._blockMap.get(parent)]. *)
Definition resolveParentId (parent : ParentArg) (p : Page) : option string :=
  match parent with
  | ParentNull => None
  | ParentUndefined => rootId p
  | ParentId s =>
      match OMap.get s (blockMap p) with
      | Some a => match getModel a p with
                  | Some m => Some (m_id m)
                  | None => rootId p
                  end
      | None => rootId p
      end
  | ParentModel a =>
      match getModel a p with
      | Some m => Some (m_id m)
      | None => rootId p
      end
  end.

(** The callback [addBlockByFlavour] passes to [transact]. *)
Definition addBlockBody (clonedProps : BlockProps) (id : string)
    (parent : ParentArg) (parentIndex : option Z) : PageM unit :=
  (fun p => (assertValidChildren p clonedProps, p)) ;;;
  cids <- (fun p => (match bp_children clonedProps with
                     | Some cs => childIds p cs
                     | None => Ok []
                     end, p)) ;;
  ignored <- gets ignoredKeys ;;
  let yBlock :=
    trySyncTextProp
      (syncBlockProps (initInternalProps OMap.empty clonedProps cids) clonedProps ignored)
      (bp_text clonedProps) in
  parentId <- gets (resolveParentId parent) ;;
  (match parentId with
   | Some pid =>
       if String.eqb pid "" then ret tt
       else
         yChildren <- yChildren_get pid ;;
         let index := match parentIndex with
                      | Some i => i
                      | None => Z.of_nat (length yChildren)
                      end in
         yChildren_insert pid index [id]
   | None => ret tt
   end) ;;;
  yBlocks_set id yBlock.

(** [Page.addBlockByFlavour] *)
Definition addBlockByFlavour (flavour : string) (blockProps : BlockProps)
    (parent : ParentArg) (parentIndex : option Z) : PageM string :=
  ro <- gets readonly ;;
  if ro : bool then throw ReadonlyMode
  else if String.eqb flavour "" then throw MissingFlavour
  else
    id <- nextId ;;
    let clonedProps :=
      mkProps (Some flavour) (Some id) (bp_text blockProps) (bp_children blockProps)
              (bp_fields blockProps) in
    transact (addBlockBody clonedProps id parent parentIndex) ;;;
    ret id.

(** [Page.addBlock] (deprecated): the flavour is read from the properties. *)
Definition addBlock (blockProps : BlockProps) (parent : ParentArg)
    (parentIndex : option Z) : PageM string :=
  addBlockByFlavour (match bp_flavour blockProps with Some f => f | None => "" end)
                    blockProps parent parentIndex.

(** The callback [updateBlock] passes to [transact]. *)
Definition updateBlockBody (a : addr) (mid : string) (props : BlockProps) : PageM unit :=
  (match bp_text props with
   | Some (TextObj content) =>
       updModel a (with_hasText true) ;;;
       yBlock_set mid "prop:text" (YText content)
   | _ => ret tt
   end) ;;;
  (match bp_children props with
   | Some cs =>
       ids <- (fun p => (childIds p cs, p)) ;;
       yBlock_set mid "sys:children" (YArray ids)
   | None => ret tt
   end) ;;;
  yBlock <- gets (fun p => OMap.get mid (yBlocks p)) ;;
  ignored <- gets ignoredKeys ;;
  forEachM (fun '(key, v) => yBlock_set mid key v)
           (syncBlockPropsWrites (match yBlock with Some yb => yb | None => OMap.empty end)
                                 props ignored).

(** [Page.updateBlock]; [model] is [None] when the caller passes
    [undefined] (as [updateBlockById] does for an unknown id). *)
Definition updateBlock (model : option addr) (props : BlockProps) : PageM unit :=
  ro <- gets readonly ;;
  if ro : bool then consoleError readonlyError
  else
    match model with
    | None => throw (TypeError "model is undefined")
    | Some a =>
        mid <- modelIdOf a ;;
        transact (updateBlockBody a mid props)
    end.

(** [Page.updateBlockById] *)
Definition updateBlockById (id : string) (props : BlockProps) : PageM unit :=
  ro <- gets readonly ;;
  if ro : bool then consoleError readonlyError
  else
    model <- gets (getBlockById id) ;;
    updateBlock model props.

Definition getParentM (targetId : string) : PageM (option addr) :=
  fun p => (getParent p targetId, p).

(** The callback [moveBlock] passes to [transact]. *)
Definition moveBlockBody (currentParentId nextParentId modelId targetId : string)
    (top : bool) : PageM unit :=
  yChildrenA <- yChildren_get currentParentId ;;
  let idx := findIndex modelId yChildrenA in
  yChildren_delete1 currentParentId idx ;;;
  yChildrenB <- yChildren_get nextParentId ;;
  let nextIdx := findIndex targetId yChildrenB in
  if top then yChildren_insert nextParentId nextIdx [modelId]
  else yChildren_insert nextParentId (nextIdx + 1) [modelId].

(** [Page.moveBlock] *)
Definition moveBlock (model targetModel : addr) (top : bool) : PageM unit :=
  ro <- gets readonly ;;
  if ro : bool then consoleError readonlyError
  else
    modelId <- modelIdOf model ;;
    targetId <- modelIdOf targetModel ;;
    currentParentModel <- getParentM modelId ;;
    nextParentModel <- getParentM targetId ;;
    match currentParentModel, nextParentModel with
    | Some pa, Some pb =>
        paId <- modelIdOf pa ;;
        pbId <- modelIdOf pb ;;
        transact (moveBlockBody paId pbId modelId targetId top) ;;;
        emit (SigPropsUpdated pa) ;;;
        emit (SigPropsUpdated pb)
    | _, _ => throw CannotFindParent
    end.

(** The callback [insertBlock] passes to [transact]. *)
Definition insertBlockBody (flavour : option string) (type : option JsVal)
    (targetParentId targetId : string) (top : bool) : PageM unit :=
  yChildren <- yChildren_get targetParentId ;;
  let targetIdx := findIndex targetId yChildren in
  match flavour with
  | None => throw AssertExistsFailed
  | Some f =>
      addBlockByFlavour f
        (mkProps None None None None
                 (match type with Some t => [("type", t)] | None => [] end))
        (ParentId targetParentId)
        (Some (if top then targetIdx else (targetIdx + 1)%Z)) ;;;
      ret tt
  end.

(** [Page.insertBlock]; of [blockProps] only [flavour] and [type] are read. *)
Definition insertBlock (flavour : option string) (type : option JsVal)
    (targetModel : addr) (top : bool) : PageM unit :=
  targetId <- modelIdOf targetModel ;;
  targetParentModel <- getParentM targetId ;;
  match targetParentModel with
  | None => throw CannotFindParent
  | Some tp =>
      tpId <- modelIdOf tp ;;
      transact (insertBlockBody flavour type tpId targetId top)
  end.

(** [options.bringChildrenTo] of [deleteBlock]. *)
Inductive BringChildrenTo : Type :=
| BringToParent
| BringTo (target : addr).

(** The callback [deleteBlock] passes to [transact]. *)
Definition deleteBlockBody (model : addr) (mid : string) (parent : option addr)
    (index : Z) (bringChildrenTo : BringChildrenTo) : PageM unit :=
  yBlocks_delete mid ;;;
  children <- (fun p => (match getModel model p with
                         | Some m => childIds p (m_children m)
                         | None => Throw (TypeError "model is undefined")
                         end, p)) ;;
  updModel model (with_disposed true) ;;;
  match parent with
  | Some pa =>
      paId <- modelIdOf pa ;;
      _ <- yBlocks_get paId ;;
      (if (-1 <? index)%Z then yChildren_delete1 paId index else ret tt) ;;;
      match bringChildrenTo with
      | BringToParent => yChildren_insert paId 0 children
      | BringTo target =>
          targetId <- modelIdOf target ;;
          targetChildren <- gets (fun p => match getModel target p with
                                           | Some m => m_children m
                                           | None => []
                                           end) ;;
          updateBlockById targetId (mkProps None None None (Some targetChildren) [])
      end
  | None => ret tt
  end.

(** [Page.deleteBlock] *)
Definition deleteBlock (model : addr) (bringChildrenTo : BringChildrenTo) : PageM unit :=
  ro <- gets readonly ;;
  if ro : bool then consoleError readonlyError
  else
    mid <- modelIdOf model ;;
    parent <- getParentM mid ;;
    modelChildren <- gets (fun p => match getModel model p with
                                    | Some m => m_children m
                                    | None => []
                                    end) ;;
    index <- gets (fun p => match parent with
                            | Some pa => match getModel pa p with
                                         | Some pm => indexOf model (m_children pm)
                                         | None => (-1)%Z
                                         end
                            | None => (-1)%Z
                            end) ;;
    (match parent with
     | Some pa =>
         if (-1 <? index)%Z
         then updModel pa (fun m => with_children (removeAt (Z.to_nat index) (m_children m)) m)
         else ret tt
     | None => ret tt
     end) ;;;
    (match bringChildrenTo, parent with
     | BringToParent, Some pa =>
         updModel pa (fun m => with_children (modelChildren ++ m_children m) m)
     | BringToParent, None => ret tt
     | BringTo target, _ =>
         updModel target (fun m => with_children (modelChildren ++ m_children m) m)
     end) ;;;
    modify (fun p => set_blockMap (OMap.delete mid (blockMap p)) p) ;;;
    transact (deleteBlockBody model mid parent index bringChildrenTo).

(** [Page.deleteBlockById] *)
Definition deleteBlockById (id : string) : PageM unit :=
  ro <- gets readonly ;;
  if ro : bool then consoleError readonlyError
  else
    model <- gets (getBlockById id) ;;
    match model with
    | Some a => deleteBlock a BringToParent
    | None => throw (TypeError "model is undefined")
    end.

(** [Page.undo] and [Page.redo].  [historyUndo] and [historyRedo] stand for
    [Y.UndoManager.undo] and [redo] of the external history manager. *)
Definition undo (historyUndo : PageM unit) : PageM unit :=
  ro <- gets readonly ;;
  if ro : bool then consoleError readonlyError
  else
    h <- gets hasHistory ;;
    if h : bool then historyUndo else throw (TypeError "_history is undefined").

Definition redo (historyRedo : PageM unit) : PageM unit :=
  ro <- gets readonly ;;
  if ro : bool then consoleError readonlyError
  else
    h <- gets hasHistory ;;
    if h : bool then historyRedo else throw (TypeError "_history is undefined").

(** ** Synchronization with an existing document *)

(** [Page._handleVersion].  Each [versions.set] of [writeVersion] is a
    transaction of its own on the document. *)
Definition _handleVersion : PageM unit :=
  size <- gets (fun p => OMap.size (yBlocks p)) ;;
  if Nat.eqb size 0 then
    modify (fun p =>
      set_txCount (txCount p + length (flavourMap p))
        (set_versions (writeVersion (flavourMap p) (versions p)) p))
  else
    fun p => (validateVersion (flavourMap p) (versions p), p).

(** [Page._initYBlocks]: the deep observer is registered and the history
    manager is created with its four listeners; from now on
    [historyAfterTransaction] runs them after every tracked transaction. *)
Definition _initYBlocks : PageM unit :=
  modify (fun p => set_hasHistory true (set_observing true p)).

(** The loop of [syncFromExistingDoc] over the keys of the flat map. *)
Fixpoint syncBlocks (ids : list string) (visited : list string) : PageM unit :=
  match ids with
  | [] => ret tt
  | id :: rest =>
      if inb id visited then syncBlocks rest visited
      else
        visited' <- handleAdd (id :: visited) id ;;
        syncBlocks rest visited'
  end.

(** [Page.syncFromExistingDoc].  [tryMigrate] stands for the migration
    scripts of [workspace/migrations.ts], run on the document first. *)
Definition syncFromExistingDoc (tryMigrate : PageM unit) : PageM unit :=
  s <- gets synced ;;
  if s : bool then throw SyncMoreThanOnce
  else
    tryMigrate ;;;
    _handleVersion ;;;
    _initYBlocks ;;;
    ids <- gets (fun p => OMap.keys (yBlocks p)) ;;
    syncBlocks ids [] ;;;
    modify (set_synced true).

(** [Page.dispose]: the observer is removed, then [_yBlocks.clear()] deletes
    every key in a transaction of its own, whose origin is [null]. *)
Definition dispose : PageM unit :=
  modify (set_observing false) ;;;
  transactFrom false handleAdd
    (ids <- gets (fun p => OMap.keys (yBlocks p)) ;;
     forEachM yBlocks_delete ids).

(** A page as its constructor leaves it. *)
Definition newPage (fm : FlavourMap) (vs : VersionLedger) (ro : bool)
    (gen : nat -> string) (calls : nat) (ignored : list string) (yb : YBlocks) : Page :=
  mkPage fm vs ro gen calls ignored yb [] [] RootNull false false false
         false false [] [] [] 0 [] [] None.

(** ** The workspace: metadata store and page stores *)

(** [PageMeta]: [id], [title], [createDate] and extension fields. *)
Record PageMeta : Type := mkPageMeta {
  pm_id : string;
  pm_title : string;
  pm_createDate : Z;
  pm_ext : OMap.t JsVal
}.

Inductive WsSignal : Type :=
| PageAdded (id : string)
| PageRemoved (id : string)
| PagesUpdated
| CommonFieldsUpdated.

(** A callback handed to [setTimeout], run on a later tick. *)
Inductive Task : Type :=
| TaskEmitPageAdded (id : string).

(** A change event delivered to the deep observer of the metadata map,
    classified as [_handleEvents] does. *)
Inductive MetaEvent : Type :=
| MEvPages                            (* [e.target === this.pages] *)
| MEvPageEntry                        (* [e.target.parent === this.pages] *)
| MEvOrigin (keys : list string)      (* [e.target === this.origin], changed keys *)
| MEvOther.

Record Workspace : Type := mkWorkspace {
  ws_flavourMap : FlavourMap;   (* [flavourMap] *)
  ws_pages : list PageMeta;   (* [meta.pages] *)
  ws_versions : VersionLedger;   (* [meta.proxy.versions] *)
  ws_name : string;   (* [meta.name] *)
  ws_avatar : string;   (* [meta.avatar] *)
  ws_prevPages : list string;   (* [meta._prevPages], a [Set] *)
  ws_spaces : OMap.t Page;   (* [_store.spaces], that is [_pages] *)
  ws_doc : OMap.t YBlocks;   (* the maps of the document, as they were when no page held them *)
  ws_timers : list Task;   (* pending [setTimeout] callbacks *)
  ws_signals : list WsSignal;   (* signals emitted, oldest first *)
  ws_console : list Error;   (* exceptions of subscribers, reported by [console.error] *)
  ws_indexed : list string;   (* [_indexer.onCreatePage] calls *)
  ws_now : Z;   (* [+new Date()] *)
  ws_readonly : bool;   (* [awarenessAdapter.isReadonly] *)
  ws_idGenerator : nat -> string;   (* [_store.idGenerator] *)
  ws_idCalls : nat;   (* calls of the generator so far *)
  ws_ignoredKeys : list string;   (* the keys of a bare [BaseBlockModel] *)
  ws_txCount : nat   (* transactions begun on the metadata *)
}.

Definition WsM := M Workspace.

Definition ws_with_flavourMap (v : FlavourMap) (w : Workspace) : Workspace :=
  mkWorkspace v (ws_pages w) (ws_versions w) (ws_name w) (ws_avatar w) (ws_prevPages w) (ws_spaces w) (ws_doc w) (ws_timers w) (ws_signals w) (ws_console w) (ws_indexed w) (ws_now w) (ws_readonly w) (ws_idGenerator w) (ws_idCalls w) (ws_ignoredKeys w) (ws_txCount w).
Definition ws_with_pages (v : list PageMeta) (w : Workspace) : Workspace :=
  mkWorkspace (ws_flavourMap w) v (ws_versions w) (ws_name w) (ws_avatar w) (ws_prevPages w) (ws_spaces w) (ws_doc w) (ws_timers w) (ws_signals w) (ws_console w) (ws_indexed w) (ws_now w) (ws_readonly w) (ws_idGenerator w) (ws_idCalls w) (ws_ignoredKeys w) (ws_txCount w).
Definition ws_with_versions (v : VersionLedger) (w : Workspace) : Workspace :=
  mkWorkspace (ws_flavourMap w) (ws_pages w) v (ws_name w) (ws_avatar w) (ws_prevPages w) (ws_spaces w) (ws_doc w) (ws_timers w) (ws_signals w) (ws_console w) (ws_indexed w) (ws_now w) (ws_readonly w) (ws_idGenerator w) (ws_idCalls w) (ws_ignoredKeys w) (ws_txCount w).
Definition ws_with_name (v : string) (w : Workspace) : Workspace :=
  mkWorkspace (ws_flavourMap w) (ws_pages w) (ws_versions w) v (ws_avatar w) (ws_prevPages w) (ws_spaces w) (ws_doc w) (ws_timers w) (ws_signals w) (ws_console w) (ws_indexed w) (ws_now w) (ws_readonly w) (ws_idGenerator w) (ws_idCalls w) (ws_ignoredKeys w) (ws_txCount w).
Definition ws_with_avatar (v : string) (w : Workspace) : Workspace :=
  mkWorkspace (ws_flavourMap w) (ws_pages w) (ws_versions w) (ws_name w) v (ws_prevPages w) (ws_spaces w) (ws_doc w) (ws_timers w) (ws_signals w) (ws_console w) (ws_indexed w) (ws_now w) (ws_readonly w) (ws_idGenerator w) (ws_idCalls w) (ws_ignoredKeys w) (ws_txCount w).
Definition ws_with_prevPages (v : list string) (w : Workspace) : Workspace :=
  mkWorkspace (ws_flavourMap w) (ws_pages w) (ws_versions w) (ws_name w) (ws_avatar w) v (ws_spaces w) (ws_doc w) (ws_timers w) (ws_signals w) (ws_console w) (ws_indexed w) (ws_now w) (ws_readonly w) (ws_idGenerator w) (ws_idCalls w) (ws_ignoredKeys w) (ws_txCount w).
Definition ws_with_spaces (v : OMap.t Page) (w : Workspace) : Workspace :=
  mkWorkspace (ws_flavourMap w) (ws_pages w) (ws_versions w) (ws_name w) (ws_avatar w) (ws_prevPages w) v (ws_doc w) (ws_timers w) (ws_signals w) (ws_console w) (ws_indexed w) (ws_now w) (ws_readonly w) (ws_idGenerator w) (ws_idCalls w) (ws_ignoredKeys w) (ws_txCount w).
Definition ws_with_doc (v : OMap.t YBlocks) (w : Workspace) : Workspace :=
  mkWorkspace (ws_flavourMap w) (ws_pages w) (ws_versions w) (ws_name w) (ws_avatar w) (ws_prevPages w) (ws_spaces w) v (ws_timers w) (ws_signals w) (ws_console w) (ws_indexed w) (ws_now w) (ws_readonly w) (ws_idGenerator w) (ws_idCalls w) (ws_ignoredKeys w) (ws_txCount w).
Definition ws_with_timers (v : list Task) (w : Workspace) : Workspace :=
  mkWorkspace (ws_flavourMap w) (ws_pages w) (ws_versions w) (ws_name w) (ws_avatar w) (ws_prevPages w) (ws_spaces w) (ws_doc w) v (ws_signals w) (ws_console w) (ws_indexed w) (ws_now w) (ws_readonly w) (ws_idGenerator w) (ws_idCalls w) (ws_ignoredKeys w) (ws_txCount w).
Definition ws_with_signals (v : list WsSignal) (w : Workspace) : Workspace :=
  mkWorkspace (ws_flavourMap w) (ws_pages w) (ws_versions w) (ws_name w) (ws_avatar w) (ws_prevPages w) (ws_spaces w) (ws_doc w) (ws_timers w) v (ws_console w) (ws_indexed w) (ws_now w) (ws_readonly w) (ws_idGenerator w) (ws_idCalls w) (ws_ignoredKeys w) (ws_txCount w).
Definition ws_with_console (v : list Error) (w : Workspace) : Workspace :=
  mkWorkspace (ws_flavourMap w) (ws_pages w) (ws_versions w) (ws_name w) (ws_avatar w) (ws_prevPages w) (ws_spaces w) (ws_doc w) (ws_timers w) (ws_signals w) v (ws_indexed w) (ws_now w) (ws_readonly w) (ws_idGenerator w) (ws_idCalls w) (ws_ignoredKeys w) (ws_txCount w).
Definition ws_with_indexed (v : list string) (w : Workspace) : Workspace :=
  mkWorkspace (ws_flavourMap w) (ws_pages w) (ws_versions w) (ws_name w) (ws_avatar w) (ws_prevPages w) (ws_spaces w) (ws_doc w) (ws_timers w) (ws_signals w) (ws_console w) v (ws_now w) (ws_readonly w) (ws_idGenerator w) (ws_idCalls w) (ws_ignoredKeys w) (ws_txCount w).
Definition ws_with_now (v : Z) (w : Workspace) : Workspace :=
  mkWorkspace (ws_flavourMap w) (ws_pages w) (ws_versions w) (ws_name w) (ws_avatar w) (ws_prevPages w) (ws_spaces w) (ws_doc w) (ws_timers w) (ws_signals w) (ws_console w) (ws_indexed w) v (ws_readonly w) (ws_idGenerator w) (ws_idCalls w) (ws_ignoredKeys w) (ws_txCount w).
Definition ws_with_readonly (v : bool) (w : Workspace) : Workspace :=
  mkWorkspace (ws_flavourMap w) (ws_pages w) (ws_versions w) (ws_name w) (ws_avatar w) (ws_prevPages w) (ws_spaces w) (ws_doc w) (ws_timers w) (ws_signals w) (ws_console w) (ws_indexed w) (ws_now w) v (ws_idGenerator w) (ws_idCalls w) (ws_ignoredKeys w) (ws_txCount w).
Definition ws_with_idGenerator (v : nat -> string) (w : Workspace) : Workspace :=
  mkWorkspace (ws_flavourMap w) (ws_pages w) (ws_versions w) (ws_name w) (ws_avatar w) (ws_prevPages w) (ws_spaces w) (ws_doc w) (ws_timers w) (ws_signals w) (ws_console w) (ws_indexed w) (ws_now w) (ws_readonly w) v (ws_idCalls w) (ws_ignoredKeys w) (ws_txCount w).
Definition ws_with_idCalls (v : nat) (w : Workspace) : Workspace :=
  mkWorkspace (ws_flavourMap w) (ws_pages w) (ws_versions w) (ws_name w) (ws_avatar w) (ws_prevPages w) (ws_spaces w) (ws_doc w) (ws_timers w) (ws_signals w) (ws_console w) (ws_indexed w) (ws_now w) (ws_readonly w) (ws_idGenerator w) v (ws_ignoredKeys w) (ws_txCount w).
Definition ws_with_ignoredKeys (v : list string) (w : Workspace) : Workspace :=
  mkWorkspace (ws_flavourMap w) (ws_pages w) (ws_versions w) (ws_name w) (ws_avatar w) (ws_prevPages w) (ws_spaces w) (ws_doc w) (ws_timers w) (ws_signals w) (ws_console w) (ws_indexed w) (ws_now w) (ws_readonly w) (ws_idGenerator w) (ws_idCalls w) v (ws_txCount w).
Definition ws_with_txCount (v : nat) (w : Workspace) : Workspace :=
  mkWorkspace (ws_flavourMap w) (ws_pages w) (ws_versions w) (ws_name w) (ws_avatar w) (ws_prevPages w) (ws_spaces w) (ws_doc w) (ws_timers w) (ws_signals w) (ws_console w) (ws_indexed w) (ws_now w) (ws_readonly w) (ws_idGenerator w) (ws_idCalls w) (ws_ignoredKeys w) v.

(** [Workspace.register], on the workspace state. *)
Definition ws_register (blockSchema : OMap.t BlockModelCtor) (w : Workspace) : Workspace :=
  ws_with_flavourMap (register blockSchema (ws_flavourMap w)) w.

Definition prefixed (pageId : string) : string := ("space:" ++ pageId)%string.

(** [Workspace._hasPage] *)
Definition _hasPage (pageId : string) (w : Workspace) : bool :=
  OMap.has (prefixed pageId) (ws_spaces w).

(** [Workspace.getPage] *)
Definition getPage (pageId : string) (w : Workspace) : option Page :=
  OMap.get (if String.prefix "space:" pageId then pageId else prefixed pageId)
           (ws_spaces w).

(** [this.doc.getMap(name)]: the map is created when it does not exist. *)
Definition docGetMap (name : string) : WsM unit :=
  modify (fun w =>
    if OMap.has name (ws_doc w) then w
    else ws_with_doc (OMap.set name [] (ws_doc w)) w).

Definition wsEmitLog (sg : WsSignal) : WsM unit :=
  modify (fun w => ws_with_signals (ws_signals w ++ [sg]) w).

Section WorkspaceOps.

(** The migration scripts of [workspace/migrations.ts], which every page
    runs first when it synchronizes. *)
Variable tryMigrate : PageM unit.

(** [Space]'s constructor: the name of the document map behind a space. *)
Definition targetIdOf (id : string) : string :=
  if String.prefix "space:" id then id else prefixed id.

(** Runs a method of the page registered under [key], which reads and
    writes the registry, the ledger and the id generator of the workspace
    through its reference to it. *)
Definition runPage {A} (key : string) (page : Page) (op : PageM A) : WsM A :=
  fun w =>
    let view := set_idCalls (ws_idCalls w)
                  (set_versions (ws_versions w) (set_flavourMap (ws_flavourMap w) page)) in
    let '(r, page') := op view in
    (r, ws_with_idCalls (idCalls page')
          (ws_with_versions (versions page')
             (ws_with_spaces (OMap.set key page' (ws_spaces w)) w))).

(** The subscriber [Workspace._handlePageEvent] attaches to [pageAdded]. *)
Definition onPageAdded (pageId : string) : WsM unit :=
  docGetMap (targetIdOf pageId) ;;;
  content <- gets (fun w => match OMap.get (targetIdOf pageId) (ws_doc w) with
                            | Some yb => yb
                            | None => []
                            end) ;;
  page <- gets (fun w => newPage (ws_flavourMap w) (ws_versions w) (ws_readonly w)
                           (ws_idGenerator w) (ws_idCalls w) (ws_ignoredKeys w) content) ;;
  modify (fun w => ws_with_spaces (OMap.set (prefixed pageId) page (ws_spaces w)) w) ;;;
  runPage (prefixed pageId) page (syncFromExistingDoc tryMigrate) ;;;
  modify (fun w => ws_with_indexed (ws_indexed w ++ [pageId]) w).

(** The subscriber attached to [pageRemoved]. *)
Definition onPageRemoved (id : string) : WsM unit :=
  page <- gets (getPage id) ;;
  match page with
  | None => throw (TypeError "page is null")
  | Some pg =>
      let key := if String.prefix "space:" id then id else prefixed id in
      let pageOwnId := substring 6 (String.length key) key in
      runPage key pg dispose ;;;
      modify (fun w =>
        ws_with_doc (OMap.set (targetIdOf pageOwnId) [] (ws_doc w))
          (ws_with_spaces (OMap.delete key (ws_spaces w)) w))
  end.

(** Modelled from the spec: [Signal.emit] of [@blocksuite/global], which is
    not part of the sources at hand.  Signals are fire-and-forget: the
    emission is recorded, the workspace's own subscriber runs, and an
    exception of the subscriber is reported on the console instead of
    reaching the emitter. *)
Definition wsEmit (sg : WsSignal) : WsM unit :=
  fun w =>
    let '(r, w') :=
      (wsEmitLog sg ;;;
       match sg with
       | PageAdded id => onPageAdded id
       | PageRemoved id => onPageRemoved id
       | _ => ret tt
       end) w in
    match r with
    | Ok _ => (Ok tt, w')
    | Throw e => (Ok tt, ws_with_console (ws_console w' ++ [e]) w')
    end.

Definition setTimeout (t : Task) : WsM unit :=
  modify (fun w => ws_with_timers (ws_timers w ++ [t]) w).

Definition runTask (t : Task) : WsM unit :=
  match t with
  | TaskEmitPageAdded id => wsEmit (PageAdded id)
  end.

(** The next scheduling tick: the callbacks pending at its start run in
    order. *)
Definition runTimers : WsM unit :=
  tasks <- gets ws_timers ;;
  modify (ws_with_timers []) ;;;
  forEachM runTask tasks.

Definition addToSet (x : string) (xs : list string) : list string :=
  if inb x xs then xs else xs ++ [x].

(** [WorkspaceMeta._handlePageEvent] *)
Definition metaHandlePageEvent : WsM unit :=
  pageMetas <- gets ws_pages ;;
  _prevPages <- gets ws_prevPages ;;
  forEachM (fun pageMeta =>
              docGetMap (prefixed (pm_id pageMeta)) ;;;
              if negb (inb (pm_id pageMeta) _prevPages)
              then setTimeout (TaskEmitPageAdded (pm_id pageMeta))
              else ret tt)
           pageMetas ;;;
  forEachM (fun prevPageId =>
              let isRemoved :=
                negb (existsb (fun pm => String.eqb (pm_id pm) prevPageId) pageMetas) in
              if isRemoved then wsEmit (PageRemoved prevPageId) else ret tt)
           _prevPages ;;;
  modify (fun w => ws_with_prevPages
                     (fold_left (fun acc pm => addToSet (pm_id pm) acc) pageMetas []) w) ;;;
  wsEmit PagesUpdated.

(** [WorkspaceMeta._handleEvents] *)
Definition metaHandleEvents (events : list MetaEvent) : WsM unit :=
  forEachM (fun e =>
              let hasKey k := match e with
                              | MEvOrigin keys => inb k keys
                              | _ => false
                              end in
              let onPages := match e with
                             | MEvPages | MEvPageEntry => true
                             | _ => hasKey "pages"
                             end in
              if onPages then metaHandlePageEvent
              else if hasKey "name" || hasKey "avatar" then wsEmit CommonFieldsUpdated
              else ret tt)
           events.

(** [this.doc.transact(fn)] on the metadata: [fn] runs, the transaction
    commits and the deep observer receives its events. *)
Definition metaTransact (fn : WsM (list MetaEvent)) : WsM unit :=
  fun w =>
    match fn (ws_with_txCount (S (ws_txCount w)) w) with
    | (Ok events, w') =>
        if isNil events then (Ok tt, w') else metaHandleEvents events w'
    | (Throw e, w') => (Throw e, w')
    end.

(** [WorkspaceMeta.addPageMeta] *)
Definition addPageMeta (page : PageMeta) (index : option Z) : WsM unit :=
  metaTransact
    (pages <- gets ws_pages ;;
     match index with
     | None => modify (ws_with_pages (pages ++ [page])) ;;; ret [MEvPages]
     | Some i =>
         if ((i <? 0) || (Z.of_nat (length pages) <? i))%Z then throw LengthExceeded
         else modify (ws_with_pages (insertAt (Z.to_nat i) [page] pages)) ;;;
              ret [MEvPages]
     end).

Fixpoint findPageIndex (i : nat) (id : string) (pages : list PageMeta) : option nat :=
  match pages with
  | [] => None
  | pm :: rest => if String.eqb id (pm_id pm) then Some i
                  else findPageIndex (S i) id rest
  end.

(** [WorkspaceMeta.removePage] *)
Definition metaRemovePage (id : string) : WsM unit :=
  index <- gets (fun w => findPageIndex 0 id (ws_pages w)) ;;
  metaTransact
    (match index with
     | Some i => modify (fun w => ws_with_pages (removeAt i (ws_pages w)) w) ;;;
                 ret [MEvPages]
     | None => ret []
     end).

(** [Workspace.createPage] *)
Definition createPage (pageId : string) : WsM unit :=
  has <- gets (_hasPage pageId) ;;
  if has : bool then throw PageAlreadyExists
  else
    now <- gets ws_now ;;
    addPageMeta (mkPageMeta pageId "" now []) None.

(** [Workspace.removePage] *)
Definition removePage (pageId : string) : WsM unit := metaRemovePage pageId.

End WorkspaceOps.

(** ** Sibling lookups of [Page] *)

(** The four sibling getters fail either with their own message,
    "Failed to <method>! Block not found in parent's children", or with
    whatever the walk of [getParent] raised. *)
Inductive SiblingFailure : Type :=
| NotInParentChildren (method : string)
| WalkFailed (e : Error).

(** The common first half of [getPreviousSibling], [getPreviousSiblings],
    [getNextSibling] and [getNextSiblings]: the parent's [children] and
    [parent.children.indexOf(block)], or [None] when [getParent] returns
    [null].  [method] is the name the error message of the getter carries. *)
Definition siblingIndex (method : string) (block : addr) (p : Page)
  : SiblingFailure + option (list (option addr) * nat) :=
  match getModel block p with
  | None => inl (WalkFailed (TypeError "block is undefined"))
  | Some m =>
      match getParent p (m_id m) with
      | Throw e => inl (WalkFailed e)
      | Ok None => inr None
      | Ok (Some pa) =>
          match getModel pa p with
          | None => inl (WalkFailed (TypeError "parent is undefined"))
          | Some pm =>
              let index := indexOf block (m_children pm) in
              if (index =? -1)%Z then inl (NotInParentChildren method)
              else inr (Some (m_children pm, Z.to_nat index))
          end
      end
  end.

(** [children[i] ?? null]: an index outside the array and an empty slot both
    give [null]. *)
Definition childAt (cs : list (option addr)) (i : nat) : option addr :=
  match nth_error cs i with
  | Some (Some a) => Some a
  | _ => None
  end.

(** [Page.getPreviousSibling]: [parent.children[index - 1] ?? null]. *)
Definition getPreviousSibling (block : addr) (p : Page) : SiblingFailure + option addr :=
  match siblingIndex "getPreviousSiblings" block p with
  | inl e => inl e
  | inr None => inr None
  | inr (Some (cs, index)) =>
      inr (match index with
           | O => None
           | S i => childAt cs i
           end)
  end.

(** [Page.getPreviousSiblings]: [parent.children.slice(0, index)]. *)
Definition getPreviousSiblings (block : addr) (p : Page)
  : SiblingFailure + list (option addr) :=
  match siblingIndex "getPreviousSiblings" block p with
  | inl e => inl e
  | inr None => inr []
  | inr (Some (cs, index)) => inr (firstn index cs)
  end.

(** [Page.getNextSibling]: [parent.children[index + 1] ?? null].  Its error
    message names [getPreviousSiblings], as in the source. *)
Definition getNextSibling (block : addr) (p : Page) : SiblingFailure + option addr :=
  match siblingIndex "getPreviousSiblings" block p with
  | inl e => inl e
  | inr None => inr None
  | inr (Some (cs, index)) => inr (childAt cs (S index))
  end.

(** [Page.getNextSiblings]: [parent.children.slice(index + 1)]. *)
Definition getNextSiblings (block : addr) (p : Page)
  : SiblingFailure + list (option addr) :=
  match siblingIndex "getNextSiblings" block p with
  | inl e => inl e
  | inr None => inr []
  | inr (Some (cs, index)) => inr (skipn (S index) cs)
  end.

(** [Page.isEmpty] *)
Definition isEmpty (p : Page) : bool := Nat.eqb (OMap.size (yBlocks p)) 0.

(** ** Page descriptors of [WorkspaceMeta] *)

(** [WorkspaceMeta.getPageMeta]: [pageMetas.find(page => page.id === id)]. *)
Definition getPageMeta (id : string) (w : Workspace) : option PageMeta :=
  find (fun page => String.eqb (pm_id page) id) (ws_pages w).

(** [Partial<PageMeta>]: the entries a caller of [setPageMeta] passes. *)
Record PageMetaProps : Type := mkPageMetaProps {
  pp_id : option string;
  pp_title : option string;
  pp_createDate : option Z;
  pp_ext : OMap.t JsVal
}.

(** [Object.entries(props).forEach(([key, value]) => yPage.set(key, value))]
    on the descriptor [page]. *)
Definition assignPageMeta (props : PageMetaProps) (page : PageMeta) : PageMeta :=
  mkPageMeta
    (match pp_id props with Some v => v | None => pm_id page end)
    (match pp_title props with Some v => v | None => pm_title page end)
    (match pp_createDate props with Some v => v | None => pm_createDate page end)
    (fold_left (fun ext '(key, value) => OMap.set key value ext)
               (pp_ext props) (pm_ext page)).

(** Whether [Object.entries(props)] is empty. *)
Definition noEntries (props : PageMetaProps) : bool :=
  match pp_id props, pp_title props, pp_createDate props, pp_ext props with
  | None, None, None, [] => true
  | _, _, _, _ => false
  end.

Section WorkspaceMetaOps.

Variable tryMigrate : PageM unit.

(** [WorkspaceMeta.setPageMeta].  The index is looked up before the
    transaction; every [yPage.set] raises an event on the descriptor, whose
    parent is the page index. *)
Definition metaSetPageMeta (id : string) (props : PageMetaProps) : WsM unit :=
  index <- gets (fun w => findPageIndex 0 id (ws_pages w)) ;;
  metaTransact tryMigrate
    (match index with
     | None => ret []
     | Some i =>
         modify (fun w =>
           ws_with_pages
             (match nth_error (ws_pages w) i with
              | Some page => replaceNth i (assignPageMeta props page) (ws_pages w)
              | None => ws_pages w
              end) w) ;;;
         ret (if noEntries props then [] else [MEvPageEntry])
     end).

(** [Workspace.setPageMeta] *)
Definition setPageMeta (pageId : string) (props : PageMetaProps) : WsM unit :=
  metaSetPageMeta pageId props.

(** [WorkspaceMeta.setName] and [setAvatar]: the assignment through the
    proxy sets the key of the metadata map inside the transaction. *)
Definition setName (name : string) : WsM unit :=
  metaTransact tryMigrate (modify (ws_with_name name) ;;; ret [MEvOrigin ["name"]]).

Definition setAvatar (avatar : string) : WsM unit :=
  metaTransact tryMigrate (modify (ws_with_avatar avatar) ;;; ret [MEvOrigin ["avatar"]]).

End WorkspaceMetaOps.

(** ** Vocabulary of the properties *)

(** A ledger entry the registry accepts: the flavour is registered with a
    non-zero version equal to the one the document was written with. *)
Definition entryCompatible (flavourMap : FlavourMap) (entry : string * Z) : Prop :=
  exists ctor, OMap.get (fst entry) flavourMap = Some ctor
               /\ ctor_version ctor <> 0%Z
               /\ ctor_version ctor = snd entry.

(** The version gate read as four independent triggers, each of which
    decides the outcome on its own. *)
Definition versionGateByTrigger : Prop :=
  forall (flavourMap : FlavourMap) (ledger : VersionLedger),
    (ledger = [] -> validateVersion flavourMap ledger = Throw InvalidWorkspaceData)
    /\ ((exists f v, In (f, v) ledger /\ OMap.get f flavourMap = None) ->
        exists f, validateVersion flavourMap ledger = Throw (EditorMissingFlavour f))
    /\ ((exists f v c, In (f, v) ledger /\ OMap.get f flavourMap = Some c
                       /\ (ctor_version c < v)%Z) ->
        exists f v, validateVersion flavourMap ledger = Throw (EditorTooOld f v))
    /\ ((exists f v c, In (f, v) ledger /\ OMap.get f flavourMap = Some c
                       /\ (v < ctor_version c)%Z) ->
        exists f v, validateVersion flavourMap ledger = Throw (DataOutdated f v)).

Definition Task_eq_dec (x y : Task) : {x = y} + {x <> y}.
Proof. decide equality. apply string_dec. Defined.

(** The page-added rule read per id: one deferred emission for every id that
    is in the current index and was not in the previous set. *)
Definition pageAddedOncePerId : Prop :=
  forall (tryMigrate : PageM unit) (w : Workspace) (id : string),
    ws_timers w = [] ->
    In id (map pm_id (ws_pages w)) ->
    ~ In id (ws_prevPages w) ->
    count_occ Task_eq_dec (ws_timers (snd (metaHandlePageEvent tryMigrate w)))
              (TaskEmitPageAdded id) = 1.

(** What a step of the metadata observer may do to the page index and to the
    registered page stores: the index is untouched and no store appears. *)
Definition noStoreCreated (w w' : Workspace) : Prop :=
  ws_pages w' = ws_pages w
  /\ (forall key, OMap.has key (ws_spaces w') = true -> OMap.has key (ws_spaces w) = true).

Definition keepsStores {A} (m : WsM A) : Prop :=
  forall w, noStoreCreated w (snd (m w)).

(** What the observer adds to the pending timers and to the emitted signals
    while the page index and the previous set stay as they are. *)
Definition eventStep (w w' : Workspace) (tasks : list Task) (sigs : list WsSignal) : Prop :=
  ws_timers w' = ws_timers w ++ tasks
  /\ ws_signals w' = ws_signals w ++ sigs
  /\ ws_pages w' = ws_pages w
  /\ ws_prevPages w' = ws_prevPages w.

(** The at-most-once rule read per call: whatever the first call did, a
    second call fails with the sync-more-than-once error. *)
Definition secondSyncAlwaysRejected : Prop :=
  forall (tryMigrate : PageM unit) (p : Page),
    synced p = false ->
    let p1 := snd (syncFromExistingDoc tryMigrate p) in
    fst (syncFromExistingDoc tryMigrate p1) = Throw SyncMoreThanOnce.

(** The read-only rule read for [insertBlock]: no transaction is entered. *)
Definition readonlyInsertNeverTransacts : Prop :=
  forall (flavour : option string) (type : option JsVal) (target : addr)
         (top : bool) (p : Page),
    readonly p = true ->
    txCount (snd (insertBlock flavour type target top p)) = txCount p.

(** [console.error('cannot modify data in readonly mode')] and nothing else. *)
Definition loggedReadonly (p : Page) : Page :=
  set_console (console p ++ [readonlyError]) p.

(** The children list the replicated map holds for a block. *)
Definition yChildrenOf (p : Page) (blockId : string) : option (list string) :=
  match OMap.get blockId (yBlocks p) with
  | Some yb => match OMap.get "sys:children" yb with
               | Some (YArray ids) => Some ids
               | _ => None
               end
  | None => None
  end.

(** Everything of a page but its typed projection and its logs. *)
Definition docPart (p : Page) :=
  (flavourMap p, versions p, readonly p, idCalls p, ignoredKeys p, yBlocks p,
   (synced p, observing p, hasHistory p, inTxn p, inCleanup p),
   txnBefore p, changed p, queued p, txCount p).

(** A step that touches the projection only, and registers no new model. *)
Definition projOnly (p p' : Page) : Prop :=
  docPart p' = docPart p
  /\ (forall k, OMap.get k (blockMap p) = None -> OMap.get k (blockMap p') = None).

Definition pres (R : Page -> Page -> Prop) {A} (m : PageM A) : Prop :=
  forall p, R p (snd (m p)).

(** An event that reports no block added to the flat map. *)
Definition noAdds (e : YEvent) : Prop :=
  match e with
  | EvBlocks keys => forall id, ~ In (id, KAdd) keys
  | _ => True
  end.

(** The state in which the callback of a fresh transaction starts. *)
Definition beginTxn (p : Page) : Page :=
  set_txCount (S (txCount p))
    (set_changed [] (set_txnBefore (yBlocks p) (set_inTxn true p))).

(** The state [yChildren_put] reaches when the block exists. *)
Definition putChildren (blockId : string) (ids : list string) (p : Page) : Page :=
  match OMap.get blockId (yBlocks p) with
  | Some yb =>
      set_changed (changed p ++ [ChArray blockId "sys:children"])
        (set_yBlocks (OMap.set blockId (OMap.set "sys:children" (YArray ids) yb)
                                (yBlocks p)) p)
  | None => p
  end.

(** The block [addBlockByFlavour] builds before it stores it in the flat
    map, for a call without [children]. *)
Definition newYBlock (flavour id : string) (props : BlockProps) (ignored : list string)
  : YBlock :=
  let clonedProps := mkProps (Some flavour) (Some id) (bp_text props) None
                             (bp_fields props) in
  trySyncTextProp
    (syncBlockProps (initInternalProps OMap.empty clonedProps []) clonedProps ignored)
    (bp_text props).

(** Success triples: from a state satisfying [P] the action returns normally
    in a state satisfying [Q]. *)
Definition hoareOk {A} (P : Page -> Prop) (m : PageM A) (Q : A -> Page -> Prop) : Prop :=
  forall s, P s -> exists a s', m s = (Ok a, s') /\ Q a s'.

(** While the block [id] of the page [q] is being materialized at the fresh
    address [a]: its model is a leaf carrying that id, the other models and
    the root are those of [q], and it is the only model registered since. *)
Definition leafInv (q : Page) (id : string) (a : addr) (s : Page) : Prop :=
  (exists m, getModel a s = Some m /\ m_id m = id /\ m_childMap m = [])
  /\ (forall a0, a0 <> a -> getModel a0 s = getModel a0 q)
  /\ blockMap s = OMap.set id a (blockMap q)
  /\ root s = root q.

(** An event on the field map of one block. *)
Definition isMapEvent (e : YEvent) : Prop :=
  match e with
  | EvBlockMap _ _ => True
  | _ => False
  end.

(** An action that always returns normally. *)
Definition noThrow {A} (m : PageM A) : Prop :=
  forall s, exists a s', m s = (Ok a, s').

(** Whether [_handleYBlockAdd] gives the block an empty [prop:text]: the
    model is a paragraph, a list or a code block and the stored block has no
    truthy [prop:text]. *)
Definition textDefaultDue (flavour : string) (yb : YBlock) : bool :=
  inb flavour ["affine:paragraph"; "affine:list"; "affine:code"]
  && negb (truthy (OMap.get "prop:text" yb)).

(** What materializing the block [id], stored as [yb], has done to the
    document of [q]: nothing, or, when the text default is due ([td]), one
    more transaction that gave the block an empty [prop:text] and whose batch
    is queued. *)
Definition docAfterAdd (q : Page) (id : string) (yb : YBlock) (td : bool) (s : Page)
  : Prop :=
  (forall k, k <> id -> OMap.get k (yBlocks s) = OMap.get k (yBlocks q))
  /\ inTxn s = false /\ inCleanup s = true /\ observing s = observing q
  /\ idCalls s = idCalls q
  /\ (if td
      then OMap.get id (yBlocks s) = Some (OMap.set "prop:text" (YText "") yb)
           /\ (exists events, queued s = queued q ++ [(true, events)]
                               /\ Forall isMapEvent events)
           /\ txCount s = S (txCount q)
      else OMap.get id (yBlocks s) = Some yb
           /\ queued s = queued q /\ txCount s = txCount q).











(** C9 read for every block and every target that have parents, the target
    being possibly the block itself. *)
Definition moveBlockAsStated : Prop :=
  forall (p : Page) (b t pa pb : addr) (mb mt mpa mpb : BaseBlockModel)
         (la lb : list string) (top : bool),
    readonly p = false -> inTxn p = false -> inCleanup p = false ->
    getModel b p = Some mb -> getModel t p = Some mt ->
    getParent p (m_id mb) = Ok (Some pa) ->
    getParent p (m_id mt) = Ok (Some pb) ->
    getModel pa p = Some mpa -> getModel pb p = Some mpb ->
    yChildrenOf p (m_id mpa) = Some la -> yChildrenOf p (m_id mpb) = Some lb ->
    In (m_id mb) la -> In (m_id mt) lb ->
    exists m1 m2,
      yChildrenOf (snd (moveBlock b t top p)) (m_id mpb)
      = Some (if top then m1 ++ m_id mb :: m_id mt :: m2
              else m1 ++ m_id mt :: m_id mb :: m2).

(** Sample states used to exercise the statements below. *)
Definition sampleSchema : OMap.t BlockModelCtor :=
  [("affine:paragraph", mkCtor "affine:paragraph" 1);
   ("affine:page", mkCtor "affine:page" 1)].

(** [Generator.AutoIncrement] of the unit tests, for the first few ids. *)
Definition autoIncrement (n : nat) : string :=
  match n with
  | 0 => "0" | 1 => "1" | 2 => "2" | 3 => "3" | 4 => "4"
  | 5 => "5" | 6 => "6" | 7 => "7" | 8 => "8" | _ => "9"
  end.

Definition noMigration : PageM unit := ret tt.

Definition emptyWorkspace : Workspace :=
  mkWorkspace [] [] [] "" "" [] [] [] [] [] [] [] 1000 false autoIncrement 0
              ["id"; "children"; "childMap"; "page"] 0.

(** The workspace of [createTestPage]: schema registered, [page0] declared
    and materialized on the next tick. *)
Definition testWorkspace : Workspace :=
  snd (runTimers noMigration
         (snd (createPage noMigration "page0" (ws_register sampleSchema emptyWorkspace)))).

Definition testPage : Page :=
  match getPage "page0" testWorkspace with
  | Some p => p
  | None => newPage [] [] false autoIncrement 0 [] []
  end.

Definition noProps : BlockProps := mkProps None None None None [].


(** A document holding one page block, loaded into a workspace whose ledger
    is empty (a foreign document). *)
Definition foreignPage : Page :=
  newPage (register sampleSchema []) [] false autoIncrement 0 []
          [("0", [("sys:id", YPrim (JStr "0"));
                  ("sys:flavour", YPrim (JStr "affine:page"));
                  ("sys:children", YArray [])])].

(** The page of the unit tests after [addBlockByFlavour('affine:page')] and
    two [addBlockByFlavour('affine:paragraph')]. *)
Definition pageWithRoot : Page :=
  snd (addBlockByFlavour "affine:page" noProps ParentUndefined None testPage).

Definition pageWithParagraphs : Page :=
  snd (addBlockByFlavour "affine:paragraph" noProps ParentUndefined None
         (snd (addBlockByFlavour "affine:paragraph" noProps ParentUndefined None
                 pageWithRoot))).


(** The model object at an address of a sample page. *)
Definition modelAt (a : addr) (p : Page) : BaseBlockModel :=
  nth a (heap p) (mkModel "" "" [] [] [] false false).


(** A page whose root holds the paragraphs [1] and [4], the first of which
    holds the paragraphs [2] and [3]. *)
Definition pageWithNesting : Page :=
  snd (addBlockByFlavour "affine:paragraph" noProps ParentUndefined None
    (snd (addBlockByFlavour "affine:paragraph" noProps (ParentId "1") None
      (snd (addBlockByFlavour "affine:paragraph" noProps (ParentId "1") None
        (snd (addBlockByFlavour "affine:paragraph" noProps ParentUndefined None
           pageWithRoot))))))).


(** * Properties *)

(** ** Insertion-ordered maps *)

Lemma omap_get_set_eq {V} (k : string) (v : V) (m : OMap.t V) :
  OMap.get k (OMap.set k v m) = Some v.
Proof.
  induction m as [|[k' v'] m IH]; simpl.
  - now rewrite String.eqb_refl.
  - destruct (String.eqb k k') eqn:E; simpl; rewrite E; auto.
Qed.

Lemma omap_get_set_ne {V} (k k0 : string) (v : V) (m : OMap.t V) :
  k0 <> k -> OMap.get k0 (OMap.set k v m) = OMap.get k0 m.
Proof.
  intros Hne. induction m as [|[k' v'] m IH]; simpl.
  - apply String.eqb_neq in Hne. now rewrite Hne.
  - destruct (String.eqb k k') eqn:E; simpl.
    + apply String.eqb_eq in E. subst k'.
      apply String.eqb_neq in Hne. now rewrite Hne.
    + now rewrite IH.
Qed.

Lemma omap_get_delete_eq {V} (k : string) (m : OMap.t V) : OMap.get k (OMap.delete k m) = None.
Proof.
  induction m as [|[k' v'] m IH]; simpl; auto.
  destruct (String.eqb k k') eqn:E; simpl; auto. now rewrite E.
Qed.

Lemma omap_get_delete_ne {V} (k k0 : string) (m : OMap.t V) :
  k0 <> k -> OMap.get k0 (OMap.delete k m) = OMap.get k0 m.
Proof.
  intros Hne. induction m as [|[k' v'] m IH]; simpl; auto.
  destruct (String.eqb k k') eqn:E; simpl.
  - apply String.eqb_eq in E. subst k'.
    apply String.eqb_neq in Hne. now rewrite Hne.
  - now rewrite IH.
Qed.

Lemma omap_get_In {V} (k : string) (v : V) (m : OMap.t V) :
  OMap.get k m = Some v -> In (k, v) m.
Proof.
  induction m as [|[k' v'] m IH]; simpl; [discriminate|].
  destruct (String.eqb k k') eqn:E.
  - apply String.eqb_eq in E. intros [= ->]. subst. now left.
  - intros H. right. auto.
Qed.

Lemma omap_get_None_keys {V} (k : string) (m : OMap.t V) :
  OMap.get k m = None <-> ~ In k (OMap.keys m).
Proof.
  induction m as [|[k' v'] m IH]; simpl.
  - tauto.
  - destruct (String.eqb k k') eqn:E.
    + apply String.eqb_eq in E. subst. split; [discriminate | tauto].
    + apply String.eqb_neq in E. rewrite IH. split.
      * intros H [H1 | H1]; [congruence | tauto].
      * tauto.
Qed.

(** ** Block flavour registration *)

Lemma inb_In (x : string) (xs : list string) : inb x xs = true <-> In x xs.
Proof.
  unfold inb. rewrite existsb_exists. split.
  - intros [y [Hy E]]. apply String.eqb_eq in E. now subst.
  - intros H. exists x. split; auto. apply String.eqb_refl.
Qed.

Lemma register_fold_get (schema : OMap.t BlockModelCtor) (f : string)
    (ks : list string) (fm : FlavourMap) :
  OMap.get f
    (fold_left (fun fm key => match OMap.get key schema with
                              | Some ctor => OMap.set key ctor fm
                              | None => fm
                              end) ks fm)
  = if inb f ks
    then match OMap.get f schema with
         | Some c => Some c
         | None => OMap.get f fm
         end
    else OMap.get f fm.
Proof.
  revert fm. induction ks as [|k ks IH]; intros fm; simpl; auto.
  rewrite IH. destruct (String.eqb f k) eqn:E.
  - apply String.eqb_eq in E. subst k. simpl.
    destruct (OMap.get f schema) as [c|] eqn:G.
    + rewrite omap_get_set_eq. now destruct (inb f ks).
    + now destruct (inb f ks).
  - simpl. apply String.eqb_neq in E.
    destruct (OMap.get k schema) as [c|]; auto.
    rewrite omap_get_set_ne by auto. reflexivity.
Qed.

Lemma register_get (schema : OMap.t BlockModelCtor) (fm : FlavourMap) (f : string) :
  OMap.get f (register schema fm)
  = match OMap.get f schema with
    | Some c => Some c
    | None => OMap.get f fm
    end.
Proof.
  unfold register. rewrite register_fold_get.
  destruct (inb f (OMap.keys schema)) eqn:E; auto.
  destruct (OMap.get f schema) eqn:G; auto.
  exfalso. apply omap_get_In in G.
  assert (In f (OMap.keys schema)) as Hin.
  { unfold OMap.keys. change f with (fst (f, b)). now apply in_map. }
  apply inb_In in Hin. congruence.
Qed.

(** C7.  When two successive registrations both bind a flavour name, the
    registry afterwards maps that name to the constructor of the later
    registration; registering never fails (it is a total function), and a
    name the later schema does not bind keeps the binding it had. *)
Theorem register_last_write_wins
    (fm : FlavourMap) (first later : OMap.t BlockModelCtor) (flavour : string)
    (c1 c2 : BlockModelCtor)
    (Hfirst : OMap.get flavour first = Some c1)
    (Hlater : OMap.get flavour later = Some c2) :
  OMap.get flavour (register later (register first fm)) = Some c2
  /\ (forall other, OMap.get other later = None ->
        OMap.get other (register later (register first fm))
        = OMap.get other (register first fm)).
Proof.
  split.
  - rewrite register_get, Hlater. reflexivity.
  - intros other Hnone. rewrite register_get, Hnone. reflexivity.
Qed.

Lemma register_last_write_wins_witness :
  let first := [("affine:page", mkCtor "affine:page" 1);
                ("affine:list", mkCtor "affine:list" 1)] in
  let later := [("affine:page", mkCtor "affine:page" 2)] in
  OMap.get "affine:page" (register later (register first []))
    = Some (mkCtor "affine:page" 2)
  /\ (forall other, OMap.get other later = None ->
        OMap.get other (register later (register first []))
        = OMap.get other (register first [])).
Proof.
  intros first later.
  apply (@register_last_write_wins [] first later "affine:page"
           (mkCtor "affine:page" 1) (mkCtor "affine:page" 2));
    reflexivity.
Defined.

(** ** The version gate *)

Lemma checkFlavour_cases (fm : FlavourMap) (f : string) (v : Z) :
  (entryCompatible fm (f, v) /\ checkFlavour fm (f, v) = Ok tt)
  \/ ((OMap.get f fm = None \/ exists c, OMap.get f fm = Some c /\ ctor_version c = 0%Z)
      /\ checkFlavour fm (f, v) = Throw (EditorMissingFlavour f))
  \/ (exists c, OMap.get f fm = Some c /\ ctor_version c <> 0%Z
                /\ (ctor_version c < v)%Z
                /\ checkFlavour fm (f, v) = Throw (EditorTooOld f v))
  \/ (exists c, OMap.get f fm = Some c /\ ctor_version c <> 0%Z
                /\ (v < ctor_version c)%Z
                /\ checkFlavour fm (f, v) = Throw (DataOutdated f v)).
Proof.
  unfold checkFlavour, editorVersionOf, entryCompatible.
  destruct (OMap.get f fm) as [c|] eqn:G; simpl.
  - destruct (Z.eqb_spec (ctor_version c) 0) as [E0|N0].
    + right. left. split; auto. right. eauto.
    + destruct (Z.ltb_spec (ctor_version c) v) as [L|L].
      * right. right. left. exists c. auto.
      * destruct (Z.ltb_spec v (ctor_version c)) as [L'|L'].
        -- right. right. right. exists c. auto.
        -- left. split; auto. exists c. repeat split; auto. lia.
  - right. left. split; auto.
Qed.

(** C1 (as the code has it).  [validateVersion] has exactly one outcome, and
    that outcome is decided by the first entry of the ledger, in ledger
    order, that the registry does not accept:
    - an empty ledger fails with the missing-versions error;
    - if every entry is registered with a non-zero version equal to the
      ledger's, the call succeeds silently;
    - otherwise the entries before the first offending one are all
      compatible, and that entry alone selects the error: missing flavour
      when it is unregistered (or registered with version 0), editor too old
      when its ledger version is greater, data outdated when it is less. *)
Theorem validateVersion_first_offender (fm : FlavourMap) (ledger : VersionLedger) :
  (ledger = [] /\ validateVersion fm ledger = Throw InvalidWorkspaceData)
  \/ (ledger <> [] /\ Forall (entryCompatible fm) ledger
      /\ validateVersion fm ledger = Ok tt)
  \/ (exists pre f v post,
        ledger = pre ++ (f, v) :: post
        /\ Forall (entryCompatible fm) pre
        /\ (((OMap.get f fm = None
              \/ exists c, OMap.get f fm = Some c /\ ctor_version c = 0%Z)
             /\ validateVersion fm ledger = Throw (EditorMissingFlavour f))
            \/ (exists c, OMap.get f fm = Some c /\ ctor_version c <> 0%Z
                          /\ (ctor_version c < v)%Z
                          /\ validateVersion fm ledger = Throw (EditorTooOld f v))
            \/ (exists c, OMap.get f fm = Some c /\ ctor_version c <> 0%Z
                          /\ (v < ctor_version c)%Z
                          /\ validateVersion fm ledger = Throw (DataOutdated f v)))).
Proof.
  destruct ledger as [|e0 rest0]; [left; split; reflexivity|].
  right.
  assert (validateVersion fm (e0 :: rest0) = checkFlavours fm (e0 :: rest0)) as ->
    by reflexivity.
  assert (e0 :: rest0 <> []) as Hne by discriminate.
  revert Hne. generalize (e0 :: rest0) as ledger. clear e0 rest0.
  intros ledger Hne.
  assert ((Forall (entryCompatible fm) ledger /\ checkFlavours fm ledger = Ok tt)
          \/ (exists pre f v post,
                ledger = pre ++ (f, v) :: post
                /\ Forall (entryCompatible fm) pre
                /\ (((OMap.get f fm = None
                      \/ exists c, OMap.get f fm = Some c /\ ctor_version c = 0%Z)
                     /\ checkFlavours fm ledger = Throw (EditorMissingFlavour f))
                    \/ (exists c, OMap.get f fm = Some c /\ ctor_version c <> 0%Z
                                  /\ (ctor_version c < v)%Z
                                  /\ checkFlavours fm ledger = Throw (EditorTooOld f v))
                    \/ (exists c, OMap.get f fm = Some c /\ ctor_version c <> 0%Z
                                  /\ (v < ctor_version c)%Z
                                  /\ checkFlavours fm ledger = Throw (DataOutdated f v)))))
    as H.
  { clear Hne. induction ledger as [|[f v] rest IH].
    - left. split; [constructor | reflexivity].
    - cbn [checkFlavours].
      destruct (checkFlavour_cases fm f v)
        as [[Hc E] | [[Hm E] | [[c (G & N & L & E)] | [c (G & N & L & E)]]]];
        rewrite E.
      + destruct IH as [[Hall Hok] | (pre & f' & v' & post & -> & Hpre & Hcase)].
        * left. split; [constructor; auto | exact Hok].
        * right. exists ((f, v) :: pre), f', v', post.
          split; [reflexivity|]. split; [constructor; auto|]. exact Hcase.
      + right. exists [], f, v, rest. split; [reflexivity|].
        split; [constructor|]. left. auto.
      + right. exists [], f, v, rest. split; [reflexivity|].
        split; [constructor|]. right. left. exists c. auto.
      + right. exists [], f, v, rest. split; [reflexivity|].
        split; [constructor|]. right. right. exists c. auto. }
  destruct H as [[Hall Hok] | H]; [left; auto | right; exact H].
Qed.

(** C1, counterexample to the reading by independent triggers: with the
    ledger [a -> 2, b -> 1] and a registry holding only [a] at version 1, a
    ledger flavour ([b]) has no registry entry, yet the call fails with the
    too-new error raised for [a], the first entry. *)
Lemma versionGateByTrigger_fails : ~ versionGateByTrigger.
Proof.
  intros H.
  destruct (H [("a", mkCtor "a" 1%Z)] [("a", 2%Z); ("b", 1%Z)]) as (_ & Hmiss & _).
  destruct Hmiss as [f Hf].
  - exists "b", 1%Z. split; [right; left; reflexivity | reflexivity].
  - vm_compute in Hf. discriminate.
Qed.

(** ** Lookup of a block model *)

(** C10.  [getBlockById] returns the model registered under the id when the
    model map has one and [null] otherwise; it is a total function and has no
    failing outcome. *)
Theorem getBlockById_total (p : Page) (id : string) :
  (In id (OMap.keys (blockMap p)) ->
     exists a, getBlockById id p = Some a /\ In (id, a) (blockMap p))
  /\ (~ In id (OMap.keys (blockMap p)) -> getBlockById id p = None).
Proof.
  unfold getBlockById. split.
  - intros Hin. destruct (OMap.get id (blockMap p)) as [a|] eqn:G.
    + exists a. split; auto. now apply omap_get_In.
    + apply omap_get_None_keys in G. contradiction.
  - intros Hnot. now apply omap_get_None_keys.
Qed.

Lemma getBlockById_total_witness :
  let p := set_blockMap [("0", 0)] (newPage [] [] false (fun _ => "0") 0 [] []) in
  (exists a, getBlockById "0" p = Some a /\ In ("0", a) (blockMap p))
  /\ getBlockById "1" p = None.
Proof.
  intros p.
  destruct (getBlockById_total p "0") as [Hfound _].
  destruct (getBlockById_total p "1") as [_ Hmissing].
  split.
  - apply Hfound. simpl. auto.
  - apply Hmissing. simpl. intros [H | []]. discriminate.
Defined.

(** ** Page creation in the workspace *)

Lemma omap_has_set_inv {V} (k k0 : string) (v : V) (m : OMap.t V) :
  OMap.has k0 (OMap.set k v m) = true -> k0 = k \/ OMap.has k0 m = true.
Proof.
  unfold OMap.has. destruct (String.eqb_spec k0 k) as [->|N]; auto.
  rewrite omap_get_set_ne by auto. auto.
Qed.

Lemma omap_has_delete_inv {V} (k k0 : string) (m : OMap.t V) :
  OMap.has k0 (OMap.delete k m) = true -> k0 <> k /\ OMap.has k0 m = true.
Proof.
  unfold OMap.has. destruct (String.eqb_spec k0 k) as [->|N].
  - rewrite omap_get_delete_eq. discriminate.
  - rewrite omap_get_delete_ne by auto. auto.
Qed.

Lemma noStoreCreated_refl (w : Workspace) : noStoreCreated w w.
Proof. split; auto. Qed.

Lemma noStoreCreated_trans (w1 w2 w3 : Workspace) :
  noStoreCreated w1 w2 -> noStoreCreated w2 w3 -> noStoreCreated w1 w3.
Proof.
  intros [P1 S1] [P2 S2]. split; [congruence | auto].
Qed.

Lemma keepsStores_bind {A B} (m : WsM A) (k : A -> WsM B) :
  keepsStores m -> (forall a, keepsStores (k a)) -> keepsStores (bind m k).
Proof.
  intros Hm Hk w. unfold bind. specialize (Hm w).
  destruct (m w) as [[a|e] w1]; simpl in *; auto.
  eapply noStoreCreated_trans; [exact Hm | apply Hk].
Qed.

Lemma keepsStores_ret {A} (a : A) : keepsStores (ret (S:=Workspace) a).
Proof. intros w. apply noStoreCreated_refl. Qed.

Lemma keepsStores_gets {A} (f : Workspace -> A) : keepsStores (gets f).
Proof. intros w. apply noStoreCreated_refl. Qed.

Lemma keepsStores_forEachM {A} (f : A -> WsM unit) (xs : list A) :
  (forall x, keepsStores (f x)) -> keepsStores (forEachM f xs).
Proof.
  intros Hf. induction xs as [|x xs IH]; simpl.
  - apply keepsStores_ret.
  - apply keepsStores_bind; auto.
Qed.

Lemma keepsStores_docGetMap (name : string) : keepsStores (docGetMap name).
Proof.
  intros w. unfold docGetMap, modify. simpl.
  destruct (OMap.has name (ws_doc w)); split; auto.
Qed.

Lemma keepsStores_setTimeout (t : Task) : keepsStores (setTimeout t).
Proof. intros w. split; auto. Qed.

Lemma keepsStores_wsEmitLog (sg : WsSignal) : keepsStores (wsEmitLog sg).
Proof. intros w. split; auto. Qed.

Lemma keepsStores_onPageRemoved (tryMigrate : PageM unit) (id : string) :
  keepsStores (onPageRemoved id).
Proof.
  intros w. unfold onPageRemoved, bind, gets. simpl.
  destruct (getPage id w) as [pg|] eqn:G; [|apply noStoreCreated_refl].
  unfold runPage, modify.
  set (key := if String.prefix "space:" id then id else prefixed id) in *.
  destruct (dispose _) as [[u|e] pg']; simpl.
  - split; auto. intros k Hk.
    apply omap_has_delete_inv in Hk. destruct Hk as [Hne Hk].
    apply omap_has_set_inv in Hk. destruct Hk; [contradiction | auto].
  - split; auto. intros k Hk.
    apply omap_has_set_inv in Hk. destruct Hk as [-> | Hk]; auto.
    unfold getPage in G. fold key in G. unfold OMap.has. now rewrite G.
Qed.

(** Emitting anything but [PageAdded] creates no store. *)
Lemma keepsStores_wsEmit (tryMigrate : PageM unit) (sg : WsSignal) :
  (forall id, sg <> PageAdded id) ->
  keepsStores (wsEmit tryMigrate sg).
Proof.
  intros Hne w. unfold wsEmit.
  assert (noStoreCreated w
            (snd ((wsEmitLog sg ;;;
                   match sg with
                   | PageAdded id => onPageAdded tryMigrate id
                   | PageRemoved id => onPageRemoved id
                   | _ => ret tt
                   end) w))) as H.
  { apply (keepsStores_bind (m := wsEmitLog sg)); [apply keepsStores_wsEmitLog|].
    intros _. destruct sg; try apply keepsStores_ret.
    - exfalso. eapply Hne. reflexivity.
    - apply keepsStores_onPageRemoved. exact tryMigrate. }
  destruct ((wsEmitLog sg ;;; _) w) as [[u|e] w']; simpl in *; auto.
Qed.

Lemma keepsStores_metaHandlePageEvent (tryMigrate : PageM unit) :
  keepsStores (metaHandlePageEvent tryMigrate).
Proof.
  unfold metaHandlePageEvent.
  apply keepsStores_bind; [apply keepsStores_gets | intros pageMetas].
  apply keepsStores_bind; [apply keepsStores_gets | intros prev].
  apply keepsStores_bind.
  { apply keepsStores_forEachM. intros pm.
    apply keepsStores_bind; [apply keepsStores_docGetMap | intros _].
    destruct (negb _); [apply keepsStores_setTimeout | apply keepsStores_ret]. }
  intros _. apply keepsStores_bind.
  { apply keepsStores_forEachM. intros prevId.
    destruct (negb _); [|apply keepsStores_ret].
    apply keepsStores_wsEmit. discriminate. }
  intros _. apply keepsStores_bind.
  { intros w. split; auto. }
  intros _. apply keepsStores_wsEmit. discriminate.
Qed.

(** C6.  [createPage] on an id whose page store is registered fails with the
    already-exists error and changes nothing.  On an id that is not
    registered it appends the descriptor [{id, title: '', createDate}] at the
    end of the page index and constructs no page store: the id is still not
    registered when the call returns, and no store appears under any key (the
    store is made later, by the deferred page-added signal). *)
Theorem createPage_declares_only (tryMigrate : PageM unit) (w : Workspace)
    (pageId : string) :
  (_hasPage pageId w = true ->
     createPage tryMigrate pageId w = (Throw PageAlreadyExists, w))
  /\ (_hasPage pageId w = false ->
        let w' := snd (createPage tryMigrate pageId w) in
        ws_pages w' = ws_pages w ++ [mkPageMeta pageId "" (ws_now w) []]
        /\ _hasPage pageId w' = false
        /\ (forall key, OMap.has key (ws_spaces w') = true ->
                        OMap.has key (ws_spaces w) = true)).
Proof.
  split; intros H; unfold createPage, bind, gets; simpl; rewrite H; [reflexivity|].
  unfold addPageMeta, metaTransact, bind, gets, modify, ret. simpl.
  set (w1 := ws_with_pages _ _).
  assert (noStoreCreated w1 (snd (metaHandleEvents tryMigrate [MEvPages] w1))) as [HP HS].
  { unfold metaHandleEvents. simpl.
    apply (keepsStores_bind (m := metaHandlePageEvent tryMigrate)).
    - apply keepsStores_metaHandlePageEvent.
    - intros _. apply keepsStores_ret. }
  split; [exact HP|]. split.
  - unfold _hasPage in *.
    destruct (OMap.has (prefixed pageId) (ws_spaces (snd _))) eqn:E; auto.
    apply HS in E. simpl in E. congruence.
  - intros key Hk. apply HS in Hk. exact Hk.
Qed.

Lemma createPage_declares_only_witness :
  createPage noMigration "page0" testWorkspace = (Throw PageAlreadyExists, testWorkspace)
  /\ ws_pages (snd (createPage noMigration "page0" emptyWorkspace))
     = [mkPageMeta "page0" "" 1000 []]
  /\ _hasPage "page0" (snd (createPage noMigration "page0" emptyWorkspace)) = false.
Proof.
  destruct (createPage_declares_only noMigration testWorkspace "page0") as [Hdup _].
  destruct (createPage_declares_only noMigration emptyWorkspace "page0") as [_ Hnew].
  split; [apply Hdup; reflexivity|].
  destruct (Hnew eq_refl) as (Hpages & Hhas & _).
  split; [exact Hpages | exact Hhas].
Defined.

(** ** Page-added and page-removed signals *)

Lemma wsEmit_PageRemoved_step (tryMigrate : PageM unit) (id : string) (w : Workspace) :
  exists w', wsEmit tryMigrate (PageRemoved id) w = (Ok tt, w')
             /\ eventStep w w' [] [PageRemoved id].
Proof.
  unfold wsEmit, wsEmitLog, onPageRemoved, bind, gets, modify, throw. simpl.
  destruct (getPage id _) as [pg|] eqn:G; simpl.
  - unfold runPage. simpl.
    destruct (dispose _) as [[u|e] pg']; simpl;
      eexists; (split; [reflexivity|]); unfold eventStep; simpl;
      rewrite app_nil_r; auto.
  - eexists. split; [reflexivity|]. unfold eventStep. simpl.
    rewrite app_nil_r. auto.
Qed.

Lemma scheduleLoop_step (prev : list string) (pages : list PageMeta) (w : Workspace) :
  exists w',
    forEachM (fun pageMeta =>
                docGetMap (prefixed (pm_id pageMeta)) ;;;
                if negb (inb (pm_id pageMeta) prev)
                then setTimeout (TaskEmitPageAdded (pm_id pageMeta))
                else ret tt) pages w = (Ok tt, w')
    /\ eventStep w w'
         (map TaskEmitPageAdded
              (filter (fun id => negb (inb id prev)) (map pm_id pages))) [].
Proof.
  revert w. induction pages as [|pm pages IH]; intros w; simpl.
  - exists w. split; [reflexivity|]. unfold eventStep. now rewrite !app_nil_r.
  - unfold bind at 1. unfold bind at 1. unfold docGetMap at 1. unfold modify at 1.
    set (w1 := if OMap.has _ (ws_doc w) then w else _).
    assert (eventStep w w1 [] []) as (T1 & S1 & P1 & V1).
    { unfold w1, eventStep. destruct (OMap.has _ (ws_doc w)); simpl;
        rewrite !app_nil_r; auto. }
    destruct (negb (inb (pm_id pm) prev)) eqn:E; simpl.
    + destruct (IH (ws_with_timers (ws_timers w1 ++ [TaskEmitPageAdded (pm_id pm)]) w1))
        as (w' & Hrun & T & S & P & V).
      exists w'. split; [exact Hrun|]. unfold eventStep. simpl in *.
      rewrite T, S, P, V, T1, S1, P1, V1. rewrite !app_nil_r, <- !app_assoc. auto.
    + destruct (IH w1) as (w' & Hrun & T & S & P & V).
      exists w'. split; [exact Hrun|]. unfold eventStep.
      rewrite T, S, P, V, T1, S1, P1, V1. rewrite !app_nil_r. auto.
Qed.

Lemma removeLoop_step (tryMigrate : PageM unit) (pages : list PageMeta)
    (prev : list string) (w : Workspace) :
  exists w',
    forEachM (fun prevPageId =>
                if negb (existsb (fun pm => String.eqb (pm_id pm) prevPageId) pages)
                then wsEmit tryMigrate (PageRemoved prevPageId) else ret tt) prev w
    = (Ok tt, w')
    /\ eventStep w w' []
         (map PageRemoved
              (filter (fun id => negb (existsb (fun pm => String.eqb (pm_id pm) id) pages))
                      prev)).
Proof.
  revert w. induction prev as [|id prev IH]; intros w; simpl.
  - exists w. split; [reflexivity|]. unfold eventStep. now rewrite !app_nil_r.
  - unfold bind at 1.
    destruct (negb (existsb _ pages)) eqn:E; simpl.
    + destruct (wsEmit_PageRemoved_step tryMigrate id w) as (w1 & -> & T1 & S1 & P1 & V1).
      destruct (IH w1) as (w' & Hrun & T & S & P & V).
      exists w'. split; [exact Hrun|]. unfold eventStep.
      rewrite T, S, P, V, T1, S1, P1, V1. rewrite !app_nil_r, <- !app_assoc. auto.
    + destruct (IH w) as (w' & Hrun & T & S & P & V).
      exists w'. split; [exact Hrun|]. unfold eventStep. auto.
Qed.

(** C8 (as the code has it).  One run of the page observer never fails and
    - schedules, for a later tick, one page-added emission per descriptor
      of the current index whose id is not in the previous set, in index
      order (so an id listed by several descriptors is scheduled once per
      descriptor);
    - emits inside the callback one page-removed signal per element of the
      previous set that no current descriptor carries, followed by
      pages-updated, and emits no page-added signal there;
    - leaves the previous set equal to the ids of the current index. *)
Theorem metaHandlePageEvent_signals (tryMigrate : PageM unit) (w : Workspace) :
  exists w',
    metaHandlePageEvent tryMigrate w = (Ok tt, w')
    /\ ws_timers w'
       = ws_timers w
         ++ map TaskEmitPageAdded
              (filter (fun id => negb (inb id (ws_prevPages w))) (map pm_id (ws_pages w)))
    /\ ws_signals w'
       = ws_signals w
         ++ map PageRemoved
              (filter (fun id => negb (existsb (fun pm => String.eqb (pm_id pm) id)
                                               (ws_pages w)))
                      (ws_prevPages w))
         ++ [PagesUpdated]
    /\ ws_prevPages w'
       = fold_left (fun acc pm => addToSet (pm_id pm) acc) (ws_pages w) [].
Proof.
  unfold metaHandlePageEvent. unfold bind at 1. unfold gets at 1.
  unfold bind at 1. unfold gets at 1. unfold bind at 1.
  destruct (scheduleLoop_step (ws_prevPages w) (ws_pages w) w)
    as (w1 & -> & T1 & S1 & P1 & V1).
  unfold bind at 1.
  destruct (removeLoop_step tryMigrate (ws_pages w) (ws_prevPages w) w1)
    as (w2 & -> & T2 & S2 & P2 & V2).
  unfold bind, modify, wsEmit, wsEmitLog, ret. simpl.
  eexists. split; [reflexivity|]. simpl.
  rewrite T2, S2, T1, S1. rewrite !app_nil_r, <- !app_assoc. auto.
Qed.

(** C8, counterexample to the per-id reading: when the index lists two
    descriptors with the same new id (as a merge of two replicas that both
    declared the page produces), two page-added emissions are scheduled for
    that id. *)
Lemma pageAddedOncePerId_fails : ~ pageAddedOncePerId.
Proof.
  intros H.
  specialize (H noMigration
                (ws_with_pages [mkPageMeta "a" "" 0 []; mkPageMeta "a" "" 1 []]
                               emptyWorkspace)
                "a").
  assert (count_occ Task_eq_dec
            (ws_timers
               (snd (metaHandlePageEvent noMigration
                       (ws_with_pages [mkPageMeta "a" "" 0 []; mkPageMeta "a" "" 1 []]
                                      emptyWorkspace))))
            (TaskEmitPageAdded "a") = 2) as Htwo by (vm_compute; reflexivity).
  rewrite H in Htwo.
  - discriminate.
  - reflexivity.
  - simpl. auto.
  - simpl. auto.
Qed.

(** ** Synchronization happens once *)

Lemma bind_Ok_inv {S A B} (m : M S A) (k : A -> M S B) (s s' : S) (b : B) :
  bind m k s = (Ok b, s') ->
  exists a s1, m s = (Ok a, s1) /\ k a s1 = (Ok b, s').
Proof.
  unfold bind. destruct (m s) as [[a|e] s1]; intros H.
  - exists a, s1. auto.
  - discriminate.
Qed.

Lemma syncFromExistingDoc_Ok_synced (tryMigrate : PageM unit) (p p1 : Page) :
  syncFromExistingDoc tryMigrate p = (Ok tt, p1) -> synced p1 = true.
Proof.
  unfold syncFromExistingDoc. intros H.
  apply bind_Ok_inv in H. destruct H as (s & p0 & Hs & H).
  unfold gets in Hs. injection Hs as <- <-.
  destruct (synced p); [discriminate|].
  repeat (apply bind_Ok_inv in H; destruct H as (? & ? & _ & H)).
  unfold modify in H. injection H as <-. reflexivity.
Qed.

(** C2 (as the code has it).  Once a call of [syncFromExistingDoc] has
    completed, every further call fails with the sync-more-than-once error
    and leaves the whole store -- the block map, the model projection and
    everything else -- exactly as it was. *)
Theorem syncFromExistingDoc_once (tryMigrate : PageM unit) (p p1 : Page)
    (Hfirst : syncFromExistingDoc tryMigrate p = (Ok tt, p1)) :
  syncFromExistingDoc tryMigrate p1 = (Throw SyncMoreThanOnce, p1).
Proof.
  apply syncFromExistingDoc_Ok_synced in Hfirst.
  unfold syncFromExistingDoc, bind, gets. rewrite Hfirst. reflexivity.
Qed.

Lemma syncFromExistingDoc_once_witness :
  let p := newPage (register sampleSchema []) [] false autoIncrement 0 [] [] in
  let p1 := snd (syncFromExistingDoc noMigration p) in
  syncFromExistingDoc noMigration p1 = (Throw SyncMoreThanOnce, p1).
Proof.
  intros p p1.
  apply (@syncFromExistingDoc_once noMigration p p1). reflexivity.
Defined.

(** C2, counterexample to the per-call reading: the first call on a
    document whose version ledger is empty fails in the version gate, before
    the store is marked as synced; the second call fails in the same way, not
    with the sync-more-than-once error. *)
Lemma secondSyncAlwaysRejected_fails : ~ secondSyncAlwaysRejected.
Proof.
  intros H. specialize (H noMigration foreignPage eq_refl).
  vm_compute in H. discriminate.
Qed.

(** ** Read-only mode *)

Lemma insertBlockBody_readonly (flavour : option string) (type : option JsVal)
    (parentId targetId : string) (top : bool) (p : Page) :
  readonly p = true ->
  exists e, insertBlockBody flavour type parentId targetId top p = (Throw e, p).
Proof.
  intros Hro. unfold insertBlockBody, yChildren_get, yBlocks_get, bind, gets, throw, ret.
  destruct (OMap.get parentId (yBlocks p)) as [yb|]; [|eauto].
  destruct (OMap.get "sys:children" yb) as [[v|ids|c|m]|]; eauto.
  destruct flavour as [f|]; [|eauto].
  unfold addBlockByFlavour, bind, gets, throw. rewrite Hro. eauto.
Qed.

(** A transaction whose callback throws without touching the state writes
    nothing: the block map and the projection are as before. *)
Lemma transactWith_failed_body (h : HandleAdd) (fn : PageM unit) (p : Page) :
  (forall q, readonly q = readonly p -> exists e, fn q = (Throw e, q)) ->
  exists e p', transactWith h fn p = (Throw e, p')
               /\ yBlocks p' = yBlocks p /\ blockMap p' = blockMap p
               /\ heap p' = heap p /\ root p' = root p
               /\ signals p' = signals p /\ console p' = console p.
Proof.
  intros Hfn. unfold transactWith, transactFrom.
  destruct (inTxn p) eqn:Htx.
  - destruct (Hfn p eq_refl) as [e ->]. exists e, p. repeat split.
  - match goal with |- context [fn ?q] => destruct (Hfn q eq_refl) as [e ->] end.
    simpl.
    assert (computeEvents (yBlocks p) (yBlocks p) [] = []) as -> by reflexivity.
    destruct (inCleanup p) eqn:Hcl.
    + eexists e, _. split; [reflexivity|]. repeat split.
    + unfold dispatchBatch, historyAfterTransaction. simpl. rewrite !andb_false_r. simpl.
      destruct (OMap.size _); simpl;
        eexists e, _; (split; [reflexivity|]); repeat split.
Qed.

(** C5 (as the code has it).  While the read-only predicate holds:
    - [addBlockByFlavour] and [addBlock] throw the read-only error and leave
      the store untouched;
    - [updateBlock], [updateBlockById], [moveBlock], [deleteBlock],
      [deleteBlockById], [undo] and [redo] return normally after logging the
      read-only message; the log entry is the only change, so no transaction
      is entered and nothing is written;
    - [insertBlock] has no check of its own: it always fails (at the latest
      with the read-only error of the [addBlockByFlavour] it calls from
      inside its transaction), and the block map, the model map, the models
      and the console are as before. *)
Theorem readonly_blocks_mutations (p : Page) (Hro : readonly p = true) :
  (forall flavour props parent index,
      addBlockByFlavour flavour props parent index p = (Throw ReadonlyMode, p))
  /\ (forall props parent index, addBlock props parent index p = (Throw ReadonlyMode, p))
  /\ (forall model props, updateBlock model props p = (Ok tt, loggedReadonly p))
  /\ (forall id props, updateBlockById id props p = (Ok tt, loggedReadonly p))
  /\ (forall model target top, moveBlock model target top p = (Ok tt, loggedReadonly p))
  /\ (forall model options, deleteBlock model options p = (Ok tt, loggedReadonly p))
  /\ (forall id, deleteBlockById id p = (Ok tt, loggedReadonly p))
  /\ (forall historyUndo, undo historyUndo p = (Ok tt, loggedReadonly p))
  /\ (forall historyRedo, redo historyRedo p = (Ok tt, loggedReadonly p))
  /\ (forall flavour type target top,
        exists e p', insertBlock flavour type target top p = (Throw e, p')
                     /\ yBlocks p' = yBlocks p /\ blockMap p' = blockMap p
                     /\ heap p' = heap p /\ root p' = root p
                     /\ console p' = console p).
Proof.
  repeat split; intros;
    try (unfold addBlock, addBlockByFlavour, updateBlock, updateBlockById, moveBlock,
           deleteBlock, deleteBlockById, undo, redo, bind, gets, throw, consoleError,
           modify; rewrite Hro; reflexivity).
  unfold insertBlock, modelIdOf, getParentM, bind, gets, throw, ret.
  destruct (getModel target p) as [tm|]; [|exists (TypeError "model is undefined"), p; repeat split].
  destruct (getParent p (m_id tm)) as [[tp|]|e]; try (eexists _, p; repeat split; fail).
  destruct (getModel tp p) as [tpm|]; [|eexists _, p; repeat split].
  destruct (@transactWith_failed_body handleAdd
              (insertBlockBody flavour type (m_id tpm) (m_id tm) top) p)
    as (e & p' & Hrun & HY & HB & HH & HR & HS & HC).
  { intros q Hq. apply insertBlockBody_readonly. congruence. }
  exists e, p'. unfold transact. rewrite Hrun. repeat split; auto.
Qed.

Lemma readonly_blocks_mutations_witness :
  let p := set_readonly true pageWithParagraphs in
  addBlockByFlavour "affine:paragraph" noProps ParentUndefined None p
    = (Throw ReadonlyMode, p)
  /\ deleteBlock 1 BringToParent p = (Ok tt, loggedReadonly p)
  /\ exists e p', insertBlock (Some "affine:paragraph") None 1 true p = (Throw e, p')
                  /\ yBlocks p' = yBlocks p.
Proof.
  intros p.
  destruct (@readonly_blocks_mutations p eq_refl)
    as (Hadd & _ & _ & _ & _ & Hdel & _ & _ & _ & Hins).
  split; [apply Hadd|]. split; [apply Hdel|].
  destruct (Hins (Some "affine:paragraph") None 1 true) as (e & p' & Hrun & HY & _).
  exists e, p'. split; [exact Hrun | exact HY].
Defined.

(** C5, counterexample to "without entering a transaction": on the
    read-only page of the unit tests, [insertBlock] next to the first
    paragraph begins a transaction before the read-only check of
    [addBlockByFlavour] is reached. *)
Lemma readonlyInsertNeverTransacts_fails : ~ readonlyInsertNeverTransacts.
Proof.
  intros H.
  specialize (H (Some "affine:paragraph") None 1 true
                (set_readonly true pageWithParagraphs) eq_refl).
  vm_compute in H. discriminate.
Qed.

(** ** Observers that materialize no block leave the document alone *)

Lemma projOnly_refl (p : Page) : projOnly p p.
Proof. split; auto. Qed.

Lemma projOnly_trans (p1 p2 p3 : Page) :
  projOnly p1 p2 -> projOnly p2 p3 -> projOnly p1 p3.
Proof. intros [D1 B1] [D2 B2]. split; [congruence | auto]. Qed.

Section Preservation.

Variable R : Page -> Page -> Prop.
Hypothesis R_refl : forall p, R p p.
Hypothesis R_trans : forall p1 p2 p3, R p1 p2 -> R p2 p3 -> R p1 p3.

Lemma pres_ret {A} (a : A) : pres R (ret a).
Proof. intros p. apply R_refl. Qed.

Lemma pres_throw {A} (e : Error) : pres R (throw (A:=A) e).
Proof. intros p. apply R_refl. Qed.

Lemma pres_gets {A} (f : Page -> A) : pres R (gets f).
Proof. intros p. apply R_refl. Qed.

Lemma pres_lift {A} (f : Page -> outcome A) : pres R (fun p => (f p, p)).
Proof. intros p. apply R_refl. Qed.

Lemma pres_bind {A B} (m : PageM A) (k : A -> PageM B) :
  pres R m -> (forall a, pres R (k a)) -> pres R (bind m k).
Proof.
  intros Hm Hk p. unfold bind. specialize (Hm p).
  destruct (m p) as [[a|e] p1]; simpl in *; auto.
  eapply R_trans; [exact Hm | apply Hk].
Qed.

Lemma pres_forEachM {A} (f : A -> PageM unit) (xs : list A) :
  (forall x, In x xs -> pres R (f x)) -> pres R (forEachM f xs).
Proof.
  induction xs as [|x xs IH]; intros Hf; simpl.
  - apply pres_ret.
  - apply pres_bind; [apply Hf; now left | intros _; apply IH].
    intros y Hy. apply Hf. now right.
Qed.

Lemma pres_foldKeysM {A} (f : string -> A -> PageM A) (keys : list string) (acc : A) :
  (forall k a, pres R (f k a)) -> pres R (foldKeysM f keys acc).
Proof.
  intros Hf. revert acc. induction keys as [|k ks IH]; intros acc; simpl.
  - apply pres_ret.
  - apply pres_bind; auto.
Qed.

End Preservation.

Lemma projOnly_emit (sg : Signal) : pres projOnly (emit sg).
Proof. intros p. split; auto. Qed.

Lemma projOnly_consoleError (msg : string) : pres projOnly (consoleError msg).
Proof. intros p. split; auto. Qed.

Lemma projOnly_updModel (a : addr) (f : BaseBlockModel -> BaseBlockModel) :
  pres projOnly (updModel a f).
Proof.
  intros p. unfold updModel, modify. simpl.
  destruct (getModel a p); split; auto.
Qed.

Lemma projOnly_handleYBlockDelete (id : string) : pres projOnly (_handleYBlockDelete id).
Proof.
  unfold _handleYBlockDelete.
  apply pres_bind; [exact projOnly_trans | apply pres_gets; exact projOnly_refl | intros model].
  apply pres_bind; [exact projOnly_trans | apply pres_gets; exact projOnly_refl | intros r].
  apply pres_bind; [exact projOnly_trans | | intros _].
  - destruct model as [a|]; [|apply pres_ret; exact projOnly_refl].
    destruct r; try (apply pres_ret; exact projOnly_refl).
    destruct (Nat.eqb a a0); [apply projOnly_emit | apply pres_ret; exact projOnly_refl].
  - intros p. split; auto. simpl. intros k Hk.
    destruct (String.eqb_spec k id) as [->|N].
    + apply omap_get_delete_eq.
    + rewrite omap_get_delete_ne; auto.
Qed.

Lemma projOnly_updateKey (target : YBlock) (a : addr) (key : string)
    (acc : list (string * option YVal) * bool * bool) :
  pres projOnly (updateKey target a key acc).
Proof.
  unfold updateKey. destruct acc as [[props hasProps] hasChildren].
  destruct (String.eqb key "prop:text"); [apply pres_ret; exact projOnly_refl|].
  destruct (String.eqb key "sys:children"); [|apply pres_ret; exact projOnly_refl].
  destruct (OMap.get "sys:children" target) as [[v|ids|c|m]|];
    try (apply pres_bind; [exact projOnly_trans | apply projOnly_consoleError
                          | intros _; apply pres_ret; exact projOnly_refl]).
  apply pres_bind; [exact projOnly_trans | apply projOnly_updModel | intros _].
  apply pres_bind; [exact projOnly_trans | apply pres_gets; exact projOnly_refl | intros cs].
  apply pres_bind; [exact projOnly_trans | apply projOnly_updModel | intros _].
  apply pres_ret; exact projOnly_refl.
Qed.

Lemma projOnly_handleYBlockUpdate (blockKey : string) (keysChanged : list string) :
  pres projOnly (_handleYBlockUpdate blockKey keysChanged).
Proof.
  unfold _handleYBlockUpdate.
  apply pres_bind; [exact projOnly_trans | apply pres_gets; exact projOnly_refl | intros target].
  destruct target as [yb|]; [|apply pres_ret; exact projOnly_refl].
  apply pres_bind; [exact projOnly_trans | apply pres_gets; exact projOnly_refl | intros model].
  destruct model as [a|]; [|apply pres_ret; exact projOnly_refl].
  apply pres_bind; [exact projOnly_trans | | intros [[props hasProps] hasChildren]].
  - apply pres_foldKeysM; [exact projOnly_refl | exact projOnly_trans |].
    intros k acc. apply projOnly_updateKey.
  - apply pres_bind; [exact projOnly_trans | | intros _].
    + destruct hasProps; [|apply pres_ret; exact projOnly_refl].
      apply pres_bind; [exact projOnly_trans | apply projOnly_updModel
                       | intros _; apply projOnly_emit].
    + destruct hasChildren; [apply projOnly_emit | apply pres_ret; exact projOnly_refl].
Qed.

Lemma projOnly_handleArrayEvent (blockKey key : string) :
  pres projOnly (handleArrayEvent blockKey key).
Proof.
  unfold handleArrayEvent.
  apply pres_bind; [exact projOnly_trans | apply pres_gets; exact projOnly_refl | intros target].
  destruct target as [yb|]; [|apply pres_ret; exact projOnly_refl].
  destruct (negb (OMap.has "sys:id" yb)); [apply pres_ret; exact projOnly_refl|].
  apply pres_bind; [exact projOnly_trans | apply pres_gets; exact projOnly_refl | intros model].
  destruct model as [a|]; [|apply pres_throw; exact projOnly_refl].
  destruct (String.eqb key "sys:children"); [|apply pres_ret; exact projOnly_refl].
  destruct (OMap.get key yb) as [[v|ids|c|m]|]; try (apply pres_ret; exact projOnly_refl).
  apply pres_bind; [exact projOnly_trans | apply pres_gets; exact projOnly_refl | intros cs].
  apply pres_bind; [exact projOnly_trans | apply projOnly_updModel | intros _].
  apply pres_bind; [exact projOnly_trans | apply projOnly_updModel | intros _].
  apply projOnly_emit.
Qed.

Lemma projOnly_handleTopKeys (h : HandleAdd) (keys : list (string * KeyAction))
    (visited : list string) :
  (forall id, ~ In (id, KAdd) keys) ->
  pres projOnly (handleTopKeys h keys visited).
Proof.
  induction keys as [|[id act] keys IH]; intros Hno; simpl.
  - apply pres_ret; exact projOnly_refl.
  - assert (forall id0, ~ In (id0, KAdd) keys) as Hrest
        by (intros id0 Hin; apply (Hno id0); now right).
    destruct act.
    + exfalso. apply (Hno id). now left.
    + auto.
    + apply pres_bind; [exact projOnly_trans | apply projOnly_handleYBlockDelete
                       | intros _; auto].
Qed.

Lemma projOnly_handleYEvents (h : HandleAdd) (events : list YEvent) :
  Forall noAdds events -> pres projOnly (_handleYEvents h events).
Proof.
  intros Hall. unfold _handleYEvents.
  apply pres_bind; [exact projOnly_trans | | intros _; apply projOnly_emit].
  apply pres_forEachM; [exact projOnly_refl | exact projOnly_trans |].
  intros e He. rewrite Forall_forall in Hall. specialize (Hall e He).
  destruct e; simpl.
  - apply projOnly_handleTopKeys. exact Hall.
  - apply projOnly_handleYBlockUpdate.
  - apply projOnly_emit.
  - apply projOnly_handleArrayEvent.
Qed.

Lemma projOnly_dispatchBatch (h : HandleAdd) (events : list YEvent) :
  Forall noAdds events -> pres projOnly (dispatchBatch h events).
Proof.
  intros Hall p. unfold dispatchBatch.
  destruct (observing p && negb (isNil events)).
  - apply projOnly_handleYEvents. exact Hall.
  - apply projOnly_refl.
Qed.

Lemma projOnly_historyAfterTransaction (tracked : bool) (events : list YEvent) :
  pres projOnly (historyAfterTransaction tracked events).
Proof.
  intros p. unfold historyAfterTransaction.
  destruct (hasHistory p && tracked && negb (isNil events)).
  - apply projOnly_emit.
  - apply projOnly_refl.
Qed.

Lemma historyAfterTransaction_Ok (tracked : bool) (events : list YEvent) (p : Page) :
  fst (historyAfterTransaction tracked events p) = Ok tt.
Proof.
  unfold historyAfterTransaction.
  destruct (hasHistory p && tracked && negb (isNil events)); reflexivity.
Qed.

Lemma Forall_insertByPath (P : YEvent -> Prop) (e : YEvent) (sorted : list YEvent) :
  P e -> Forall P sorted -> Forall P (insertByPath e sorted).
Proof.
  intros He. induction sorted as [|e' rest IH]; intros Hall; simpl.
  - constructor; auto.
  - destruct (Nat.ltb (pathLength e) (pathLength e')).
    + constructor; auto.
    + inversion Hall; subst. constructor; auto.
Qed.

Lemma Forall_sortByPath (P : YEvent -> Prop) (es : list YEvent) :
  Forall P es -> Forall P (sortByPath es).
Proof.
  unfold sortByPath. intros Hall.
  assert (forall acc, Forall P acc ->
            Forall P (fold_left (fun acc e => insertByPath e acc) es acc)) as H.
  { induction Hall as [|e es He Hes IH]; intros acc Hacc; simpl; auto.
    apply IH. apply Forall_insertByPath; auto. }
  apply H. constructor.
Qed.

Lemma Forall_dedupeEvents (P : YEvent -> Prop) (es seen : list YEvent) :
  Forall P es -> Forall P (dedupeEvents seen es).
Proof.
  intros Hall. revert seen. induction Hall as [|e es He Hes IH]; intros seen; simpl.
  - constructor.
  - destruct (existsb (sameTarget e) seen); auto.
Qed.

Lemma In_topKeysOf (id : string) (chs : list Changed) :
  In id (topKeysOf chs) -> In (ChTop id) chs.
Proof.
  unfold topKeysOf.
  assert (forall xs seen, In id (dedupe seen xs) -> In id xs) as Hd.
  { induction xs as [|x xs IH]; intros seen; simpl; auto.
    destruct (inb x seen); simpl; intros H.
    - right. eapply IH; eauto.
    - destruct H as [-> | H]; [now left | right; eapply IH; eauto]. }
  intros H. apply Hd in H. apply in_flat_map in H.
  destruct H as [c [Hc Hin]]. destruct c; simpl in Hin; try contradiction.
  destruct Hin as [-> | []]. exact Hc.
Qed.

(** A transaction that sets no key of the flat map that was absent before
    reports no added block. *)
Lemma computeEvents_noAdds (before after : YBlocks) (chs : list Changed) :
  (forall id, In (ChTop id) chs -> OMap.get id before <> None) ->
  Forall noAdds (computeEvents before after chs).
Proof.
  intros Hold. unfold computeEvents. apply Forall_sortByPath.
  apply Forall_app. split.
  - destruct (topKeysOf chs) as [|k ks] eqn:E; constructor; [|constructor].
    unfold noAdds. intros id Hin.
    change (topAction before after k ++ flat_map (topAction before after) ks)
      with (flat_map (topAction before after) (k :: ks)) in Hin.
    apply in_flat_map in Hin.
    destruct Hin as [k' [Hk' Hin]].
    assert (In (ChTop k') chs) as Hc by (apply In_topKeysOf; rewrite E; exact Hk').
    apply Hold in Hc. unfold topAction in Hin.
    destruct (OMap.get k' before); [|congruence].
    destruct (OMap.get k' after); simpl in Hin; destruct Hin as [Hin | []];
      discriminate.
  - apply Forall_dedupeEvents. apply Forall_forall. intros e He.
    apply in_flat_map in He. destruct He as [c [_ He]].
    destruct c; simpl in He; try contradiction.
    + destruct (inb blockId (topKeysOf chs)); [contradiction|].
      destruct (OMap.has blockId after); [|contradiction].
      destruct He as [<- | []]. exact I.
    + destruct (inb blockId (topKeysOf chs)); [contradiction|].
      destruct (inb key (blockKeysOf blockId chs)); [contradiction|].
      destruct (OMap.has blockId after); [|contradiction].
      destruct He as [<- | []]. exact I.
Qed.

Lemma drain_noAdds (h : HandleAdd) (fuel : nat) (err : option Error) (p : Page) :
  Forall (fun batch => Forall noAdds (snd batch)) (queued p) ->
  projOnly (set_queued (queued (snd (drain h fuel err p))) p) (snd (drain h fuel err p)).
Proof.
  revert err p. induction fuel as [|fuel IH]; intros err p Hq; simpl.
  - destruct p; apply projOnly_refl.
  - destruct (queued p) as [|[tracked events] rest] eqn:E.
    + simpl. clear E Hq. destruct p; apply projOnly_refl.
    + inversion Hq as [|? ? Hev Hrest]; subst. simpl in Hev.
      pose proof (@projOnly_dispatchBatch h events Hev (set_queued rest p)) as Hd.
      destruct (dispatchBatch h events (set_queued rest p)) as [r p1] eqn:Ed.
      simpl in Hd.
      pose proof (@projOnly_historyAfterTransaction tracked events p1) as Hh.
      destruct (historyAfterTransaction tracked events p1) as [u p2] eqn:Eh.
      simpl in Hh.
      pose proof (projOnly_trans Hd Hh) as Hd2.
      assert (queued p2 = rest) as Hq2.
      { destruct Hd2 as [Hdoc _]. unfold docPart in Hdoc. simpl in Hdoc.
        injection Hdoc. intros. assumption. }
      specialize (IH (match r with Throw e => Some e | Ok _ => err end) p2).
      rewrite Hq2 in IH. specialize (IH Hrest).
      eapply projOnly_trans; [|exact IH].
      destruct Hd2 as [Hdoc Hbm]. split.
      * unfold docPart in *. simpl in *. injection Hdoc. intros. congruence.
      * simpl. exact Hbm.
Qed.

(** A top-level transaction whose callback adds no block to the flat map:
    the observers that run at commit leave the document as the callback left
    it and register no model. *)
Lemma transactWith_noAdds (h : HandleAdd) (fn : PageM unit) (p p2 : Page)
    (r : outcome unit) :
  inTxn p = false ->
  inCleanup p = false ->
  fn (beginTxn p) = (r, p2) ->
  inCleanup p2 = false ->
  (forall id, In (ChTop id) (changed p2) -> OMap.get id (txnBefore p2) <> None) ->
  exists r' p',
    transactWith h fn p = (r', p')
    /\ yBlocks p' = yBlocks p2
    /\ txCount p' = txCount p2
    /\ readonly p' = readonly p2
    /\ inTxn p' = false
    /\ inCleanup p' = false
    /\ (forall k, OMap.get k (blockMap p2) = None -> OMap.get k (blockMap p') = None).
Proof.
  intros Htx Hcl Hfn Hcl2 Hold. unfold transactWith, transactFrom. rewrite Htx.
  fold (beginTxn p). rewrite Hfn. cbv zeta.
  change (inCleanup (set_changed [] (set_inTxn false p2))) with (inCleanup p2).
  rewrite Hcl2.
  set (events := computeEvents (txnBefore p2) (yBlocks p2) (changed p2)).
  set (p4 := set_inCleanup true
               (set_queued [(true, events)] (set_changed [] (set_inTxn false p2)))).
  pose proof (@drain_noAdds h (S (OMap.size (yBlocks p4))) None p4) as Hd.
  assert (Forall (fun batch => Forall noAdds (snd batch)) (queued p4)) as Hq.
  { simpl. constructor; [|constructor]. apply computeEvents_noAdds. exact Hold. }
  specialize (Hd Hq).
  destruct (drain h (S (OMap.size (yBlocks p4))) None p4) as [err p5].
  cbn [snd] in Hd. destruct Hd as [Hdoc Hbm].
  unfold docPart in Hdoc. simpl in Hdoc.
  injection Hdoc. intros HtxC Hch Hbefore Hic Hit Hhh Hob Hsy HY Hig Hid Hro Hve Hfm.
  exists (match err with Some e => Throw e | None => r end), (set_inCleanup false p5).
  split; [destruct err; reflexivity|].
  simpl. repeat split; auto.
Qed.

(** ** Ordered children lists *)

Lemma findIndexFrom_split (x : string) (l1 l2 : list string) (i : Z) :
  ~ In x l1 -> findIndexFrom i x (l1 ++ x :: l2) = (i + Z.of_nat (length l1))%Z.
Proof.
  revert i. induction l1 as [|y l1 IH]; intros i Hnot; simpl.
  - rewrite String.eqb_refl. lia.
  - destruct (String.eqb_spec y x) as [->|N].
    + exfalso. apply Hnot. now left.
    + rewrite IH; [lia|]. intros H. apply Hnot. now right.
Qed.

Lemma In_first_split (x : string) (l : list string) :
  In x l -> exists l1 l2, l = l1 ++ x :: l2 /\ ~ In x l1.
Proof.
  induction l as [|y l IH]; intros Hin; [contradiction|].
  destruct (string_dec y x) as [->|N].
  - exists [], l. split; auto.
  - destruct Hin as [-> | Hin]; [contradiction|].
    destruct (IH Hin) as (l1 & l2 & -> & Hnot).
    exists (y :: l1), l2. split; auto.
    intros [H | H]; auto.
Qed.

Lemma findIndex_split (x : string) (l1 l2 : list string) :
  ~ In x l1 -> findIndex x (l1 ++ x :: l2) = Z.of_nat (length l1).
Proof. intros H. unfold findIndex. now rewrite findIndexFrom_split. Qed.

Lemma removeAt_app {A} (l1 l2 : list A) (x : A) :
  removeAt (length l1) (l1 ++ x :: l2) = l1 ++ l2.
Proof. induction l1 as [|y l1 IH]; simpl; congruence. Qed.

Lemma insertAt_app {A} (l1 l2 content : list A) :
  insertAt (length l1) content (l1 ++ l2) = l1 ++ content ++ l2.
Proof. induction l1 as [|y l1 IH]; simpl; congruence. Qed.

Lemma yarray_delete1_split (l1 l2 : list string) (x : string) :
  yarray_delete1 (Z.of_nat (length l1)) (l1 ++ x :: l2) = Ok (l1 ++ l2).
Proof.
  unfold yarray_delete1.
  destruct (Z.ltb_spec (Z.of_nat (length l1)) 0); [lia|].
  destruct (Z.leb_spec (Z.of_nat (length (l1 ++ x :: l2))) (Z.of_nat (length l1))) as [H1|H1].
  - rewrite length_app in H1. simpl in H1. lia.
  - rewrite Nat2Z.id, removeAt_app. reflexivity.
Qed.

Lemma yarray_insert_split (l1 l2 content : list string) :
  yarray_insert (Z.of_nat (length l1)) content (l1 ++ l2) = Ok (l1 ++ content ++ l2).
Proof.
  unfold yarray_insert.
  destruct (Z.ltb_spec (Z.of_nat (length l1)) 0); [lia|].
  destruct (Z.ltb_spec (Z.of_nat (length (l1 ++ l2))) (Z.of_nat (length l1))) as [H1|H1].
  - rewrite length_app in H1. lia.
  - rewrite Nat2Z.id, insertAt_app. reflexivity.
Qed.

Lemma yChildren_get_ok (p : Page) (blockId : string) (ids : list string) :
  yChildrenOf p blockId = Some ids -> yChildren_get blockId p = (Ok ids, p).
Proof.
  unfold yChildrenOf, yChildren_get, yBlocks_get, bind, gets, ret.
  destruct (OMap.get blockId (yBlocks p)) as [yb|]; [|discriminate].
  destruct (OMap.get "sys:children" yb) as [[v|l|c|m]|]; try discriminate.
  now intros [= ->].
Qed.

Lemma yChildren_put_ok (p : Page) (blockId : string) (old ids : list string) :
  yChildrenOf p blockId = Some old ->
  yChildren_put blockId ids p = (Ok tt, putChildren blockId ids p).
Proof.
  unfold yChildrenOf, yChildren_put, putChildren, yBlocks_get, markChanged, bind,
    gets, modify, ret.
  destruct (OMap.get blockId (yBlocks p)) as [yb|]; [|discriminate].
  reflexivity.
Qed.

Lemma yChildrenOf_put_same (p : Page) (blockId : string) (old ids : list string) :
  yChildrenOf p blockId = Some old ->
  yChildrenOf (putChildren blockId ids p) blockId = Some ids.
Proof.
  unfold yChildrenOf, putChildren.
  destruct (OMap.get blockId (yBlocks p)) as [yb|]; [|discriminate].
  intros _. simpl. rewrite omap_get_set_eq, omap_get_set_eq. reflexivity.
Qed.

Lemma yChildrenOf_put_other (p : Page) (blockId other : string) (ids : list string) :
  other <> blockId ->
  yChildrenOf (putChildren blockId ids p) other = yChildrenOf p other.
Proof.
  intros Hne. unfold yChildrenOf, putChildren.
  destruct (OMap.get blockId (yBlocks p)) as [yb|]; [|reflexivity].
  simpl. rewrite omap_get_set_ne by auto. reflexivity.
Qed.

Lemma putChildren_frame (p : Page) (blockId : string) (ids : list string) :
  inCleanup (putChildren blockId ids p) = inCleanup p
  /\ txCount (putChildren blockId ids p) = txCount p
  /\ txnBefore (putChildren blockId ids p) = txnBefore p
  /\ readonly (putChildren blockId ids p) = readonly p
  /\ blockMap (putChildren blockId ids p) = blockMap p
  /\ (forall id, In (ChTop id) (changed (putChildren blockId ids p)) ->
                 In (ChTop id) (changed p)).
Proof.
  unfold putChildren.
  destruct (OMap.get blockId (yBlocks p)) as [yb|]; simpl; repeat split; auto.
  intros id Hin. apply in_app_or in Hin. destruct Hin as [H | [H | []]]; auto.
  discriminate.
Qed.

Lemma yChildrenOf_ext (p q : Page) (blockId : string) :
  yBlocks q = yBlocks p -> yChildrenOf q blockId = yChildrenOf p blockId.
Proof. unfold yChildrenOf. now intros ->. Qed.

Lemma yChildren_delete1_split (p : Page) (blockId x : string) (l1 l2 : list string) :
  yChildrenOf p blockId = Some (l1 ++ x :: l2) ->
  yChildren_delete1 blockId (Z.of_nat (length l1)) p
  = (Ok tt, putChildren blockId (l1 ++ l2) p).
Proof.
  intros H. unfold yChildren_delete1, bind, lift_outcome.
  rewrite (yChildren_get_ok _ _ H), yarray_delete1_split.
  apply (yChildren_put_ok _ _ _ H).
Qed.

Lemma yChildren_insert_split (p : Page) (blockId : string) (l1 l2 content : list string) :
  yChildrenOf p blockId = Some (l1 ++ l2) ->
  content <> [] ->
  yChildren_insert blockId (Z.of_nat (length l1)) content p
  = (Ok tt, putChildren blockId (l1 ++ content ++ l2) p).
Proof.
  intros H Hne. unfold yChildren_insert, bind, lift_outcome.
  rewrite (yChildren_get_ok _ _ H), yarray_insert_split.
  destruct content; [contradiction|]. simpl.
  apply (yChildren_put_ok _ _ _ H).
Qed.

(** ** Moving a block *)

Lemma moveBlockBody_run (p : Page) (paId pbId bid tid : string)
    (l1 l2 m1 m2 : list string) (top : bool) :
  yChildrenOf p paId = Some (l1 ++ bid :: l2) ->
  ~ In bid l1 ->
  yChildrenOf (putChildren paId (l1 ++ l2) p) pbId = Some (m1 ++ tid :: m2) ->
  ~ In tid m1 ->
  moveBlockBody paId pbId bid tid top p
  = (Ok tt,
     putChildren pbId (if top then m1 ++ bid :: tid :: m2 else m1 ++ tid :: bid :: m2)
       (putChildren paId (l1 ++ l2) p)).
Proof.
  intros HA Hb HB Ht. unfold moveBlockBody. unfold bind at 1.
  rewrite (yChildren_get_ok _ _ HA). rewrite findIndex_split by exact Hb.
  unfold bind at 1. rewrite (yChildren_delete1_split _ _ _ _ _ HA).
  unfold bind at 1. rewrite (yChildren_get_ok _ _ HB).
  rewrite findIndex_split by exact Ht.
  destruct top.
  - rewrite (@yChildren_insert_split _ pbId m1 (tid :: m2) [bid]); auto. discriminate.
  - replace (Z.of_nat (length m1) + 1)%Z with (Z.of_nat (length (m1 ++ [tid])))
      by (rewrite length_app; simpl; lia).
    replace (m1 ++ tid :: m2) with ((m1 ++ [tid]) ++ m2) in HB
      by (rewrite <- app_assoc; reflexivity).
    rewrite (@yChildren_insert_split _ pbId (m1 ++ [tid]) m2 [bid]); auto;
      [|discriminate].
    rewrite <- app_assoc. reflexivity.
Qed.

(** C9 (as the code has it).  For a block [b] and a different target block
    [t] that both have parents, on a writable store whose replicated children
    lists list [b] under its parent and [t] under its own, [moveBlock]
    removes [b]'s id from the children list of its current parent and inserts
    it into the children list of [t]'s parent immediately before [t] (for
    [top]) or immediately after it; both writes happen in the one transaction
    the call begins. *)
Theorem moveBlock_relocates (p : Page) (b t pa pb : addr)
    (mb mt mpa mpb : BaseBlockModel) (la lb : list string) (top : bool)
    (Hro : readonly p = false)
    (Htx : inTxn p = false)
    (Hcl : inCleanup p = false)
    (Hb : getModel b p = Some mb)
    (Ht : getModel t p = Some mt)
    (Hpa : getParent p (m_id mb) = Ok (Some pa))
    (Hpb : getParent p (m_id mt) = Ok (Some pb))
    (Hmpa : getModel pa p = Some mpa)
    (Hmpb : getModel pb p = Some mpb)
    (HA : yChildrenOf p (m_id mpa) = Some la)
    (HB : yChildrenOf p (m_id mpb) = Some lb)
    (Hin : In (m_id mb) la)
    (Hint : In (m_id mt) lb)
    (Hne : m_id mt <> m_id mb) :
  exists r p' l1 l2 m1 m2,
    moveBlock b t top p = (r, p')
    /\ txCount p' = S (txCount p)
    /\ la = l1 ++ m_id mb :: l2 /\ ~ In (m_id mb) l1
    /\ (if String.eqb (m_id mpb) (m_id mpa) then l1 ++ l2 else lb) = m1 ++ m_id mt :: m2
    /\ ~ In (m_id mt) m1
    /\ yChildrenOf p' (m_id mpb)
       = Some (if top then m1 ++ m_id mb :: m_id mt :: m2
               else m1 ++ m_id mt :: m_id mb :: m2)
    /\ (m_id mpa <> m_id mpb -> yChildrenOf p' (m_id mpa) = Some (l1 ++ l2)).
Proof.
  destruct (In_first_split _ _ Hin) as (l1 & l2 & -> & Hnb).
  set (paId := m_id mpa) in *. set (pbId := m_id mpb) in *.
  set (bid := m_id mb) in *. set (tid := m_id mt) in *.
  set (p1 := beginTxn p).
  assert (yChildrenOf p1 paId = Some (l1 ++ bid :: l2)) as HA1 by exact HA.
  set (p1a := putChildren paId (l1 ++ l2) p1).
  assert (yChildrenOf p1a pbId
          = Some (if String.eqb pbId paId then l1 ++ l2 else lb)) as HB1.
  { unfold p1a. destruct (String.eqb_spec pbId paId) as [E|N].
    - rewrite E. apply (yChildrenOf_put_same _ _ _ HA1).
    - rewrite yChildrenOf_put_other by exact N. exact HB. }
  assert (In tid (if String.eqb pbId paId then l1 ++ l2 else lb)) as Hin'.
  { destruct (String.eqb_spec pbId paId) as [E|N]; [|exact Hint].
    rewrite E in HB. rewrite HA in HB. injection HB as <-.
    apply in_app_or in Hint. apply in_or_app.
    destruct Hint as [H | [H | H]]; auto. congruence. }
  destruct (In_first_split _ _ Hin') as (m1 & m2 & Hsplit & Hnt).
  rewrite Hsplit in HB1.
  pose proof (@moveBlockBody_run p1 paId pbId bid tid l1 l2 m1 m2 top HA1 Hnb HB1 Hnt)
    as Hbody.
  fold p1a in Hbody.
  set (lnew := if top then m1 ++ bid :: tid :: m2 else m1 ++ tid :: bid :: m2) in *.
  set (p2 := putChildren pbId lnew p1a) in *.
  destruct (putChildren_frame p1a pbId lnew) as (F1 & F2 & F3 & F4 & F5 & F6).
  destruct (putChildren_frame p1 paId (l1 ++ l2)) as (G1 & G2 & G3 & G4 & G5 & G6).
  fold p2 in F1, F2, F3, F4, F5, F6. fold p1a in G1, G2, G3, G4, G5, G6.
  destruct (@transactWith_noAdds handleAdd
              (moveBlockBody paId pbId bid tid top) p p2 (Ok tt) Htx Hcl Hbody)
    as (r' & p' & Hrun & HY & HT & HR & _).
  { rewrite F1, G1. exact Hcl. }
  { intros id Hc. apply F6, G6 in Hc. simpl in Hc. contradiction. }
  assert (yChildrenOf p' pbId = Some lnew
          /\ (paId <> pbId -> yChildrenOf p' paId = Some (l1 ++ l2))) as [HnewB HnewA].
  { split.
    - rewrite (yChildrenOf_ext _ _ _ HY). unfold p2.
      apply (yChildrenOf_put_same _ _ _ HB1).
    - intros N. rewrite (yChildrenOf_ext _ _ _ HY). unfold p2.
      rewrite yChildrenOf_put_other by exact N.
      apply (yChildrenOf_put_same _ _ _ HA1). }
  assert (txCount p' = S (txCount p)) as Htc.
  { rewrite HT, F2, G2. reflexivity. }
  assert (exists r p'', moveBlock b t top p = (r, p'')
                        /\ yBlocks p'' = yBlocks p' /\ txCount p'' = txCount p')
    as (r & p'' & Hmove & HY' & HT').
  { unfold moveBlock, modelIdOf, getParentM, bind, gets, ret.
    rewrite Hro, Hb, Ht. fold bid tid. rewrite Hpa, Hpb, Hmpa, Hmpb.
    fold paId pbId. unfold transact. rewrite Hrun.
    destruct r' as [u|e]; eexists _, _; (split; [reflexivity|]); split; reflexivity. }
  exists r, p'', l1, l2, m1, m2.
  split; [exact Hmove|]. split; [congruence|].
  split; [reflexivity|]. split; [exact Hnb|]. split; [exact Hsplit|].
  split; [exact Hnt|]. split.
  - rewrite (yChildrenOf_ext _ _ _ HY'). exact HnewB.
  - intros N. rewrite (yChildrenOf_ext _ _ _ HY'). auto.
Qed.

Lemma moveBlock_relocates_witness :
  let p := pageWithParagraphs in
  exists r p' l1 l2 m1 m2,
    moveBlock 2 1 true p = (r, p')
    /\ txCount p' = S (txCount p)
    /\ ["1"; "2"] = l1 ++ m_id (modelAt 2 p) :: l2 /\ ~ In (m_id (modelAt 2 p)) l1
    /\ (if String.eqb (m_id (modelAt 0 p)) (m_id (modelAt 0 p)) then l1 ++ l2
        else ["1"; "2"]) = m1 ++ m_id (modelAt 1 p) :: m2
    /\ ~ In (m_id (modelAt 1 p)) m1
    /\ yChildrenOf p' (m_id (modelAt 0 p))
       = Some (m1 ++ m_id (modelAt 2 p) :: m_id (modelAt 1 p) :: m2)
    /\ (m_id (modelAt 0 p) <> m_id (modelAt 0 p) ->
        yChildrenOf p' (m_id (modelAt 0 p)) = Some (l1 ++ l2)).
Proof.
  intros p.
  apply (@moveBlock_relocates p 2 1 0 0 (modelAt 2 p) (modelAt 1 p) (modelAt 0 p)
           (modelAt 0 p) ["1"; "2"] ["1"; "2"] true);
    try (vm_compute; reflexivity).
  - vm_compute. auto.
  - vm_compute. auto.
  - vm_compute. discriminate.
Defined.

(** C9, counterexample to the reading for every block and target.  When the
    target is the block itself, the id has been deleted by the time its
    position is looked up: [findIndex] answers [-1] and the insertion after
    the target puts the id at the front.  On the page of the unit tests,
    whose root holds [1; 2], moving [2] after [2] leaves [2; 1]. *)
Lemma moveBlockAsStated_fails : ~ moveBlockAsStated.
Proof.
  intros H.
  set (p := pageWithParagraphs) in *.
  assert (readonly p = false) as Hro by (vm_compute; reflexivity).
  assert (inTxn p = false) as Htx by (vm_compute; reflexivity).
  assert (inCleanup p = false) as Hcl by (vm_compute; reflexivity).
  assert (getModel 2 p = Some (modelAt 2 p)) as Hb by (vm_compute; reflexivity).
  assert (getParent p (m_id (modelAt 2 p)) = Ok (Some 0)) as Hpa
      by (vm_compute; reflexivity).
  assert (getModel 0 p = Some (modelAt 0 p)) as Hmpa by (vm_compute; reflexivity).
  assert (yChildrenOf p (m_id (modelAt 0 p)) = Some ["1"; "2"]) as HA
      by (vm_compute; reflexivity).
  assert (In (m_id (modelAt 2 p)) ["1"; "2"]) as Hin by (vm_compute; auto).
  destruct (H p 2 2 0 0 (modelAt 2 p) (modelAt 2 p) (modelAt 0 p) (modelAt 0 p)
              ["1"; "2"] ["1"; "2"] false
              Hro Htx Hcl Hb Hb Hpa Hpa Hmpa Hmpa HA HA Hin Hin) as (m1 & m2 & E).
  assert (yChildrenOf (snd (moveBlock 2 2 false p)) (m_id (modelAt 0 p))
          = Some ["2"; "1"]) as Hres by (vm_compute; reflexivity).
  assert (m_id (modelAt 2 p) = "2") as Hid by (vm_compute; reflexivity).
  rewrite Hres, Hid in E. injection E as E.
  destruct m1 as [|x [|y [|z m1]]]; simpl in E; discriminate E.
Qed.

(** ** Deleting a block *)

Lemma nth_error_replaceNth_ne {A} (n k : nat) (x : A) (xs : list A) :
  k <> n -> nth_error (replaceNth n x xs) k = nth_error xs k.
Proof.
  revert n k. induction xs as [|y xs IH]; intros n k Hne; destruct n; simpl; auto.
  - destruct k; [contradiction | reflexivity].
  - destruct k; simpl; auto.
Qed.

Lemma nth_error_replaceNth_eq {A} (n : nat) (x y : A) (xs : list A) :
  nth_error xs n = Some y -> nth_error (replaceNth n x xs) n = Some x.
Proof.
  revert n. induction xs as [|z xs IH]; intros n; destruct n; simpl; try discriminate; auto.
Qed.





Lemma bind_run {S A B} (m : M S A) (k : A -> M S B) (s s1 : S) (a : A) :
  m s = (Ok a, s1) -> bind m k s = k a s1.
Proof. unfold bind. now intros ->. Qed.





(** ** Adding a block *)

Lemma applyWrites_get_other (writes : list (string * YVal)) (yb : YBlock) (key : string) :
  (forall k v, In (k, v) writes -> k <> key) ->
  OMap.get key (applyWrites writes yb) = OMap.get key yb.
Proof.
  unfold applyWrites. revert yb.
  induction writes as [|[k v] ws IH]; intros yb H; simpl; auto.
  rewrite IH by (intros k' v' Hin; apply (H k' v'); now right).
  apply omap_get_set_ne. intros E. apply (H k v); [now left | auto].
Qed.

Lemma syncBlockPropsWrites_keys (yb : YBlock) (props : BlockProps)
    (ignored : list string) (k : string) (v : YVal) :
  In (k, v) (syncBlockPropsWrites yb props ignored) ->
  String.prefix "prop:" k = true \/ String.prefix "meta:" k = true.
Proof.
  unfold syncBlockPropsWrites. intros Hin.
  apply in_app_or in Hin. destruct Hin as [Hin | Hin].
  - apply in_flat_map in Hin. destruct Hin as [[key val] [_ Hin]].
    destruct (inb key SYS_KEYS || inb key ignored || String.eqb key "text");
      [contradiction|].
    destruct Hin as [[= <- <-] | []]. left. simpl. destruct key; reflexivity.
  - apply in_app_or in Hin. destruct Hin as [Hin | Hin].
    + destruct (flavourIs props "affine:paragraph" && _); [|contradiction].
      destruct Hin as [[= <- <-] | []]. left. reflexivity.
    + destruct (flavourIs props "affine:page"); [|contradiction].
      destruct Hin as [[= <- <-] | [[= <- <-] | []]]; right; reflexivity.
Qed.

Lemma newYBlock_sys (flavour id : string) (props : BlockProps) (ignored : list string) :
  OMap.get "sys:id" (newYBlock flavour id props ignored) = Some (YPrim (JStr id))
  /\ OMap.get "sys:flavour" (newYBlock flavour id props ignored)
     = Some (YPrim (JStr flavour))
  /\ OMap.get "sys:children" (newYBlock flavour id props ignored) = Some (YArray []).
Proof.
  assert (forall key,
            String.prefix "prop:" key = false -> String.prefix "meta:" key = false ->
            key <> "prop:text" ->
            OMap.get key (newYBlock flavour id props ignored)
            = OMap.get key [("sys:id", YPrim (JStr id));
                            ("sys:flavour", YPrim (JStr flavour));
                            ("sys:children", YArray [])]) as H.
  { intros key Hp Hm Ht. unfold newYBlock, trySyncTextProp, syncBlockProps.
    set (synced := applyWrites _ _).
    assert (OMap.get key synced
            = OMap.get key [("sys:id", YPrim (JStr id));
                            ("sys:flavour", YPrim (JStr flavour));
                            ("sys:children", YArray [])]) as Hs.
    { unfold synced. rewrite applyWrites_get_other; [reflexivity|].
      intros k v Hin E. subst k. apply syncBlockPropsWrites_keys in Hin.
      destruct Hin; congruence. }
    destruct (bp_text props) as [[c|r]|]; auto.
    rewrite omap_get_set_ne by auto. exact Hs. }
  repeat split; rewrite H; try reflexivity; discriminate.
Qed.

(** The parent walk for a target that is not registered yet is the same
    after its model has been allocated and registered: the walk stops at the
    target's id before it looks it up. *)
Lemma getParentById_S (fuel : nat) (p : Page) (r t : string) :
  getParentById (S fuel) p r t
  = if String.eqb r t then Some None
    else match OMap.get r (blockMap p) with
         | None => Some None
         | Some ra =>
             match getModel ra p with
             | None => Some None
             | Some rm =>
                 parentLoop (fun c => getParentById fuel p c t) ra t (m_childMap rm)
             end
         end.
Proof. reflexivity. Qed.

Lemma parentLoop_ext (f g : string -> option (option addr)) (ra : addr) (t : string)
    (cm : list (string * Z)) :
  (forall c, f c = g c) -> parentLoop f ra t cm = parentLoop g ra t cm.
Proof.
  intros H. induction cm as [|[cid i] cm IH]; simpl; auto.
  rewrite H, IH. reflexivity.
Qed.

Lemma getParentById_new_leaf (p q : Page) (id : string) (fuel : nat) (r : string) :
  (forall k, k <> id -> OMap.get k (blockMap q) = OMap.get k (blockMap p)) ->
  (forall a, getModel a q = getModel a p
             \/ (getModel a p = None
                 /\ exists m, getModel a q = Some m /\ m_childMap m = [])) ->
  getParentById fuel q r id = getParentById fuel p r id.
Proof.
  intros Hbm Hheap. revert r. induction fuel as [|fuel IH]; intros r; auto.
  rewrite !getParentById_S.
  destruct (String.eqb_spec r id) as [E|N]; auto.
  rewrite (Hbm r N).
  destruct (OMap.get r (blockMap p)) as [ra|]; auto.
  destruct (Hheap ra) as [Hsame | (Hnone & m & Hq & Hcm)].
  - rewrite Hsame. destruct (getModel ra p) as [rm|]; auto.
    apply parentLoop_ext. exact IH.
  - rewrite Hnone, Hq, Hcm. reflexivity.
Qed.

Lemma getParentById_more_fuel (p : Page) (t : string) (fuel : nat) (r : string)
    (x : option addr) :
  getParentById fuel p r t = Some x -> getParentById (S fuel) p r t = Some x.
Proof.
  revert r x. induction fuel as [|fuel IH]; intros r x; [discriminate|].
  rewrite (getParentById_S (S fuel)), (getParentById_S fuel).
  destruct (String.eqb r t); auto.
  destruct (OMap.get r (blockMap p)) as [ra|]; auto.
  destruct (getModel ra p) as [rm|]; auto.
  induction (m_childMap rm) as [|[cid i] cm IHcm]; cbn [parentLoop]; auto.
  destruct (String.eqb cid t); auto.
  destruct (getParentById fuel p cid t) as [[pa|]|] eqn:E; intros H.
  - rewrite (IH _ _ E). exact H.
  - rewrite (IH _ _ E). apply IHcm. exact H.
  - discriminate.
Qed.

Lemma omap_size_set_le {V} (k : string) (v : V) (m : OMap.t V) :
  OMap.size m <= OMap.size (OMap.set k v m).
Proof.
  unfold OMap.size. induction m as [|[k' v'] m IH]; simpl; [lia|].
  destruct (String.eqb k k'); simpl; lia.
Qed.

Lemma getParentById_fuel_le (p : Page) (t : string) (n m : nat) (r : string)
    (x : option addr) :
  n <= m -> getParentById n p r t = Some x -> getParentById m p r t = Some x.
Proof.
  intros Hle. induction Hle as [|m Hle IH]; auto.
  intros H. apply getParentById_more_fuel. auto.
Qed.

Lemma getParent_new_leaf (p q : Page) (id : string) (x : option addr) :
  rootOf q = rootOf p ->
  OMap.size (blockMap p) <= OMap.size (blockMap q) ->
  (forall k, k <> id -> OMap.get k (blockMap q) = OMap.get k (blockMap p)) ->
  (forall a, getModel a q = getModel a p
             \/ (getModel a p = None
                 /\ exists m, getModel a q = Some m /\ m_childMap m = [] /\ m_id m = id)) ->
  getParent p id = Ok x -> getParent q id = Ok x.
Proof.
  intros Hroot Hsize Hbm Hheap. unfold getParent. rewrite Hroot.
  destruct (rootOf p) as [ra|]; auto.
  assert (forall a, getModel a q = getModel a p
             \/ (getModel a p = None
                 /\ exists m, getModel a q = Some m /\ m_childMap m = [])) as Hheap'.
  { intros a. destruct (Hheap a) as [H | (H & m & Hm & Hc & _)]; eauto. }
  destruct (Hheap ra) as [Hsame | (Hnone & m & Hq & Hcm & Hid)].
  - rewrite Hsame. destruct (getModel ra p) as [rm|]; auto.
    rewrite (@getParentById_new_leaf p q id _ _ Hbm Hheap').
    destruct (getParentById (S (OMap.size (blockMap p))) p (m_id rm) id) as [r|] eqn:E;
      [|discriminate].
    intros H. erewrite getParentById_fuel_le; [exact H | | exact E]. lia.
  - rewrite Hnone, Hq. intros [= <-].
    rewrite getParentById_S, Hid, String.eqb_refl. reflexivity.
Qed.

(** A transaction begun while the observers of another one are running: its
    callback runs at once and its batch is queued. *)
Lemma transactWith_in_cleanup (h : HandleAdd) (fn : PageM unit) (s s2 : Page)
    (r : outcome unit) :
  inTxn s = false ->
  fn (beginTxn s) = (r, s2) ->
  inCleanup s2 = true ->
  transactWith h fn s
  = (r, set_queued
          (queued s2 ++ [(true, computeEvents (txnBefore s2) (yBlocks s2) (changed s2))])
          (set_changed [] (set_inTxn false s2))).
Proof.
  intros Htx Hfn Hcl. unfold transactWith, transactFrom. rewrite Htx.
  fold (beginTxn s). rewrite Hfn. cbv zeta.
  change (inCleanup (set_changed [] (set_inTxn false s2))) with (inCleanup s2).
  rewrite Hcl. reflexivity.
Qed.

(** Materializing a block that has no children *)

Lemma hoare_bind {A B} (P : Page -> Prop) (Q : A -> Page -> Prop) (R : B -> Page -> Prop)
    (m : PageM A) (k : A -> PageM B) :
  hoareOk P m Q -> (forall a, hoareOk (Q a) (k a) R) -> hoareOk P (bind m k) R.
Proof.
  intros Hm Hk s Hs. destruct (Hm s Hs) as (a & s1 & Hrun & Hq).
  destruct (Hk a s1 Hq) as (b & s2 & Hrun2 & Hr).
  exists b, s2. split; auto. unfold bind. rewrite Hrun. exact Hrun2.
Qed.

Lemma hoare_ret {A} (P : Page -> Prop) (a : A) : hoareOk P (ret a) (fun _ s => P s).
Proof. intros s Hs. exists a, s. auto. Qed.

Lemma hoare_weaken {A} (P P' : Page -> Prop) (Q Q' : A -> Page -> Prop) (m : PageM A) :
  hoareOk P m Q -> (forall s, P' s -> P s) -> (forall a s, Q a s -> Q' a s) ->
  hoareOk P' m Q'.
Proof.
  intros Hm HP HQ s Hs. destruct (Hm s (HP s Hs)) as (a & s' & Hrun & Hq).
  exists a, s'. auto.
Qed.

Lemma docAfterAdd_ext (q : Page) (id : string) (yb : YBlock) (td : bool) (s s' : Page) :
  docPart s' = docPart s -> docAfterAdd q id yb td s -> docAfterAdd q id yb td s'.
Proof.
  unfold docPart, docAfterAdd. intros H.
  injection H. intros Htc Hq Hch Htb Hic Hit Hhh Hob Hsy HY Hig Hidc Hro Hv Hfm.
  rewrite Htc, Hq, Hic, Hit, Hob, HY, Hidc. auto.
Qed.

Lemma getModel_app_new (h : list BaseBlockModel) (m : BaseBlockModel) (p : Page) :
  heap p = h ++ [m] -> getModel (length h) p = Some m.
Proof.
  intros H. unfold getModel. rewrite H, nth_error_app2 by lia.
  rewrite Nat.sub_diag. reflexivity.
Qed.

(** An in-place update of the fresh leaf keeps the invariant when it keeps
    the id and the empty child map. *)
Lemma hoare_updModel_leaf (q : Page) (id : string) (a : addr) (yb : YBlock)
    (td : bool) (f : BaseBlockModel -> BaseBlockModel) :
  (forall m, m_id (f m) = m_id m) ->
  (forall m, m_childMap m = [] -> m_childMap (f m) = []) ->
  hoareOk (fun s => docAfterAdd q id yb td s /\ leafInv q id a s)
          (updModel a f)
          (fun _ s => docAfterAdd q id yb td s /\ leafInv q id a s).
Proof.
  intros Hfid Hfcm s [Hdoc ((m & Hm & Hmid & Hmcm) & Hothers & Hbm & Hroot)].
  unfold updModel, modify. rewrite Hm.
  eexists tt, _. split; [reflexivity|]. split.
  - eapply docAfterAdd_ext; [|exact Hdoc]. reflexivity.
  - split; [|split; [|split]].
    + exists (f m). split.
      * unfold getModel. simpl. eapply nth_error_replaceNth_eq. exact Hm.
      * split; [rewrite Hfid; exact Hmid | apply Hfcm; exact Hmcm].
    + intros a0 Hne. unfold getModel. simpl.
      rewrite nth_error_replaceNth_ne by auto. apply Hothers. exact Hne.
    + exact Hbm.
    + exact Hroot.
Qed.

Lemma docPart_fields (s q : Page) :
  docPart s = docPart q ->
  yBlocks s = yBlocks q /\ inTxn s = inTxn q /\ inCleanup s = inCleanup q
  /\ observing s = observing q /\ queued s = queued q /\ txCount s = txCount q
  /\ idCalls s = idCalls q /\ changed s = changed q /\ txnBefore s = txnBefore q.
Proof.
  unfold docPart. intros H. injection H.
  intros Htc Hq Hch Htb Hic Hit Hhh Hob Hsy HY Hig Hidc Hro Hv Hfm.
  repeat split; assumption.
Qed.

Lemma leafInv_ext (q : Page) (id : string) (a : addr) (s s' : Page) :
  heap s' = heap s -> blockMap s' = blockMap s -> root s' = root s ->
  leafInv q id a s -> leafInv q id a s'.
Proof.
  intros Hh Hb Hr ((m & Hm & Hid & Hcm) & Hothers & Hbm & Hroot).
  unfold leafInv, getModel in *. rewrite Hh, Hb, Hr.
  split; [exists m; auto|]. auto.
Qed.

Lemma assignProp_keeps (name : string) (v : option YVal) (m : BaseBlockModel) :
  name <> "id" ->
  m_id (assignProp name v m) = m_id m
  /\ m_childMap (assignProp name v m) = m_childMap m.
Proof.
  intros Hne. unfold assignProp.
  destruct v as [[[s|z|b]|ids|c|es]|]; try (split; reflexivity).
  destruct (String.eqb_spec name "id"); [contradiction|].
  destruct (String.eqb name "flavour"); split; reflexivity.
Qed.

Lemma computeEvents_mapOnly (before after : YBlocks) (chs : list Changed) :
  (forall c, In c chs -> match c with ChBlockKey _ _ => True | _ => False end) ->
  Forall isMapEvent (computeEvents before after chs).
Proof.
  intros Hall. unfold computeEvents. apply Forall_sortByPath.
  assert (topKeysOf chs = []) as Htop.
  { unfold topKeysOf.
    assert (flat_map (fun c => match c with ChTop id => [id] | _ => [] end) chs = []) as ->;
      [|reflexivity].
    induction chs as [|c chs IH]; auto. simpl.
    rewrite IH by (intros c' Hc'; apply Hall; now right).
    specialize (Hall c (or_introl eq_refl)). destruct c; try contradiction. reflexivity. }
  rewrite Htop. simpl. apply Forall_dedupeEvents. apply Forall_forall. intros e He.
  apply in_flat_map in He. destruct He as [c [Hc He]].
  specialize (Hall c Hc). destruct c; try contradiction.
  simpl in He. rewrite Htop in He. simpl in He.
  destruct (OMap.has blockId after); [|contradiction].
  destruct He as [<- | []]. exact I.
Qed.

Lemma hoare_textDefault (self : HandleAdd) (q : Page) (id : string) (yb : YBlock)
    (a : addr) (td : bool) :
  inTxn q = false -> inCleanup q = true ->
  OMap.get id (yBlocks q) = Some yb ->
  hoareOk (fun s => docPart s = docPart q /\ leafInv q id a s)
          (if td then transactWith self (yBlock_set id "prop:text" (YText ""))
           else ret tt)
          (fun _ s => docAfterAdd q id yb td s /\ leafInv q id a s).
Proof.
  intros Htx Hcl Hyb s [Hdoc Hleaf].
  destruct (@docPart_fields _ _ Hdoc) as (HY & Hit & Hic & Hob & Hq & Htc & Hidc & Hch & Htb).
  destruct td.
  - assert (yBlock_set id "prop:text" (YText "") (beginTxn s)
            = (Ok tt,
               set_changed ([] ++ [ChBlockKey id "prop:text"])
                 (set_yBlocks (OMap.set id (OMap.set "prop:text" (YText "") yb)
                                 (yBlocks s)) (beginTxn s)))) as Hfn.
    { unfold yBlock_set, yBlocks_get, markChanged, bind, gets, modify, ret.
      assert (OMap.get id (yBlocks (beginTxn s)) = Some yb) as ->
          by (simpl; rewrite HY; exact Hyb).
      reflexivity. }
    assert (inTxn s = false) as Hit' by congruence.
    assert (inCleanup
              (set_changed ([] ++ [ChBlockKey id "prop:text"])
                 (set_yBlocks (OMap.set id (OMap.set "prop:text" (YText "") yb)
                                 (yBlocks s)) (beginTxn s))) = true) as Hcl'
        by (simpl; congruence).
    rewrite (@transactWith_in_cleanup self _ s _ (Ok tt) Hit' Hfn Hcl').
    eexists tt, _. split; [reflexivity|]. split.
    + unfold docAfterAdd. simpl.
      split. { intros k Hne. rewrite omap_get_set_ne by auto. now rewrite HY. }
      split; [reflexivity|]. split; [congruence|]. split; [congruence|].
      split; [congruence|].
      split; [apply omap_get_set_eq|]. split.
      * eexists. split; [rewrite Hq; reflexivity|].
        apply computeEvents_mapOnly. intros ch [<- | []]. exact I.
      * congruence.
    + eapply leafInv_ext; [| | |exact Hleaf]; reflexivity.
  - eexists tt, s. split; [reflexivity|]. split; [|exact Hleaf].
    unfold docAfterAdd. rewrite HY, Hit, Hic, Hob, Hq, Htc, Hidc.
    repeat split; auto.
Qed.

Lemma hoare_pre_pure {A} (phi : Prop) (P : Page -> Prop) (m : PageM A)
    (Q : A -> Page -> Prop) :
  (phi -> hoareOk P m Q) -> hoareOk (fun s => phi /\ P s) m Q.
Proof. intros H s [Hphi Hs]. exact (H Hphi s Hs). Qed.

Lemma hoare_getYBlock_after (q : Page) (id : string) (a : addr) (yb : YBlock)
    (td : bool) :
  hoareOk (fun s => docAfterAdd q id yb td s /\ leafInv q id a s)
          (_getYBlock id)
          (fun yb' s => (yb' = yb \/ yb' = OMap.set "prop:text" (YText "") yb)
                        /\ docAfterAdd q id yb td s /\ leafInv q id a s).
Proof.
  intros s [Hdoc Hleaf]. unfold _getYBlock, bind, gets, ret, throw.
  pose proof Hdoc as Hdoc'.
  destruct td; destruct Hdoc' as (_ & _ & _ & _ & _ & HY & _);
    rewrite HY; eexists _, s; (split; [reflexivity|]); auto.
Qed.

Lemma hoare_emit_doc (q : Page) (id : string) (yb : YBlock) (td : bool)
    (bm : OMap.t addr) (sg : Signal) :
  hoareOk (fun s => docAfterAdd q id yb td s /\ blockMap s = bm)
          (emit sg)
          (fun _ s => docAfterAdd q id yb td s /\ blockMap s = bm).
Proof.
  intros s [Hdoc Hbm]. eexists tt, _. split; [reflexivity|]. split; [|exact Hbm].
  eapply docAfterAdd_ext; [|exact Hdoc]. reflexivity.
Qed.

Lemma hoare_updModel_doc (q : Page) (id : string) (yb : YBlock) (td : bool)
    (bm : OMap.t addr) (a : addr) (f : BaseBlockModel -> BaseBlockModel) :
  hoareOk (fun s => docAfterAdd q id yb td s /\ blockMap s = bm)
          (updModel a f)
          (fun _ s => docAfterAdd q id yb td s /\ blockMap s = bm).
Proof.
  intros s [Hdoc Hbm]. unfold updModel, modify.
  destruct (getModel a s); eexists tt, _; (split; [reflexivity|]); split; auto.
Qed.

Lemma linkBlockModel_leaf (self : HandleAdd) (q : Page) (id : string) (yb : YBlock)
    (a : addr) (flavour : string) (isRoot : bool) (x : option addr) :
  inTxn q = false -> inCleanup q = true ->
  OMap.get id (yBlocks q) = Some yb ->
  OMap.get "sys:children" yb = Some (YArray []) ->
  getModel a q = None ->
  getParent q id = Ok x ->
  hoareOk (fun s => docPart s = docPart q /\ leafInv q id a s)
          (linkBlockModel self [id] id yb a flavour isRoot)
          (fun _ s => docAfterAdd q id yb (textDefaultDue flavour yb) s
                      /\ blockMap s = OMap.set id a (blockMap q)).
Proof.
  intros Htx Hcl Hyb Hkids Hfresh Hwalk. unfold linkBlockModel. cbv zeta.
  fold (textDefaultDue flavour yb). set (td := textDefaultDue flavour yb).
  eapply hoare_bind; [apply (@hoare_textDefault self q id yb a _ Htx Hcl Hyb) | intros ?; cbv beta].
  eapply hoare_bind; [apply hoare_updModel_leaf; auto | intros ?; cbv beta].
  eapply hoare_bind; [apply hoare_getYBlock_after | intros yb'].
  cbv beta.
  apply hoare_pre_pure. intros Hyb'.
  assert (OMap.get "sys:children" yb' = Some (YArray [])) as Hkids'.
  { destruct Hyb' as [-> | ->]; [exact Hkids|].
    rewrite omap_get_set_ne by discriminate. exact Hkids. }
  clear Hyb'.
  eapply hoare_bind with (Q := fun _ s => docAfterAdd q id yb td s /\ leafInv q id a s).
  { destruct (String.eqb flavour "affine:page").
    - apply hoare_updModel_leaf.
      + intros m. destruct (@assignProp_keeps "tagSchema" (OMap.get "meta:tags" yb')
                              (assignProp "tags" (OMap.get "meta:tags" yb') m)) as [-> _];
          [discriminate|].
        destruct (@assignProp_keeps "tags" (OMap.get "meta:tags" yb') m) as [-> _];
          [discriminate | reflexivity].
      + intros m Hm. destruct (@assignProp_keeps "tagSchema" (OMap.get "meta:tags" yb')
                                 (assignProp "tags" (OMap.get "meta:tags" yb') m)) as [_ ->];
          [discriminate|].
        destruct (@assignProp_keeps "tags" (OMap.get "meta:tags" yb') m) as [_ ->];
          [discriminate | exact Hm].
    - apply hoare_ret. }
  intros ?. cbv beta. rewrite Hkids'. cbv zeta. cbn [forEachChild createChildMap createChildMapFrom].
  eapply hoare_bind with (Q := fun _ s => docAfterAdd q id yb td s /\ leafInv q id a s).
  { eapply hoare_bind; [apply hoare_updModel_leaf; auto | intros ?; cbv beta].
    apply hoare_ret. }
  intros visited'.
  eapply hoare_bind with
    (Q := fun _ s => docAfterAdd q id yb td s /\ blockMap s = OMap.set id a (blockMap q));
    [|intros ?; apply hoare_ret].
  destruct isRoot; [|destruct (String.eqb flavour "affine:surface")].
  - eapply hoare_bind; [|intros ?; apply hoare_emit_doc].
    intros s [Hdoc (_ & _ & Hbm & _)]. eexists tt, _. split; [reflexivity|].
    split; [|exact Hbm]. eapply docAfterAdd_ext; [|exact Hdoc]. reflexivity.
  - eapply hoare_bind with (Q := fun _ s => docAfterAdd q id yb td s /\ leafInv q id a s).
    { intros s Hs. eexists _, s. split; [reflexivity | exact Hs]. }
    intros r. eapply hoare_bind; [|intros ?; apply hoare_emit_doc].
    intros s [Hdoc (_ & _ & Hbm & _)]. eexists tt, _. split; [reflexivity|].
    split; [|exact Hbm]. eapply docAfterAdd_ext; [|exact Hdoc]. reflexivity.
  - eapply hoare_bind with
      (Q := fun mid s => mid = id /\ docAfterAdd q id yb td s /\ leafInv q id a s).
    { intros s [Hdoc Hleaf]. unfold modelIdOf, bind, gets, ret.
      destruct Hleaf as ((m & Hm & Hmid & Hcm) & Hrest) eqn:E. rewrite Hm.
      eexists _, s. split; [reflexivity|]. auto. }
    intros mid.
    eapply hoare_bind with
      (Q := fun _ s => docAfterAdd q id yb td s /\ blockMap s = OMap.set id a (blockMap q)).
    { intros s (-> & Hdoc & Hleaf).
      assert (getParent s id = Ok x) as Hwalk'.
      { destruct Hleaf as ((m & Hm & Hmid & Hcm) & Hothers & Hbm & Hroot).
        apply (@getParent_new_leaf q s id x); auto.
        - unfold rootOf. now rewrite Hroot.
        - rewrite Hbm. apply omap_size_set_le.
        - intros k Hne. rewrite Hbm. now apply omap_get_set_ne.
        - intros other. destruct (Nat.eq_dec other a) as [->|Hne].
          + right. split; [exact Hfresh|]. exists m. auto.
          + left. now apply Hothers. }
      rewrite Hwalk'. eexists _, s. split; [reflexivity|].
      destruct Hleaf as (_ & _ & Hbm & _). auto. }
    intros parent. destruct parent as [pa|]; [|apply hoare_ret].
    eapply hoare_bind with
      (Q := fun _ s => docAfterAdd q id yb td s /\ blockMap s = OMap.set id a (blockMap q)).
    { intros s Hs. eexists _, s. split; [reflexivity | exact Hs]. }
    intros pm. destruct pm as [parentModel|]; [|apply hoare_ret].
    destruct (OMap.get mid (m_childMap parentModel)); [|apply hoare_ret].
    eapply hoare_bind; [apply hoare_updModel_doc | intros ?; apply hoare_emit_doc].
Qed.

Lemma handleYBlockAddStep_leaf (self : HandleAdd) (q : Page) (id f : string)
    (yb : YBlock) (c : BlockModelCtor) (x : option addr) :
  inTxn q = false -> inCleanup q = true ->
  OMap.get id (yBlocks q) = Some yb ->
  OMap.get "sys:id" yb = Some (YPrim (JStr id)) ->
  OMap.get "sys:flavour" yb = Some (YPrim (JStr f)) ->
  OMap.get "sys:children" yb = Some (YArray []) ->
  OMap.get f (flavourMap q) = Some c ->
  id <> "" ->
  getParent q id = Ok x ->
  exists v q',
    handleYBlockAddStep self [id] id q = (Ok v, q')
    /\ docAfterAdd q id yb (textDefaultDue (ctor_flavour c) yb) q'
    /\ blockMap q' = OMap.set id (length (heap q)) (blockMap q).
Proof.
  intros Htx Hcl Hyb Hsid Hsfl Hkids Hreg Hid Hwalk.
  unfold handleYBlockAddStep.
  assert (_getYBlock id q = (Ok yb, q)) as H1
      by (unfold _getYBlock, bind, gets, ret; rewrite Hyb; reflexivity).
  rewrite (@bind_run _ _ _ _ _ _ _ _ H1).
  unfold bind at 1. unfold gets at 1.
  unfold toBlockProps. rewrite Hsid, Hsfl. cbv beta iota zeta.
  match goal with |- context [_createBlockModel _ _ ?fl] => set (fields := fl) end.
  set (m0 := mkModel (ctor_flavour c) id [] [] fields false false).
  set (a := length (heap q)).
  assert (_createBlockModel (Some f) id fields q
          = (Ok a, set_heap (heap q ++ [m0]) q)) as H2.
  { unfold _createBlockModel, allocModel, bind, gets, modify, ret. rewrite Hreg.
    apply String.eqb_neq in Hid. rewrite Hid. reflexivity. }
  rewrite (@bind_run _ _ _ _ _ _ _ _ H2).
  unfold bind at 1. unfold gets at 1.
  assert (getModel a (set_heap (heap q ++ [m0]) q) = Some m0) as Hm0
      by (apply (@getModel_app_new (heap q) m0); reflexivity).
  rewrite Hm0. unfold bind at 1. unfold blockMap_set, modify. cbn [m_flavour m0].
  set (s2 := set_blockMap _ _).
  destruct (@linkBlockModel_leaf self q id yb a (ctor_flavour c)
              (Nat.eqb (blockMapSize q) 0) x Htx Hcl Hyb Hkids) with (s := s2)
    as (v & q' & Hrun & Hdoc & Hbm).
  - unfold getModel, a. apply nth_error_None. lia.
  - exact Hwalk.
  - split; [reflexivity|]. unfold leafInv. split; [|split; [|split]].
    + exists m0. repeat split. exact Hm0.
    + intros a0 Hne. unfold getModel, s2. simpl.
      destruct (Nat.lt_ge_cases a0 a) as [Hlt | Hge].
      * now rewrite nth_error_app1.
      * rewrite (proj2 (nth_error_None (heap q) a0)) by (unfold a in *; lia).
        apply nth_error_None. rewrite length_app. simpl. unfold a in *. lia.
    + reflexivity.
    + reflexivity.
  - exists v, q'. auto.
Qed.

Lemma noThrow_bind {A B} (m : PageM A) (k : A -> PageM B) :
  noThrow m -> (forall a, noThrow (k a)) -> noThrow (bind m k).
Proof.
  intros Hm Hk s. destruct (Hm s) as (a & s1 & H1). destruct (Hk a s1) as (b & s2 & H2).
  exists b, s2. unfold bind. rewrite H1. exact H2.
Qed.

Lemma noThrow_ret {A} (a : A) : noThrow (ret a).
Proof. intros s. exists a, s. reflexivity. Qed.

Lemma noThrow_gets {A} (f : Page -> A) : noThrow (gets f).
Proof. intros s. exists (f s), s. reflexivity. Qed.

Lemma noThrow_modify (f : Page -> Page) : noThrow (modify f).
Proof. intros s. exists tt, (f s). reflexivity. Qed.

Lemma noThrow_forEachM {A} (f : A -> PageM unit) (xs : list A) :
  (forall x, In x xs -> noThrow (f x)) -> noThrow (forEachM f xs).
Proof.
  induction xs as [|x xs IH]; intros Hf; simpl.
  - apply noThrow_ret.
  - apply noThrow_bind; [apply Hf; now left | intros ?; apply IH].
    intros y Hy. apply Hf. now right.
Qed.

Lemma noThrow_foldKeysM {A} (f : string -> A -> PageM A) (keys : list string) (acc : A) :
  (forall k a, noThrow (f k a)) -> noThrow (foldKeysM f keys acc).
Proof.
  intros Hf. revert acc. induction keys as [|k ks IH]; intros acc; simpl.
  - apply noThrow_ret.
  - apply noThrow_bind; auto.
Qed.

Lemma noThrow_handleYBlockUpdate (blockKey : string) (keysChanged : list string) :
  noThrow (_handleYBlockUpdate blockKey keysChanged).
Proof.
  unfold _handleYBlockUpdate.
  apply noThrow_bind; [apply noThrow_gets | intros target].
  destruct target as [yb|]; [|apply noThrow_ret].
  apply noThrow_bind; [apply noThrow_gets | intros model].
  destruct model as [a|]; [|apply noThrow_ret].
  apply noThrow_bind.
  - apply noThrow_foldKeysM. intros k [[props hasProps] hasChildren]. unfold updateKey.
    destruct (String.eqb k "prop:text"); [apply noThrow_ret|].
    destruct (String.eqb k "sys:children"); [|apply noThrow_ret].
    destruct (OMap.get "sys:children" yb) as [[v|ids|c|m]|];
      try (apply noThrow_bind; [apply noThrow_modify | intros ?; apply noThrow_ret]).
    apply noThrow_bind; [apply noThrow_modify | intros ?].
    apply noThrow_bind; [apply noThrow_gets | intros ?].
    apply noThrow_bind; [apply noThrow_modify | intros ?; apply noThrow_ret].
  - intros [[props hasProps] hasChildren].
    apply noThrow_bind.
    + destruct hasProps; [|apply noThrow_ret].
      apply noThrow_bind; [apply noThrow_modify | intros ?; apply noThrow_modify].
    + intros ?. destruct hasChildren; [apply noThrow_modify | apply noThrow_ret].
Qed.

Lemma isMapEvent_noAdds (events : list YEvent) :
  Forall isMapEvent events -> Forall noAdds events.
Proof.
  intros H. eapply Forall_impl; [|exact H]. intros e He. destruct e; simpl in *; auto.
Qed.

Lemma noThrow_dispatch_mapOnly (h : HandleAdd) (events : list YEvent) :
  Forall isMapEvent events -> noThrow (dispatchBatch h events).
Proof.
  intros Hall s. unfold dispatchBatch.
  destruct (observing s && negb (isNil events)); [|exists tt, s; reflexivity].
  revert s. unfold _handleYEvents.
  apply noThrow_bind; [|intros ?; apply noThrow_modify].
  apply noThrow_forEachM. intros e He. rewrite Forall_forall in Hall.
  specialize (Hall e He). destruct e; simpl in Hall; try contradiction.
  apply noThrow_handleYBlockUpdate.
Qed.

Lemma drain_mapOnly (h : HandleAdd) (fuel : nat) (err : option Error) (p : Page) :
  Forall (fun batch => Forall isMapEvent (snd batch)) (queued p) ->
  fst (drain h fuel err p) = err.
Proof.
  revert err p. induction fuel as [|fuel IH]; intros err p Hq; simpl; auto.
  destruct (queued p) as [|[tracked events] rest] eqn:E; auto.
  inversion Hq as [|? ? Hev Hrest]; subst. simpl in Hev.
  destruct (@noThrow_dispatch_mapOnly h events Hev (set_queued rest p)) as (u & p1 & Hrun).
  pose proof (@projOnly_dispatchBatch h events (@isMapEvent_noAdds events Hev) (set_queued rest p))
    as Hd.
  rewrite Hrun in *. simpl in Hd.
  pose proof (@projOnly_historyAfterTransaction tracked events p1) as Hh.
  destruct (historyAfterTransaction tracked events p1) as [u2 p2] eqn:Eh.
  simpl in Hh. destruct (projOnly_trans Hd Hh) as [Hdoc _].
  destruct (@docPart_fields _ _ Hdoc) as (_ & _ & _ & _ & Hq1 & _).
  apply IH. rewrite Hq1. exact Hrest.
Qed.

Lemma computeEvents_add (before after : YBlocks) (pid id : string) :
  OMap.get id before = None ->
  OMap.has id after = true ->
  pid <> id ->
  OMap.has pid after = true ->
  computeEvents before after [ChArray pid "sys:children"; ChTop id]
  = [EvBlocks [(id, KAdd)]; EvBlockArray pid "sys:children"].
Proof.
  intros Hb Ha Hne Hp. unfold computeEvents, topKeysOf. simpl.
  unfold topAction. rewrite Hb. unfold OMap.has in Ha.
  destruct (OMap.get id after); [|discriminate].
  unfold inb. simpl. apply String.eqb_neq in Hne. rewrite Hne. simpl.
  rewrite Hp. reflexivity.
Qed.

Lemma getParent_ext (p q : Page) (id : string) :
  heap q = heap p -> blockMap q = blockMap p -> root q = root p ->
  getParent q id = getParent p id.
Proof.
  intros Hh Hb Hr.
  assert (forall fuel r, getParentById fuel q r id = getParentById fuel p r id) as Hw.
  { induction fuel as [|fuel IH]; intros r; auto.
    rewrite !getParentById_S. unfold getModel. rewrite Hh, Hb.
    destruct (String.eqb r id); auto.
    destruct (OMap.get r (blockMap p)); auto.
    destruct (nth_error (heap p) a); auto.
    apply parentLoop_ext. exact IH. }
  unfold getParent, rootOf, getModel. rewrite Hh, Hb, Hr.
  destruct (root p) as [|ra|[ra|] l]; auto;
    destruct (nth_error (heap p) ra); auto; now rewrite Hw.
Qed.

Lemma handleArrayEvent_ok (s : Page) (pid sid : string) (ypa : YBlock) (am : addr)
    (ids : list string) :
  OMap.get pid (yBlocks s) = Some ypa ->
  sysIdOf ypa = Some sid ->
  OMap.get sid (blockMap s) = Some am ->
  OMap.get "sys:children" ypa = Some (YArray ids) ->
  exists s', handleArrayEvent pid "sys:children" s = (Ok tt, s')
             /\ docPart s' = docPart s /\ blockMap s' = blockMap s.
Proof.
  intros Hy Hsid Hbm Hkids. unfold handleArrayEvent, bind, gets, ret.
  rewrite Hy.
  assert (OMap.has "sys:id" ypa = true) as ->.
  { unfold sysIdOf in Hsid. unfold OMap.has.
    destruct (OMap.get "sys:id" ypa); [reflexivity | discriminate]. }
  simpl. rewrite Hsid. unfold getBlockById. rewrite Hbm, Hkids.
  unfold updModel, modify, emit, modify.
  destruct (getModel am s) as [m|] eqn:Hm.
  - match goal with |- context [getModel am ?t] =>
      assert (getModel am t = Some (with_children (modelsOf s ids) m)) as Hm'
    end.
    { unfold getModel. simpl. eapply nth_error_replaceNth_eq. exact Hm. }
    rewrite Hm'. eexists. split; [reflexivity|]. split; reflexivity.
  - rewrite Hm. eexists. split; [reflexivity|]. split; reflexivity.
Qed.

Lemma resolveParentId_ext (parent : ParentArg) (p q : Page) :
  heap q = heap p -> blockMap q = blockMap p -> root q = root p ->
  resolveParentId parent q = resolveParentId parent p.
Proof.
  intros Hh Hb Hr. unfold resolveParentId, rootId, rootOf, getModel.
  rewrite Hh, Hb, Hr. reflexivity.
Qed.

Lemma addBlockBody_run (q : Page) (flavour id : string) (props : BlockProps)
    (parent : ParentArg) (parentIndex : option Z) (pid : string)
    (y1 y2 : list string) :
  bp_children props = None ->
  resolveParentId parent q = Some pid ->
  pid <> "" ->
  yChildrenOf q pid = Some (y1 ++ y2) ->
  (parentIndex = Some (Z.of_nat (length y1)) \/ (parentIndex = None /\ y2 = [])) ->
  addBlockBody (mkProps (Some flavour) (Some id) (bp_text props) (bp_children props)
                        (bp_fields props)) id parent parentIndex q
  = (Ok tt,
     let q1 := putChildren pid (y1 ++ [id] ++ y2) q in
     set_changed (changed q1 ++ [ChTop id])
       (set_yBlocks (OMap.set id (newYBlock flavour id props (ignoredKeys q)) (yBlocks q1))
                    q1)).
Proof.
  intros Hkids Hpar Hpid HY Hidx. unfold addBlockBody.
  unfold assertValidChildren. cbn [bp_children]. rewrite Hkids.
  unfold bind at 1. unfold bind at 1. unfold bind at 1. unfold gets at 1.
  unfold bind at 1. unfold gets at 1. rewrite Hpar.
  apply String.eqb_neq in Hpid. rewrite Hpid.
  assert ((yChildren <- yChildren_get pid ;;
           yChildren_insert pid
             match parentIndex with
             | Some i => i
             | None => Z.of_nat (length yChildren)
             end [id]) q
          = (Ok tt, putChildren pid (y1 ++ [id] ++ y2) q)) as Hstep.
  { unfold bind at 1. rewrite (@yChildren_get_ok q pid (y1 ++ y2) HY).
    assert ((match parentIndex with
             | Some i => i
             | None => Z.of_nat (length (y1 ++ y2))
             end) = Z.of_nat (length y1)) as ->.
    { destruct Hidx as [-> | [-> ->]]; auto. now rewrite app_nil_r. }
    apply (@yChildren_insert_split q pid y1 y2 [id] HY). discriminate. }
  rewrite (@bind_run _ _ _ _ _ _ _ _ Hstep).
  unfold yBlocks_set, bind, modify, markChanged. cbv zeta.
  unfold newYBlock. reflexivity.
Qed.

Lemma drain_empty (h : HandleAdd) (fuel : nat) (err : option Error) (p : Page) :
  queued p = [] -> drain h fuel err p = (err, p).
Proof. intros H. destruct fuel; simpl; auto. now rewrite H. Qed.

Lemma historyAfterTransaction_run (tracked : bool) (events : list YEvent) (s : Page) :
  exists s', historyAfterTransaction tracked events s = (Ok tt, s')
             /\ docPart s' = docPart s /\ blockMap s' = blockMap s
             /\ heap s' = heap s /\ root s' = root s.
Proof.
  unfold historyAfterTransaction.
  destruct (hasHistory s && tracked && negb (isNil events)).
  - eexists. split; [reflexivity|]. repeat split.
  - exists s. repeat split.
Qed.


(** The listeners of the transaction that added the block [id], a block
    without children, run on a page that observes its document: the block is
    materialized, the handlers of the remaining events [tl] of the batch run,
    and the transaction that gives a text block its [prop:text], if any, is
    drained after it. *)
Lemma drain_add_tail (n : nat) (q : Page) (id f : string) (yb : YBlock)
    (c : BlockModelCtor) (x : option addr) (tl : list YEvent) :
  inTxn q = false -> inCleanup q = true -> observing q = true ->
  OMap.get id (yBlocks q) = Some yb ->
  OMap.get "sys:id" yb = Some (YPrim (JStr id)) ->
  OMap.get "sys:flavour" yb = Some (YPrim (JStr f)) ->
  OMap.get "sys:children" yb = Some (YArray []) ->
  OMap.get f (flavourMap q) = Some c ->
  id <> "" ->
  getParent q id = Ok x ->
  (forall s a,
      (forall k, k <> id -> OMap.get k (yBlocks s) = OMap.get k (yBlocks q)) ->
      blockMap s = OMap.set id a (blockMap q) ->
      exists s', forEachM (_handleYEvent handleAdd) tl s = (Ok tt, s')
                 /\ docPart s' = docPart s) ->
  exists final,
    drain handleAdd (S n) None (set_queued [(true, EvBlocks [(id, KAdd)] :: tl)] q)
    = (None, final)
    /\ (forall k, k <> id -> OMap.get k (yBlocks final) = OMap.get k (yBlocks q))
    /\ idCalls final = idCalls q
    /\ (if textDefaultDue (ctor_flavour c) yb
        then OMap.get id (yBlocks final) = Some (OMap.set "prop:text" (YText "") yb)
             /\ txCount final = S (txCount q)
        else OMap.get id (yBlocks final) = Some yb /\ txCount final = txCount q).
Proof.
  intros Htx Hcl Hobs Hyb Hsid Hsfl Hkids Hreg Hid Hwalk Htail.
  set (batch := EvBlocks [(id, KAdd)] :: tl).
  cbn [drain queued set_queued].
  set (q4 := set_queued [] (set_queued [(true, batch)] q)).
  unfold dispatchBatch. change (observing q4) with (observing q). rewrite Hobs.
  cbn [andb negb isNil batch].
  assert (getParent q4 id = Ok x) as Hwalk4
      by (rewrite <- Hwalk; apply getParent_ext; reflexivity).
  destruct (@handleYBlockAddStep_leaf (_handleYBlockAdd (OMap.size (yBlocks q4)))
              q4 id f yb c x Htx Hcl Hyb Hsid Hsfl Hkids Hreg Hid Hwalk4)
    as (v & q5 & Hadd & Hdoc & Hbm5).
  pose proof Hdoc as (Hother & Hit5 & Hic5 & Hob5 & Hidc5 & Hcase).
  destruct (Htail q5 (length (heap q4)) Hother Hbm5) as (q6 & Harr & Hdoc6).
  assert (_handleYEvents handleAdd batch q4
          = (Ok tt, set_signals (signals q6 ++ [SigUpdated]) q6)) as Hrun.
  { unfold _handleYEvents, batch. cbn [forEachM _handleYEvent handleTopKeys inb existsb].
    unfold bind at 1. unfold bind at 1. unfold bind at 1. unfold handleAdd at 1.
    change (_handleYBlockAdd (S (OMap.size (yBlocks q4))) [id] id q4)
      with (handleYBlockAddStep (_handleYBlockAdd (OMap.size (yBlocks q4))) [id] id q4).
    rewrite Hadd. cbv beta iota. unfold ret at 1. cbv beta iota.
    rewrite Harr. reflexivity. }
  rewrite Hrun.
  set (q7 := set_signals (signals q6 ++ [SigUpdated]) q6).
  destruct (historyAfterTransaction_run true batch q7) as (q8 & Hh & Hdoc8 & _).
  rewrite Hh.
  assert (docAfterAdd q4 id yb (textDefaultDue (ctor_flavour c) yb) q8) as Hdoc7.
  { eapply docAfterAdd_ext; [|exact Hdoc]. rewrite Hdoc8. unfold q7.
    rewrite <- Hdoc6. reflexivity. }
  destruct Hdoc7 as (Hother7 & _ & _ & _ & Hidc7 & Hcase7).
  assert (Forall (fun b => Forall isMapEvent (snd b)) (queued q8)) as Hq7.
  { destruct (textDefaultDue (ctor_flavour c) yb).
    - destruct Hcase7 as (_ & (evs & -> & Hev) & _).
      simpl. constructor; [exact Hev | constructor].
    - destruct Hcase7 as (_ & -> & _). constructor. }
  pose proof (@drain_mapOnly handleAdd n None q8 Hq7) as Herr.
  pose proof (@drain_noAdds handleAdd n None q8) as Hproj.
  assert (Forall (fun b => Forall noAdds (snd b)) (queued q8)) as Hq7'.
  { eapply Forall_impl; [|exact Hq7]. intros evs. apply isMapEvent_noAdds. }
  specialize (Hproj Hq7').
  destruct (drain handleAdd n None q8) as [err final]. simpl in Herr. subst err.
  cbn [snd] in Hproj. destruct Hproj as [Hdocf _].
  destruct (@docPart_fields _ _ Hdocf) as (HYf & _ & _ & _ & _ & Htcf & Hidcf & _).
  simpl in HYf, Htcf, Hidcf.
  exists final. split; [reflexivity|].
  split. { intros k Hk. rewrite HYf. apply Hother7. exact Hk. }
  split. { rewrite Hidcf. exact Hidc7. }
  rewrite HYf, Htcf.
  destruct (textDefaultDue (ctor_flavour c) yb); destruct Hcase7 as (H1 & _ & H3); auto.
Qed.

Lemma drain_add (n : nat) (q : Page) (id pid f sid : string) (yb ypa : YBlock)
    (c : BlockModelCtor) (x : option addr) (am : addr) (ids : list string) :
  inTxn q = false -> inCleanup q = true ->
  OMap.get id (yBlocks q) = Some yb ->
  OMap.get "sys:id" yb = Some (YPrim (JStr id)) ->
  OMap.get "sys:flavour" yb = Some (YPrim (JStr f)) ->
  OMap.get "sys:children" yb = Some (YArray []) ->
  OMap.get f (flavourMap q) = Some c ->
  id <> "" ->
  getParent q id = Ok x ->
  pid <> id ->
  OMap.get pid (yBlocks q) = Some ypa ->
  sysIdOf ypa = Some sid ->
  OMap.get sid (blockMap q) = Some am ->
  OMap.get "sys:children" ypa = Some (YArray ids) ->
  exists final,
    drain handleAdd (S n) None
      (set_queued [(true, [EvBlocks [(id, KAdd)]; EvBlockArray pid "sys:children"])] q)
    = (None, final)
    /\ (forall k, k <> id -> OMap.get k (yBlocks final) = OMap.get k (yBlocks q))
    /\ idCalls final = idCalls q
    /\ (if observing q && textDefaultDue (ctor_flavour c) yb
        then OMap.get id (yBlocks final) = Some (OMap.set "prop:text" (YText "") yb)
             /\ txCount final = S (txCount q)
        else OMap.get id (yBlocks final) = Some yb /\ txCount final = txCount q).
Proof.
  intros Htx Hcl Hyb Hsid Hsfl Hkids Hreg Hid Hwalk Hne Hpa Hsys Ham Hpkids.
  destruct (observing q) eqn:Hobs.
  - cbn [andb].
    apply (@drain_add_tail n q id f yb c x [EvBlockArray pid "sys:children"]); auto.
    intros s a Hother Hbm.
    assert (exists am5, OMap.get sid (blockMap s) = Some am5) as [am5 Ham5].
    { rewrite Hbm. destruct (String.eqb_spec sid id) as [->|N].
      - rewrite omap_get_set_eq. eauto.
      - rewrite omap_get_set_ne by auto. exists am. exact Ham. }
    destruct (@handleArrayEvent_ok s pid sid ypa am5 ids) as (s' & Harr & Hdoc' & _); auto.
    { rewrite Hother by auto. exact Hpa. }
    exists s'. split; [|exact Hdoc'].
    cbn [forEachM _handleYEvent]. unfold bind. rewrite Harr. reflexivity.
  - cbn [andb drain queued set_queued].
    unfold dispatchBatch.
    match goal with |- context [observing ?s && _] =>
      change (observing s) with (observing q) end.
    rewrite Hobs. cbn [andb].
    match goal with |- context [historyAfterTransaction ?t ?b ?s] =>
      destruct (historyAfterTransaction_run t b s) as (q8 & Hh & Hdoc8 & _); rewrite Hh
    end.
    destruct (@docPart_fields _ _ Hdoc8) as (HY8 & _ & _ & _ & Hq8 & Htc8 & Hidc8 & _).
    simpl in HY8, Hq8, Htc8, Hidc8.
    rewrite drain_empty by exact Hq8.
    exists q8. split; [reflexivity|].
    split; [intros k _; now rewrite HY8|]. split; [exact Hidc8|].
    rewrite HY8, Htc8. split; [exact Hyb | reflexivity].
Qed.









(** ** Adding a block of a flavour that is not registered *)




(** ** Adding a block of a registered flavour *)







(** * Further properties of the code *)

(** ** Version stamps: writing and validating *)

Lemma omap_set_entries {V} (k : string) (x : V) (m : OMap.t V) (f : string) (v : V) :
  NoDup (OMap.keys m) ->
  In (f, v) (OMap.set k x m) ->
  (f = k /\ v = x) \/ (f <> k /\ In (f, v) m).
Proof.
  induction m as [|[k' v'] m IH]; simpl; intros Hnd Hin.
  - destruct Hin as [[= <- <-] | []]. now left.
  - inversion Hnd as [|? ? Hnot Hnd']; subst.
    destruct (String.eqb_spec k k') as [->|Hne].
    + destruct Hin as [[= <- <-] | Hin]; [now left|].
      right. split; [|now right].
      intros ->. apply Hnot. change (In (fst (k', v)) (map fst m)). now apply in_map.
    + destruct Hin as [[= <- <-] | Hin].
      * right. split; [auto | now left].
      * destruct (IH Hnd' Hin) as [H | [H1 H2]]; [now left | right; auto].
Qed.

Lemma omap_set_keys {V} (k : string) (x : V) (m : OMap.t V) (f : string) :
  In f (OMap.keys (OMap.set k x m)) <-> f = k \/ In f (OMap.keys m).
Proof.
  induction m as [|[k' v'] m IH]; simpl.
  - intuition.
  - destruct (String.eqb_spec k k') as [->|Hne]; simpl; [intuition|].
    rewrite IH. intuition.
Qed.

Lemma omap_set_NoDup {V} (k : string) (x : V) (m : OMap.t V) :
  NoDup (OMap.keys m) -> NoDup (OMap.keys (OMap.set k x m)).
Proof.
  induction m as [|[k' v'] m IH]; simpl; intros Hnd.
  - constructor; [intros [] | constructor].
  - inversion Hnd as [|? ? Hnot Hnd']; subst.
    destruct (String.eqb_spec k k') as [->|Hne]; simpl.
    + constructor; auto.
    + constructor; [|auto].
      intros Hin. apply (omap_set_keys k x m k') in Hin.
      destruct Hin as [-> | Hin]; [now apply Hne | now apply Hnot].
Qed.

Lemma omap_set_not_nil {V} (k : string) (x : V) (m : OMap.t V) : OMap.set k x m <> [].
Proof.
  destruct m as [|[k' v'] m]; simpl; [discriminate|].
  destruct (String.eqb k k'); discriminate.
Qed.

Lemma omap_get_of_In {V} (k : string) (v : V) (m : OMap.t V) :
  NoDup (OMap.keys m) -> In (k, v) m -> OMap.get k m = Some v.
Proof.
  induction m as [|[k' v'] m IH]; simpl; intros Hnd Hin; [contradiction|].
  inversion Hnd as [|? ? Hnot Hnd']; subst.
  destruct Hin as [[= -> ->] | Hin].
  - now rewrite String.eqb_refl.
  - destruct (String.eqb_spec k k') as [->|Hne]; [|auto].
    exfalso. apply Hnot. change (In (fst (k', v)) (map fst m)). now apply in_map.
Qed.

Lemma checkFlavours_compatible (fm : FlavourMap) (ledger : VersionLedger) :
  Forall (entryCompatible fm) ledger -> checkFlavours fm ledger = Ok tt.
Proof.
  induction 1 as [|[f v] rest (c & G & N & E) _ IH]; [reflexivity|].
  cbn [checkFlavours]. unfold checkFlavour, editorVersionOf. simpl in G, E.
  rewrite G. simpl. apply Z.eqb_neq in N. rewrite N. subst v.
  rewrite Z.ltb_irrefl. exact IH.
Qed.

Lemma writeVersion_entries (fm : FlavourMap) (vs : VersionLedger) :
  NoDup (OMap.keys fm) -> NoDup (OMap.keys vs) ->
  NoDup (OMap.keys (writeVersion fm vs))
  /\ forall f v, In (f, v) (writeVersion fm vs) ->
       (exists c, In (f, c) fm /\ v = ctor_version c)
       \/ (~ In f (OMap.keys fm) /\ In (f, v) vs).
Proof.
  unfold writeVersion. revert vs.
  induction fm as [|[k c] fm IH]; intros vs Hfm Hvs; simpl.
  - split; [exact Hvs|]. intros f v Hin. right. auto.
  - inversion Hfm as [|? ? Hnot Hfm']; subst.
    destruct (IH (OMap.set k (ctor_version c) vs) Hfm' (omap_set_NoDup k _ vs Hvs))
      as [Hnd Hent].
    split; [exact Hnd|]. intros f v Hin.
    destruct (Hent f v Hin) as [(c' & Hc' & ->) | [Hnf Hin']].
    + left. exists c'. split; [now right | reflexivity].
    + apply omap_set_entries in Hin'; [|exact Hvs].
      destruct Hin' as [[-> ->] | [Hne Hin']].
      * left. exists c. split; [now left | reflexivity].
      * right. split; [|exact Hin']. intros [E | Hk]; [now apply Hne | now apply Hnf].
Qed.

Lemma writeVersion_not_nil (fm : FlavourMap) (vs : VersionLedger) :
  fm <> [] -> writeVersion fm vs <> [].
Proof.
  unfold writeVersion. intros Hne.
  assert (forall l (m : VersionLedger), m <> [] ->
            fold_left (fun vs0 '(flavour, model) =>
                         OMap.set flavour (ctor_version model) vs0) l m <> []) as H.
  { induction l as [|[k c] l IH]; intros m Hm; simpl; [exact Hm|].
    apply IH. apply omap_set_not_nil. }
  destruct fm as [|[k c] fm]; [contradiction|]. simpl. apply H. apply omap_set_not_nil.
Qed.

(** X1.  A ledger stamped by [writeVersion] passes [validateVersion] of the
    same registry: when the registry is not empty and registers no version
    0, and the ledger named only registered flavours before, stamping it
    makes validation succeed.  With an empty registry the stamped ledger of a
    new document is empty and validation fails with the missing-versions
    error. *)
Theorem writeVersion_then_validateVersion (fm : FlavourMap) (vs : VersionLedger)
    (Hfm : NoDup (OMap.keys fm))
    (Hvs : NoDup (OMap.keys vs))
    (Hknown : forall f, In f (OMap.keys vs) -> In f (OMap.keys fm))
    (Hver : forall f c, In (f, c) fm -> ctor_version c <> 0%Z) :
  (fm <> [] -> validateVersion fm (writeVersion fm vs) = Ok tt)
  /\ (fm = [] -> validateVersion fm (writeVersion fm vs) = Throw InvalidWorkspaceData).
Proof.
  split.
  - intros Hne.
    pose proof (@writeVersion_not_nil fm vs Hne) as Hnn.
    destruct (@writeVersion_entries fm vs Hfm Hvs) as [_ Hent].
    assert (validateVersion fm (writeVersion fm vs)
            = checkFlavours fm (writeVersion fm vs)) as ->.
    { unfold validateVersion. destruct (writeVersion fm vs); [contradiction | reflexivity]. }
    apply checkFlavours_compatible. apply Forall_forall. intros [f v] Hin.
    destruct (Hent f v Hin) as [(c & Hc & ->) | [Hnf Hin']].
    + exists c. split; [now apply omap_get_of_In|]. split; [now apply (Hver f) | reflexivity].
    + exfalso. apply Hnf. apply Hknown.
      change (In (fst (f, v)) (map fst vs)). now apply in_map.
  - intros ->. destruct vs as [|[f v] vs]; [reflexivity|].
    exfalso. apply (Hknown f). now left.
Qed.

Lemma writeVersion_then_validateVersion_witness :
  validateVersion sampleSchema (writeVersion sampleSchema [("affine:page", 7%Z)]) = Ok tt.
Proof.
  apply (@writeVersion_then_validateVersion sampleSchema [("affine:page", 7%Z)]).
  - repeat constructor; simpl; intuition discriminate.
  - repeat constructor; simpl; intuition.
  - simpl. intros f [<- | []]. right. now left.
  - simpl. intros f c [[= <- <-] | [[= <- <-] | []]]; simpl; lia.
  - discriminate.
Defined.

(** ** Parents and siblings in the projection *)

Lemma parentLoop_sound (p : Page) (t : string) (a ra : addr) (r : string)
    (rm : BaseBlockModel) (walk : string -> option (option addr))
    (good : addr -> Prop) :
  (forall c, walk c = Some (Some a) -> good a) ->
  (forall cm, (forall x, In x (OMap.keys cm) -> In x (OMap.keys (m_childMap rm))) ->
     parentLoop walk ra t cm = Some (Some a) ->
     good a \/ (a = ra /\ In t (OMap.keys (m_childMap rm)))).
Proof.
  intros Hwalk. induction cm as [|[c z] cm IH]; simpl; intros Hsub H; [discriminate|].
  destruct (String.eqb_spec c t) as [->|Hne].
  - injection H as ->. right. split; [reflexivity|]. apply Hsub. now left.
  - destruct (walk c) as [[pa|]|] eqn:W; [| |discriminate].
    + injection H as ->. left. eapply Hwalk. exact W.
    + apply IH; [|exact H]. intros x Hx. apply Hsub. now right.
Qed.

Lemma getParentById_sound (p : Page) (t : string) (a : addr) :
  forall fuel r,
    getParentById fuel p r t = Some (Some a) ->
    exists k m, k <> t /\ OMap.get k (blockMap p) = Some a
                /\ getModel a p = Some m /\ In t (OMap.keys (m_childMap m)).
Proof.
  induction fuel as [|fuel IH]; intros r H; [discriminate|].
  rewrite getParentById_S in H.
  destruct (String.eqb r t) eqn:Hne; [discriminate|]. apply String.eqb_neq in Hne.
  destruct (OMap.get r (blockMap p)) as [ra|] eqn:G; [|discriminate].
  destruct (getModel ra p) as [rm|] eqn:Gm; [|discriminate].
  set (good := fun a0 : addr =>
                exists k m, k <> t /\ OMap.get k (blockMap p) = Some a0
                            /\ getModel a0 p = Some m
                            /\ In t (OMap.keys (m_childMap m))).
  assert (forall c, getParentById fuel p c t = Some (Some a) -> good a) as Hw
      by (intros c Hc; exact (IH c Hc)).
  destruct (@parentLoop_sound p t a ra r rm
              (fun childId => getParentById fuel p childId t) good Hw
              (m_childMap rm) (fun x Hx => Hx) H) as [Hgood | [-> Hin]].
  - exact Hgood.
  - exists r, rm. auto.
Qed.

(** X2.  [getParent] answers only with a model that is registered in the
    model map under an id other than the block's and whose child map lists
    the block; and it answers [null] for the root itself. *)
Theorem getParent_sound (p : Page) (t : string) (a : addr)
    (Hparent : getParent p t = Ok (Some a)) :
  (exists k m, k <> t /\ getBlockById k p = Some a
               /\ getModel a p = Some m /\ In t (OMap.keys (m_childMap m)))
  /\ (forall ra rm, rootOf p = Some ra -> getModel ra p = Some rm -> m_id rm <> t).
Proof.
  unfold getParent in Hparent. split.
  - destruct (rootOf p) as [ra|]; [|discriminate].
    destruct (getModel ra p) as [rm|]; [|discriminate].
    destruct (getParentById _ p (m_id rm) t) as [[pa|]|] eqn:W; try discriminate.
    injection Hparent as ->.
    exact (getParentById_sound p t _ (m_id rm) W).
  - intros ra rm Hr Hm E. rewrite Hr, Hm in Hparent.
    rewrite getParentById_S in Hparent. rewrite E, String.eqb_refl in Hparent.
    discriminate.
Qed.

Lemma getParent_sound_witness :
  exists k m, k <> "2" /\ getBlockById k pageWithNesting = Some 1
              /\ getModel 1 pageWithNesting = Some m
              /\ In "2" (OMap.keys (m_childMap m)).
Proof.
  apply (@getParent_sound pageWithNesting "2" 1). vm_compute. reflexivity.
Defined.

Lemma indexOfFrom_spec (b : addr) (cs : list (option addr)) :
  forall i : Z,
    (indexOfFrom i b cs = (-1)%Z /\ ~ In (Some b) cs) \/ (i < 0)%Z
    \/ (exists n, indexOfFrom i b cs = (i + Z.of_nat n)%Z
                  /\ nth_error cs n = Some (Some b)
                  /\ ~ In (Some b) (firstn n cs)).
Proof.
  induction cs as [|c cs IH]; intros i; simpl.
  - left. split; [reflexivity | tauto].
  - destruct (Z.ltb_spec i 0) as [Hneg|Hpos]; [right; left; exact Hneg|].
    assert (forall (Hc : c <> Some b),
              (indexOfFrom (i + 1) b cs = (-1)%Z /\ ~ In (Some b) (c :: cs)) \/ (i < 0)%Z
              \/ (exists n, indexOfFrom (i + 1) b cs = (i + Z.of_nat n)%Z
                            /\ nth_error (c :: cs) n = Some (Some b)
                            /\ ~ In (Some b) (firstn n (c :: cs)))) as Hstep.
    { intros Hc. destruct (IH (i + 1)%Z) as [[E Hnot] | [Hneg | (n & E & Hn & Hnot)]].
      - left. split; [exact E|]. intros [H | H]; [now apply Hc | now apply Hnot].
      - lia.
      - right. right. exists (S n). split; [rewrite E; lia|]. split; [exact Hn|].
        simpl. intros [H | H]; [now apply Hc | now apply Hnot]. }
    destruct c as [a'|].
    + destruct (Nat.eqb_spec b a') as [->|Hne].
      * right. right. exists 0%nat. split; [simpl; lia|]. split; [reflexivity|]. simpl. tauto.
      * apply Hstep. intros [= E]. now apply Hne.
    + apply Hstep. discriminate.
Qed.

Lemma nth_error_firstn_skipn {A} (cs : list A) (n : nat) (x : A) :
  nth_error cs n = Some x -> cs = firstn n cs ++ x :: skipn (S n) cs.
Proof.
  revert n. induction cs as [|c cs IH]; intros [|n] H; simpl in *; try discriminate.
  - now injection H as ->.
  - f_equal. now apply IH.
Qed.

(** What [siblingIndex] returns when the parent lists the block: the
    parent's children and the position of the first slot holding the block. *)
Lemma siblingIndex_spec (method : string) (b : addr) (p : Page)
    (cs : list (option addr)) (n : nat) :
  siblingIndex method b p = inr (Some (cs, n)) ->
  exists m pa pm,
    getModel b p = Some m /\ getParent p (m_id m) = Ok (Some pa)
    /\ getModel pa p = Some pm /\ m_children pm = cs
    /\ nth_error cs n = Some (Some b) /\ ~ In (Some b) (firstn n cs).
Proof.
  unfold siblingIndex. intros H.
  destruct (getModel b p) as [m|] eqn:Hm; [|discriminate].
  destruct (getParent p (m_id m)) as [[pa|]|e] eqn:Hpa; try discriminate.
  destruct (getModel pa p) as [pm|] eqn:Hpm; [|discriminate].
  destruct (Z.eqb_spec (indexOf b (m_children pm)) (-1)) as [E|N]; [discriminate|].
  injection H as <- <-.
  exists m, pa, pm.
  unfold indexOf in *.
  destruct (indexOfFrom_spec b (m_children pm) 0)
    as [[E _] | [Hneg | (n & E & Hn & Hnot)]]; [contradiction | lia |].
  rewrite E. simpl. rewrite Nat2Z.id. repeat split; auto.
Qed.

Lemma siblingIndex_none (method : string) (b : addr) (p : Page) :
  siblingIndex method b p = inr None ->
  exists m, getModel b p = Some m /\ getParent p (m_id m) = Ok None.
Proof.
  unfold siblingIndex. intros H.
  destruct (getModel b p) as [m|] eqn:Hm; [|discriminate].
  destruct (getParent p (m_id m)) as [[pa|]|e] eqn:Hpa; try discriminate.
  - destruct (getModel pa p) as [pm|]; [|discriminate].
    destruct (indexOf b (m_children pm) =? -1)%Z; discriminate.
  - exists m. auto.
Qed.

(** The method name only labels the failure. *)
Lemma siblingIndex_method (m1 m2 : string) (b : addr) (p : Page)
    (r : option (list (option addr) * nat)) :
  siblingIndex m1 b p = inr r -> siblingIndex m2 b p = inr r.
Proof.
  unfold siblingIndex.
  destruct (getModel b p) as [m|]; [|discriminate].
  destruct (getParent p (m_id m)) as [[pa|]|e]; try discriminate; auto.
  destruct (getModel pa p) as [pm|]; [|discriminate].
  destruct (indexOf b (m_children pm) =? -1)%Z; [discriminate | auto].
Qed.

(** X3.  The two sibling lists split the parent's children around the
    block: for a block whose parent lists it, [getPreviousSiblings],
    the block and [getNextSiblings] make up the parent's [children] in order,
    and the block does not occur among its previous siblings; for a block
    without a parent both lists are empty. *)
Theorem siblings_partition (p : Page) (b : addr) (prev next : list (option addr))
    (Hprev : getPreviousSiblings b p = inr prev)
    (Hnext : getNextSiblings b p = inr next) :
  exists m, getModel b p = Some m
    /\ ((getParent p (m_id m) = Ok None /\ prev = [] /\ next = [])
        \/ (exists pa pm,
              getParent p (m_id m) = Ok (Some pa) /\ getModel pa p = Some pm
              /\ m_children pm = prev ++ Some b :: next
              /\ ~ In (Some b) prev)).
Proof.
  unfold getPreviousSiblings in Hprev. unfold getNextSiblings in Hnext.
  destruct (siblingIndex "getPreviousSiblings" b p) as [e|[[cs n]|]] eqn:S1;
    [discriminate| |].
  - rewrite (@siblingIndex_method "getPreviousSiblings" "getNextSiblings" b p _ S1)
      in Hnext.
    injection Hprev as <-. injection Hnext as <-.
    destruct (@siblingIndex_spec _ b p cs n S1)
      as (m & pa & pm & Hm & Hpa & Hpm & Hcs & Hn & Hnot).
    exists m. split; [exact Hm|]. right. exists pa, pm.
    repeat split; auto. rewrite Hcs. now apply nth_error_firstn_skipn.
  - rewrite (@siblingIndex_method "getPreviousSiblings" "getNextSiblings" b p _ S1)
      in Hnext.
    injection Hprev as <-. injection Hnext as <-.
    destruct (@siblingIndex_none _ b p S1) as (m & Hm & Hpa).
    exists m. split; [exact Hm|]. left. auto.
Qed.

Lemma siblings_partition_witness :
  exists m, getModel 2 pageWithNesting = Some m
    /\ ((getParent pageWithNesting (m_id m) = Ok None
         /\ (@nil (option addr)) = [] /\ [Some 3] = [])
        \/ (exists pa pm,
              getParent pageWithNesting (m_id m) = Ok (Some pa)
              /\ getModel pa pageWithNesting = Some pm
              /\ m_children pm = [] ++ Some 2 :: [Some 3]
              /\ ~ In (Some 2) (@nil (option addr)))).
Proof.
  apply (@siblings_partition pageWithNesting 2 [] [Some 3]); vm_compute; reflexivity.
Defined.

Lemma last_firstn_childAt (cs : list (option addr)) (i : nat) :
  i < length cs -> last (firstn (S i) cs) None = childAt cs i.
Proof.
  revert i. induction cs as [|c cs IH]; intros i Hi; simpl in Hi; [lia|].
  destruct i as [|i].
  - unfold childAt. simpl. destruct c; reflexivity.
  - change (firstn (S (S i)) (c :: cs)) with (c :: firstn (S i) cs).
    assert (firstn (S i) cs <> []) as Hne.
    { destruct cs; simpl in *; [lia | discriminate]. }
    unfold childAt. simpl nth_error. fold (childAt cs i).
    rewrite <- IH by lia.
    destruct (firstn (S i) cs); [contradiction | reflexivity].
Qed.

Lemma hd_skipn_childAt (cs : list (option addr)) (i : nat) :
  hd None (skipn i cs) = childAt cs i.
Proof.
  revert i. induction cs as [|c cs IH]; intros [|i]; unfold childAt; simpl; auto.
  destruct c; reflexivity.
Qed.

(** X4.  The single-sibling getters agree with the list getters:
    [getPreviousSibling] is the last of the previous siblings and
    [getNextSibling] the first of the next ones, [null] standing for an
    empty list as well as for an empty slot. *)
Theorem sibling_is_adjacent (p : Page) (b : addr) (prev next : list (option addr))
    (Hprev : getPreviousSiblings b p = inr prev)
    (Hnext : getNextSiblings b p = inr next) :
  getPreviousSibling b p = inr (last prev None)
  /\ getNextSibling b p = inr (hd None next).
Proof.
  unfold getPreviousSiblings in Hprev. unfold getNextSiblings in Hnext.
  unfold getPreviousSibling, getNextSibling.
  destruct (siblingIndex "getPreviousSiblings" b p) as [e|[[cs n]|]] eqn:S1;
    [discriminate| |];
    rewrite (@siblingIndex_method "getPreviousSiblings" "getNextSiblings" b p _ S1)
      in Hnext;
    injection Hprev as <-; injection Hnext as <-.
  - destruct (@siblingIndex_spec _ b p cs n S1) as (_ & _ & _ & _ & _ & _ & _ & Hn & _).
    split.
    + destruct n as [|i]; [reflexivity|]. f_equal. symmetry.
      apply last_firstn_childAt.
      assert (nth_error cs (S i) <> None) as Hlt by congruence.
      apply nth_error_Some in Hlt. lia.
    + f_equal. symmetry. exact (hd_skipn_childAt cs (S n)).
  - split; reflexivity.
Qed.

Lemma sibling_is_adjacent_witness :
  getPreviousSibling 3 pageWithNesting = inr (last [Some 2] None)
  /\ getNextSibling 3 pageWithNesting = inr (hd None []).
Proof.
  apply (@sibling_is_adjacent pageWithNesting 3 [Some 2] []); vm_compute; reflexivity.
Defined.

(** ** The page index of the workspace *)

(** One run of the page observer: it returns normally, leaves the index as
    it is, creates no store, and schedules the page-added emissions. *)
Lemma metaHandlePageEvent_run (tryMigrate : PageM unit) (w : Workspace) :
  exists w',
    metaHandlePageEvent tryMigrate w = (Ok tt, w')
    /\ ws_pages w' = ws_pages w
    /\ (forall key, OMap.has key (ws_spaces w') = true -> OMap.has key (ws_spaces w) = true)
    /\ ws_timers w'
       = ws_timers w
         ++ map TaskEmitPageAdded
              (filter (fun id => negb (inb id (ws_prevPages w))) (map pm_id (ws_pages w)))
    /\ ws_signals w'
       = ws_signals w
         ++ map PageRemoved
              (filter (fun id => negb (existsb (fun pm => String.eqb (pm_id pm) id)
                                               (ws_pages w)))
                      (ws_prevPages w))
         ++ [PagesUpdated].
Proof.
  assert (exists w',
            metaHandlePageEvent tryMigrate w = (Ok tt, w')
            /\ ws_timers w'
               = ws_timers w
                 ++ map TaskEmitPageAdded
                      (filter (fun id => negb (inb id (ws_prevPages w)))
                              (map pm_id (ws_pages w)))
            /\ ws_signals w'
               = ws_signals w
                 ++ map PageRemoved
                      (filter (fun id => negb (existsb (fun pm => String.eqb (pm_id pm) id)
                                                       (ws_pages w)))
                              (ws_prevPages w))
                 ++ [PagesUpdated]) as (w' & Hrun & HT & HSg).
  { unfold metaHandlePageEvent. unfold bind at 1. unfold gets at 1.
    unfold bind at 1. unfold gets at 1. unfold bind at 1.
    destruct (scheduleLoop_step (ws_prevPages w) (ws_pages w) w)
      as (w1 & -> & T1 & S1 & P1 & V1).
    unfold bind at 1.
    destruct (removeLoop_step tryMigrate (ws_pages w) (ws_prevPages w) w1)
      as (w2 & -> & T2 & S2 & P2 & V2).
    unfold bind, modify, wsEmit, wsEmitLog, ret. simpl.
    eexists. split; [reflexivity|]. simpl.
    rewrite T2, S2, T1, S1. rewrite !app_nil_r, <- !app_assoc. auto. }
  pose proof (@keepsStores_metaHandlePageEvent tryMigrate w) as [HP HS].
  rewrite Hrun in HP, HS. simpl in HP, HS.
  exists w'. auto.
Qed.

(** A transaction that changed the page index. *)
Lemma metaHandleEvents_pages (tryMigrate : PageM unit) (e : MetaEvent) (w : Workspace) :
  e = MEvPages \/ e = MEvPageEntry ->
  metaHandleEvents tryMigrate [e] w
  = (Ok tt, snd (metaHandlePageEvent tryMigrate w)).
Proof.
  intros He. destruct (metaHandlePageEvent_run tryMigrate w) as (w' & Hrun & _).
  unfold metaHandleEvents. cbn [forEachM]. unfold bind.
  destruct He as [-> | ->]; rewrite Hrun; reflexivity.
Qed.

Lemma find_app_eqb (id : string) (l : list PageMeta) (page : PageMeta) :
  find (fun pg => String.eqb (pm_id pg) id) (l ++ [page])
  = match find (fun pg => String.eqb (pm_id pg) id) l with
    | Some old => Some old
    | None => if String.eqb (pm_id page) id then Some page else None
    end.
Proof.
  induction l as [|d l IH]; simpl.
  - destruct (String.eqb (pm_id page) id); reflexivity.
  - destruct (String.eqb (pm_id d) id); [reflexivity | exact IH].
Qed.

(** [addPageMeta] without an index: the descriptor is appended, no store is
    created, and a page-added emission is scheduled for every descriptor
    whose id the previous set lacks. *)
Lemma addPageMeta_run (tryMigrate : PageM unit) (w : Workspace) (page : PageMeta) :
  exists w',
    addPageMeta tryMigrate page None w = (Ok tt, w')
    /\ ws_pages w' = ws_pages w ++ [page]
    /\ (forall key, OMap.has key (ws_spaces w') = true -> OMap.has key (ws_spaces w) = true)
    /\ ws_timers w'
       = ws_timers w
         ++ map TaskEmitPageAdded
              (filter (fun id => negb (inb id (ws_prevPages w)))
                      (map pm_id (ws_pages w ++ [page]))).
Proof.
  unfold addPageMeta, metaTransact, bind, gets, modify, ret. simpl.
  set (w1 := ws_with_pages _ _).
  rewrite (@metaHandleEvents_pages tryMigrate MEvPages w1 (or_introl eq_refl)).
  destruct (metaHandlePageEvent_run tryMigrate w1) as (w' & Hrun & HP & HS & HT & _).
  rewrite Hrun. simpl. exists w'. split; [reflexivity|].
  split; [exact HP|]. split; [exact HS | exact HT].
Qed.

(** X5.  [addPageMeta] without an index always succeeds and appends the
    descriptor; [getPageMeta] afterwards still answers with the descriptor it
    found before when the id was already in the index, and with the new
    descriptor only when the id is new. *)
Theorem addPageMeta_then_getPageMeta (tryMigrate : PageM unit) (w : Workspace)
    (page : PageMeta) (id : string) :
  exists w',
    addPageMeta tryMigrate page None w = (Ok tt, w')
    /\ ws_pages w' = ws_pages w ++ [page]
    /\ getPageMeta id w'
       = match getPageMeta id w with
         | Some old => Some old
         | None => if String.eqb (pm_id page) id then Some page else None
         end.
Proof.
  destruct (addPageMeta_run tryMigrate w page) as (w' & Hrun & HP & _).
  exists w'. split; [exact Hrun|]. split; [exact HP|].
  unfold getPageMeta. rewrite HP. apply find_app_eqb.
Qed.

Lemma findPageIndex_found (id : string) (l1 l2 : list PageMeta) (d : PageMeta) (i : nat) :
  pm_id d = id -> (forall x, In x l1 -> pm_id x <> id) ->
  findPageIndex i id (l1 ++ d :: l2) = Some (i + length l1).
Proof.
  intros Hd. revert i. induction l1 as [|x l1 IH]; intros i Hl1; simpl.
  - rewrite Hd, String.eqb_refl. f_equal. lia.
  - assert (pm_id x <> id) as Hx by (apply Hl1; now left).
    apply not_eq_sym in Hx. apply String.eqb_neq in Hx. rewrite Hx.
    rewrite IH by (intros y Hy; apply Hl1; now right). f_equal. lia.
Qed.

Lemma findPageIndex_missing (id : string) (l : list PageMeta) (i : nat) :
  (forall x, In x l -> pm_id x <> id) -> findPageIndex i id l = None.
Proof.
  revert i. induction l as [|x l IH]; intros i Hl; simpl; [reflexivity|].
  assert (pm_id x <> id) as Hx by (apply Hl; now left).
  apply not_eq_sym in Hx. apply String.eqb_neq in Hx. rewrite Hx.
  apply IH. intros y Hy. apply Hl. now right.
Qed.

(** X6.  [removePage] deletes the first descriptor that carries the id and
    keeps every other descriptor in place; for an id that no descriptor
    carries it changes nothing (the transaction is empty, so not even the
    observer runs). *)
Theorem removePage_first_descriptor (tryMigrate : PageM unit) (w : Workspace)
    (id : string) :
  (forall l1 d l2,
      ws_pages w = l1 ++ d :: l2 -> pm_id d = id ->
      (forall x, In x l1 -> pm_id x <> id) ->
      exists w', removePage tryMigrate id w = (Ok tt, w')
                 /\ ws_pages w' = l1 ++ l2)
  /\ ((forall x, In x (ws_pages w) -> pm_id x <> id) ->
      removePage tryMigrate id w = (Ok tt, ws_with_txCount (S (ws_txCount w)) w)).
Proof.
  split.
  - intros l1 d l2 Hw Hd Hl1.
    unfold removePage, metaRemovePage. unfold bind at 1, gets at 1.
    rewrite Hw, (@findPageIndex_found id l1 l2 d 0 Hd Hl1). simpl.
    unfold metaTransact, bind, modify, ret. simpl.
    set (w1 := ws_with_pages _ _).
    rewrite (@metaHandleEvents_pages tryMigrate MEvPages w1 (or_introl eq_refl)).
    destruct (metaHandlePageEvent_run tryMigrate w1) as (w' & Hrun & HP & _).
    rewrite Hrun. simpl. exists w'. split; [reflexivity|].
    rewrite HP. unfold w1. simpl. rewrite Hw. apply removeAt_app.
  - intros Hnone.
    unfold removePage, metaRemovePage. unfold bind at 1, gets at 1.
    rewrite (@findPageIndex_missing id (ws_pages w) 0 Hnone). reflexivity.
Qed.

Lemma removePage_first_descriptor_witness :
  exists w',
    removePage noMigration "page0" testWorkspace = (Ok tt, w')
    /\ ws_pages w' = [] ++ [].
Proof.
  destruct (@removePage_first_descriptor noMigration testWorkspace "page0") as [H _].
  refine (H [] (mkPageMeta "page0" "" 1000 []) [] _ _ _).
  - vm_compute. reflexivity.
  - reflexivity.
  - intros x [].
Defined.

Lemma replaceNth_app {A} (l1 l2 : list A) (x y : A) :
  replaceNth (length l1) y (l1 ++ x :: l2) = l1 ++ y :: l2.
Proof. induction l1 as [|z l1 IH]; simpl; congruence. Qed.

Lemma nth_error_app_mid {A} (l1 l2 : list A) (x : A) :
  nth_error (l1 ++ x :: l2) (length l1) = Some x.
Proof. induction l1 as [|z l1 IH]; simpl; auto. Qed.

(** X7.  [setPageMeta] assigns the given entries to the first descriptor
    that carries the id, in place: the descriptors before and after it are
    untouched and the index keeps its order.  For an id that no descriptor
    carries nothing changes. *)
Theorem setPageMeta_first_descriptor (tryMigrate : PageM unit) (w : Workspace)
    (id : string) (props : PageMetaProps) :
  (forall l1 d l2,
      ws_pages w = l1 ++ d :: l2 -> pm_id d = id ->
      (forall x, In x l1 -> pm_id x <> id) ->
      exists w', setPageMeta tryMigrate id props w = (Ok tt, w')
                 /\ ws_pages w' = l1 ++ assignPageMeta props d :: l2)
  /\ ((forall x, In x (ws_pages w) -> pm_id x <> id) ->
      setPageMeta tryMigrate id props w = (Ok tt, ws_with_txCount (S (ws_txCount w)) w)).
Proof.
  split.
  - intros l1 d l2 Hw Hd Hl1.
    unfold setPageMeta, metaSetPageMeta. unfold bind at 1, gets at 1.
    rewrite Hw, (@findPageIndex_found id l1 l2 d 0 Hd Hl1). simpl.
    unfold metaTransact, bind, modify, ret. simpl.
    rewrite Hw, nth_error_app_mid, replaceNth_app.
    set (w1 := ws_with_pages _ _).
    destruct (noEntries props).
    + simpl. exists w1. split; reflexivity.
    + cbn [isNil].
      rewrite (@metaHandleEvents_pages tryMigrate MEvPageEntry w1 (or_intror eq_refl)).
      destruct (metaHandlePageEvent_run tryMigrate w1) as (w' & Hrun & HP & _).
      rewrite Hrun. simpl. exists w'. split; [reflexivity|]. rewrite HP. reflexivity.
  - intros Hnone.
    unfold setPageMeta, metaSetPageMeta. unfold bind at 1, gets at 1.
    rewrite (@findPageIndex_missing id (ws_pages w) 0 Hnone). reflexivity.
Qed.

Lemma setPageMeta_first_descriptor_witness :
  exists w',
    setPageMeta noMigration "page0"
      (mkPageMetaProps None (Some "Hello") None []) testWorkspace = (Ok tt, w')
    /\ ws_pages w' = [] ++ mkPageMeta "page0" "Hello" 1000 [] :: [].
Proof.
  destruct (@setPageMeta_first_descriptor noMigration testWorkspace "page0"
              (mkPageMetaProps None (Some "Hello") None [])) as [H _].
  refine (H [] (mkPageMeta "page0" "" 1000 []) [] _ _ _).
  - vm_compute. reflexivity.
  - reflexivity.
  - intros x [].
Defined.

(** X8.  The guard of [createPage] looks at the registered stores, not at
    the index: until the deferred page-added signal has run, a second
    [createPage] with the same id succeeds as well, and the index then holds
    two descriptors with that id. *)
Theorem createPage_twice_before_tick (tryMigrate : PageM unit) (w : Workspace)
    (id : string) (Hnew : _hasPage id w = false) :
  exists w1 w2,
    createPage tryMigrate id w = (Ok tt, w1)
    /\ createPage tryMigrate id w1 = (Ok tt, w2)
    /\ ws_pages w2
       = ws_pages w ++ [mkPageMeta id "" (ws_now w) []; mkPageMeta id "" (ws_now w1) []].
Proof.
  destruct (addPageMeta_run tryMigrate w (mkPageMeta id "" (ws_now w) []))
    as (w1 & Hrun1 & HP1 & HS1 & _).
  assert (_hasPage id w1 = false) as Hnew1.
  { unfold _hasPage in *. destruct (OMap.has (prefixed id) (ws_spaces w1)) eqn:E; auto.
    apply HS1 in E. congruence. }
  destruct (addPageMeta_run tryMigrate w1 (mkPageMeta id "" (ws_now w1) []))
    as (w2 & Hrun2 & HP2 & _).
  exists w1, w2. unfold createPage, bind, gets.
  rewrite Hnew, Hnew1, Hrun1, Hrun2. split; [reflexivity|]. split; [reflexivity|].
  rewrite HP2, HP1, <- app_assoc. reflexivity.
Qed.

Lemma createPage_twice_before_tick_witness :
  exists w1 w2,
    createPage noMigration "page0" emptyWorkspace = (Ok tt, w1)
    /\ createPage noMigration "page0" w1 = (Ok tt, w2)
    /\ ws_pages w2
       = ws_pages emptyWorkspace
         ++ [mkPageMeta "page0" "" (ws_now emptyWorkspace) [];
             mkPageMeta "page0" "" (ws_now w1) []].
Proof.
  apply (@createPage_twice_before_tick noMigration emptyWorkspace "page0"). reflexivity.
Defined.

Lemma omap_has_set_eq {V} (k : string) (v : V) (m : OMap.t V) :
  OMap.has k (OMap.set k v m) = true.
Proof. unfold OMap.has. now rewrite omap_get_set_eq. Qed.

Lemma omap_has_set_mono {V} (k k0 : string) (v : V) (m : OMap.t V) :
  OMap.has k0 m = true -> OMap.has k0 (OMap.set k v m) = true.
Proof.
  unfold OMap.has. destruct (String.eqb_spec k0 k) as [->|Hne].
  - now rewrite omap_get_set_eq.
  - now rewrite omap_get_set_ne.
Qed.

(** The page-added signal: whatever the synchronization of the new store
    does, the store is registered under the prefixed id and no other store
    is lost. *)
Lemma wsEmit_PageAdded_registers (tryMigrate : PageM unit) (id : string) (w : Workspace) :
  exists w',
    wsEmit tryMigrate (PageAdded id) w = (Ok tt, w')
    /\ OMap.has (prefixed id) (ws_spaces w') = true
    /\ (forall key, OMap.has key (ws_spaces w) = true -> OMap.has key (ws_spaces w') = true).
Proof.
  unfold wsEmit, wsEmitLog, onPageAdded. unfold bind, gets, modify, docGetMap, modify.
  unfold runPage.
  match goal with |- context [syncFromExistingDoc tryMigrate ?v] =>
    destruct (syncFromExistingDoc tryMigrate v) as [[u|e] pg']
  end; simpl;
    (eexists; split; [reflexivity|]; simpl; split;
     [apply omap_has_set_eq
     |intros key Hk; apply omap_has_set_mono, omap_has_set_mono;
      destruct (OMap.has (targetIdOf id) (ws_doc w)); exact Hk]).
Qed.

Lemma runTasks_register (tryMigrate : PageM unit) (tasks : list Task) :
  forall w, exists w',
    forEachM (runTask tryMigrate) tasks w = (Ok tt, w')
    /\ (forall key, OMap.has key (ws_spaces w) = true -> OMap.has key (ws_spaces w') = true)
    /\ (forall id, In (TaskEmitPageAdded id) tasks
                   -> OMap.has (prefixed id) (ws_spaces w') = true).
Proof.
  induction tasks as [|[id] tasks IH]; intros w; simpl.
  - exists w. split; [reflexivity|]. split; [auto | intros id []].
  - destruct (wsEmit_PageAdded_registers tryMigrate id w) as (w1 & Hrun & Hreg & Hmono).
    destruct (IH w1) as (w2 & Hrest & Hmono2 & Hall).
    exists w2. unfold bind. rewrite Hrun, Hrest. split; [reflexivity|]. split.
    + intros key Hk. apply Hmono2, Hmono, Hk.
    + intros id' [[= <-] | Hin]; [apply Hmono2, Hreg | apply Hall, Hin].
Qed.

(** X9.  A page declared by [createPage] is instantiated on the next tick:
    when the pending timers run, a store is registered under its id, and a
    second [createPage] with that id then fails with the already-exists
    error, leaving the workspace as it is. *)
Theorem createPage_then_tick (tryMigrate : PageM unit) (w : Workspace) (id : string)
    (Hnew : _hasPage id w = false)
    (Hprev : ~ In id (ws_prevPages w)) :
  exists w1 w2,
    createPage tryMigrate id w = (Ok tt, w1)
    /\ runTimers tryMigrate w1 = (Ok tt, w2)
    /\ _hasPage id w2 = true
    /\ createPage tryMigrate id w2 = (Throw PageAlreadyExists, w2).
Proof.
  destruct (addPageMeta_run tryMigrate w (mkPageMeta id "" (ws_now w) []))
    as (w1 & Hrun1 & HP1 & HS1 & HT1).
  assert (In (TaskEmitPageAdded id) (ws_timers w1)) as Htask.
  { rewrite HT1. apply in_or_app. right. apply in_map. apply filter_In. split.
    - rewrite map_app. apply in_or_app. right. now left.
    - destruct (inb id (ws_prevPages w)) eqn:E; [|reflexivity].
      apply inb_In in E. contradiction. }
  destruct (runTasks_register tryMigrate (ws_timers w1) (ws_with_timers [] w1))
    as (w2 & Hrun2 & _ & Hall).
  exists w1, w2.
  assert (_hasPage id w2 = true) as Hhas by (apply Hall, Htask).
  split; [unfold createPage, bind, gets; rewrite Hnew; exact Hrun1|].
  split; [unfold runTimers, bind, gets, modify; exact Hrun2|].
  split; [exact Hhas|].
  unfold createPage, bind, gets. rewrite Hhas. reflexivity.
Qed.

Lemma createPage_then_tick_witness :
  exists w1 w2,
    createPage noMigration "page0" emptyWorkspace = (Ok tt, w1)
    /\ runTimers noMigration w1 = (Ok tt, w2)
    /\ _hasPage "page0" w2 = true
    /\ createPage noMigration "page0" w2 = (Throw PageAlreadyExists, w2).
Proof.
  apply (@createPage_then_tick noMigration emptyWorkspace "page0");
    [reflexivity | intros []].
Defined.

(** ** Edge cases of the mutation entry points *)

(** X10.  The by-id entry points do not guard against an id that has no
    model: on a writable store [updateBlockById] and [deleteBlockById] fail
    with a [TypeError] (the property access on [undefined]) before any
    transaction, and the store is as before. *)
Theorem byId_unknown_id (p : Page) (id : string) (props : BlockProps)
    (Hro : readonly p = false)
    (Hnone : getBlockById id p = None) :
  updateBlockById id props p = (Throw (TypeError "model is undefined"), p)
  /\ deleteBlockById id p = (Throw (TypeError "model is undefined"), p).
Proof.
  unfold updateBlockById, deleteBlockById, updateBlock, bind, gets, throw.
  rewrite Hro, Hnone. rewrite Hro. split; reflexivity.
Qed.

Lemma byId_unknown_id_witness :
  updateBlockById "nope" noProps pageWithRoot
  = (Throw (TypeError "model is undefined"), pageWithRoot)
  /\ deleteBlockById "nope" pageWithRoot
     = (Throw (TypeError "model is undefined"), pageWithRoot).
Proof.
  apply (@byId_unknown_id pageWithRoot "nope" noProps); vm_compute; reflexivity.
Defined.

(** X11.  [moveBlock] and [insertBlock] need parents: when [getParent]
    answers [null] for the block or for the target (as it does for the
    root), [moveBlock] fails with the cannot-find-parent error, and so does
    [insertBlock] for a target without parent; no transaction is begun and
    the store is as before. *)
Theorem move_insert_without_parent (p : Page) (b t : addr) (mb mt : BaseBlockModel)
    (top : bool) (pb pt : option addr)
    (Hro : readonly p = false)
    (Hb : getModel b p = Some mb)
    (Ht : getModel t p = Some mt)
    (Hpb : getParent p (m_id mb) = Ok pb)
    (Hpt : getParent p (m_id mt) = Ok pt)
    (Hnone : pb = None \/ pt = None) :
  moveBlock b t top p = (Throw CannotFindParent, p)
  /\ (pt = None ->
      forall flavour type, insertBlock flavour type t top p = (Throw CannotFindParent, p)).
Proof.
  split.
  - unfold moveBlock, modelIdOf, getParentM, bind, gets, ret, throw.
    rewrite Hro, Hb, Ht, Hpb, Hpt.
    destruct Hnone as [-> | ->]; [reflexivity|]. destruct pb; reflexivity.
  - intros -> flavour type.
    unfold insertBlock, modelIdOf, getParentM, bind, gets, ret, throw.
    rewrite Ht, Hpt. reflexivity.
Qed.

Lemma move_insert_without_parent_witness :
  moveBlock 2 0 true pageWithNesting = (Throw CannotFindParent, pageWithNesting)
  /\ insertBlock (Some "affine:paragraph") None 0 true pageWithNesting
     = (Throw CannotFindParent, pageWithNesting).
Proof.
  destruct (@move_insert_without_parent pageWithNesting 2 0
              (modelAt 2 pageWithNesting) (modelAt 0 pageWithNesting) true (Some 1) None)
    as [Hmove Hins]; try (vm_compute; reflexivity).
  - now right.
  - split; [exact Hmove | apply Hins; reflexivity].
Defined.

(** ** Synchronization *)

(** X12.  Synchronizing a store whose document is empty (a new page) never
    fails once the migration returns: the ledger is stamped with the
    registry's versions, the observer is registered, nothing is
    materialized and the store is marked as synced. *)
Theorem syncFromExistingDoc_new_document (tryMigrate : PageM unit) (p p1 : Page)
    (Hfirst : synced p = false)
    (Hmig : tryMigrate p = (Ok tt, p1))
    (Hempty : yBlocks p1 = []) :
  exists p',
    syncFromExistingDoc tryMigrate p = (Ok tt, p')
    /\ versions p' = writeVersion (flavourMap p1) (versions p1)
    /\ synced p' = true /\ observing p' = true
    /\ yBlocks p' = [] /\ blockMap p' = blockMap p1 /\ root p' = root p1
    /\ signals p' = signals p1.
Proof.
  unfold syncFromExistingDoc, _handleVersion, _initYBlocks, bind, gets, modify.
  rewrite Hfirst, Hmig, Hempty. simpl. rewrite Hempty. simpl.
  eexists. split; [reflexivity|]. simpl. repeat split; auto.
Qed.

Lemma syncFromExistingDoc_new_document_witness :
  exists p',
    syncFromExistingDoc noMigration (newPage sampleSchema [] false autoIncrement 0 [] [])
    = (Ok tt, p')
    /\ versions p' = [("affine:paragraph", 1%Z); ("affine:page", 1%Z)]
    /\ synced p' = true.
Proof.
  destruct (@syncFromExistingDoc_new_document noMigration
              (newPage sampleSchema [] false autoIncrement 0 [] [])
              (newPage sampleSchema [] false autoIncrement 0 [] []))
    as (p' & Hrun & Hv & Hs & _); try reflexivity.
  exists p'. split; [exact Hrun|]. split; [exact Hv | exact Hs].
Defined.

(** X13.  A document that fails the version gate is not synchronized at
    all: when the flat map is not empty and [validateVersion] rejects the
    ledger, [syncFromExistingDoc] fails with that error in the state the
    migration left: the store is not marked as synced, the observer is not
    registered and no block has been materialized. *)
Theorem syncFromExistingDoc_version_failure (tryMigrate : PageM unit) (p p1 : Page)
    (e : Error)
    (Hfirst : synced p = false)
    (Hmig : tryMigrate p = (Ok tt, p1))
    (Hdoc : yBlocks p1 <> [])
    (Hgate : validateVersion (flavourMap p1) (versions p1) = Throw e) :
  syncFromExistingDoc tryMigrate p = (Throw e, p1).
Proof.
  unfold syncFromExistingDoc, _handleVersion, bind, gets.
  rewrite Hfirst, Hmig. simpl.
  destruct (yBlocks p1) as [|x l]; [contradiction|]. simpl. rewrite Hgate. reflexivity.
Qed.

Lemma syncFromExistingDoc_version_failure_witness :
  syncFromExistingDoc noMigration foreignPage = (Throw InvalidWorkspaceData, foreignPage).
Proof.
  apply (@syncFromExistingDoc_version_failure noMigration foreignPage foreignPage);
    try reflexivity.
  discriminate.
Defined.

(** ** Disposal *)

Lemma omap_keys_delete {V} (k id : string) (m : OMap.t V) :
  In k (OMap.keys (OMap.delete id m)) -> In k (OMap.keys m) /\ k <> id.
Proof.
  induction m as [|[k' v'] m IH]; simpl; [tauto|].
  destruct (String.eqb_spec id k') as [->|Hne]; simpl.
  - intros H. destruct (IH H). auto.
  - intros [<- | H]; [split; auto|]. destruct (IH H). auto.
Qed.

Lemma yBlocks_delete_state (id : string) (q : Page) :
  exists chs Y,
    yBlocks_delete id q = (Ok tt, set_changed chs (set_yBlocks Y q))
    /\ (forall k, In k (OMap.keys Y) -> In k (OMap.keys (yBlocks q)) /\ k <> id).
Proof.
  unfold yBlocks_delete, markChanged, bind, gets, modify, ret.
  destruct (OMap.has id (yBlocks q)) eqn:Hhas.
  - eexists _, _. split; [reflexivity|]. intros k Hk. now apply omap_keys_delete.
  - exists (changed q), (yBlocks q). split; [destruct q; reflexivity|].
    intros k Hk. split; [exact Hk|]. intros ->.
    unfold OMap.has in Hhas. destruct (OMap.get id (yBlocks q)) eqn:G; [discriminate|].
    apply omap_get_None_keys in G. contradiction.
Qed.

(** Deleting every key of the flat map empties it; only the map and the
    change log of the transaction are touched. *)
Lemma deleteAll_run (ids : list string) :
  forall q, (forall k, In k (OMap.keys (yBlocks q)) -> In k ids) ->
    exists chs, forEachM yBlocks_delete ids q
                = (Ok tt, set_changed chs (set_yBlocks [] q)).
Proof.
  induction ids as [|id ids IH]; intros q Hsub.
  - exists (changed q). simpl. unfold ret. f_equal.
    assert (yBlocks q = []) as Hnil.
    { destruct (yBlocks q) as [|[k v] l] eqn:E; [reflexivity|].
      exfalso. apply (Hsub k). now left. }
    destruct q. simpl in *. now subst.
  - cbn [forEachM]. unfold bind at 1.
    destruct (yBlocks_delete_state id q) as (chs1 & Y & -> & HY).
    destruct (IH (set_changed chs1 (set_yBlocks Y q))) as [chs Hrun].
    { simpl. intros k Hk. destruct (HY k Hk) as [Hin Hne].
      destruct (Hsub k Hin) as [E | Hin']; [congruence | exact Hin']. }
    rewrite Hrun. exists chs. reflexivity.
Qed.

(** X14.  [dispose] removes the observer and then clears the replicated
    flat map in one transaction, so that the page reports itself empty; the
    projection is not told: the model map,
    the model objects and the root slot are as before, and no signal is
    emitted. *)
Theorem dispose_clears_document_only (p : Page)
    (Htx : inTxn p = false)
    (Hcl : inCleanup p = false) :
  exists p',
    dispose p = (Ok tt, p')
    /\ yBlocks p' = [] /\ isEmpty p' = true /\ observing p' = false
    /\ blockMap p' = blockMap p /\ heap p' = heap p /\ root p' = root p
    /\ signals p' = signals p
    /\ txCount p' = S (txCount p).
Proof.
  unfold dispose. unfold bind at 1, modify at 1.
  unfold transact, transactWith, transactFrom.
  change (inTxn (set_observing false p)) with (inTxn p). rewrite Htx.
  fold (beginTxn (set_observing false p)).
  unfold bind at 1, gets at 1.
  destruct (@deleteAll_run (OMap.keys (yBlocks (beginTxn (set_observing false p))))
              (beginTxn (set_observing false p)) (fun k Hk => Hk)) as [chs Hrun].
  rewrite Hrun. cbv zeta.
  match goal with |- context [if inCleanup ?s then _ else _] =>
    change (inCleanup s) with (inCleanup p)
  end.
  rewrite Hcl. cbn [drain queued set_queued set_inCleanup].
  unfold dispatchBatch.
  match goal with |- context [observing ?s && _] =>
    change (observing s) with false
  end.
  cbn [andb]. unfold historyAfterTransaction. rewrite andb_false_r. cbn [andb].
  rewrite drain_empty by reflexivity.
  eexists. split; [reflexivity|]. simpl. repeat split.
Qed.

Lemma dispose_clears_document_only_witness :
  exists p',
    dispose pageWithParagraphs = (Ok tt, p')
    /\ yBlocks p' = [] /\ isEmpty p' = true /\ observing p' = false
    /\ blockMap p' = blockMap pageWithParagraphs
    /\ heap p' = heap pageWithParagraphs /\ root p' = root pageWithParagraphs
    /\ signals p' = signals pageWithParagraphs
    /\ txCount p' = S (txCount pageWithParagraphs).
Proof.
  apply (@dispose_clears_document_only pageWithParagraphs); vm_compute; reflexivity.
Defined.

(** ** Adding a block at an index beyond the parent's children *)

(** A transaction whose callback fails before it writes anything: the
    failure reaches the caller and only the transaction counter moves. *)
Lemma transactWith_nothing_written (h : HandleAdd) (fn : PageM unit) (p : Page)
    (r : outcome unit) :
  inTxn p = false -> inCleanup p = false ->
  fn (beginTxn p) = (r, beginTxn p) ->
  exists p',
    transactWith h fn p = (r, p')
    /\ yBlocks p' = yBlocks p /\ blockMap p' = blockMap p /\ heap p' = heap p
    /\ root p' = root p /\ signals p' = signals p /\ idCalls p' = idCalls p
    /\ txCount p' = S (txCount p).
Proof.
  intros Htx Hcl Hfn. unfold transactWith, transactFrom. rewrite Htx. fold (beginTxn p).
  rewrite Hfn. cbv zeta.
  match goal with |- context [if inCleanup ?s then _ else _] =>
    change (inCleanup s) with (inCleanup p)
  end.
  rewrite Hcl.
  assert (computeEvents (txnBefore (beginTxn p)) (yBlocks (beginTxn p))
                        (changed (beginTxn p)) = []) as -> by reflexivity.
  cbn [drain queued set_queued set_inCleanup]. unfold dispatchBatch.
  unfold historyAfterTransaction.
  cbn [isNil negb]. rewrite !andb_false_r. rewrite drain_empty by reflexivity.
  eexists. split; [reflexivity|]. simpl. repeat split.
Qed.

(** X15.  When the index given to [addBlockByFlavour] lies beyond the end of
    the parent's children list, the insertion fails inside the transaction
    before the block is stored: the call fails with the length-exceeded error
    of the sequence, the flat map and the projection are as before, and the
    id taken from the generator is spent. *)
Theorem addBlockByFlavour_index_beyond_end (p : Page) (flavour : string)
    (props : BlockProps) (parent : ParentArg) (i : Z) (pid : string)
    (ys : list string)
    (Hro : readonly p = false)
    (Htx : inTxn p = false)
    (Hcl : inCleanup p = false)
    (Hfl : flavour <> "")
    (Hkids : bp_children props = None)
    (Hpar : resolveParentId parent p = Some pid)
    (Hpid : pid <> "")
    (HY : yChildrenOf p pid = Some ys)
    (Hi : (Z.of_nat (length ys) < i)%Z) :
  exists p',
    addBlockByFlavour flavour props parent (Some i) p = (Throw LengthExceeded, p')
    /\ yBlocks p' = yBlocks p /\ blockMap p' = blockMap p /\ heap p' = heap p
    /\ root p' = root p
    /\ idCalls p' = S (idCalls p)
    /\ txCount p' = S (txCount p).
Proof.
  set (p0 := set_idCalls (S (idCalls p)) p).
  set (id := idGenerator p (idCalls p)).
  assert (addBlockBody (mkProps (Some flavour) (Some id) (bp_text props)
                                (bp_children props) (bp_fields props))
                       id parent (Some i) (beginTxn p0)
          = (Throw LengthExceeded, beginTxn p0)) as Hbody.
  { unfold addBlockBody. unfold bind at 1. unfold assertValidChildren.
    cbn [bp_children]. rewrite Hkids. unfold bind at 1. unfold bind at 1, gets at 1.
    unfold bind at 1, gets at 1.
    assert (resolveParentId parent (beginTxn p0) = Some pid) as ->
        by (rewrite <- Hpar; apply resolveParentId_ext; reflexivity).
    apply String.eqb_neq in Hpid. rewrite Hpid.
    unfold bind at 1. unfold bind at 1.
    assert (yChildrenOf (beginTxn p0) pid = Some ys) as HY' by exact HY.
    rewrite (@yChildren_get_ok (beginTxn p0) pid ys HY').
    unfold yChildren_insert. unfold bind at 1.
    rewrite (@yChildren_get_ok (beginTxn p0) pid ys HY').
    unfold bind at 1, lift_outcome at 1. unfold yarray_insert.
    assert ((i <? 0)%Z = false) as -> by (apply Z.ltb_ge; lia).
    assert ((Z.of_nat (length ys) <? i)%Z = true) as -> by (apply Z.ltb_lt; lia).
    reflexivity. }
  destruct (@transactWith_nothing_written handleAdd _ p0 (Throw LengthExceeded)
              Htx Hcl Hbody)
    as (p' & Hrun & H1 & H2 & H3 & H4 & H5 & H6 & H7).
  exists p'. split.
  - unfold addBlockByFlavour, nextId, transact, bind, gets, modify, ret, throw.
    rewrite Hro. apply String.eqb_neq in Hfl. rewrite Hfl. fold p0. fold id.
    rewrite Hrun. reflexivity.
  - repeat split; assumption.
Qed.

Lemma addBlockByFlavour_index_beyond_end_witness :
  exists p',
    addBlockByFlavour "affine:paragraph" noProps ParentUndefined (Some 5%Z) pageWithRoot
    = (Throw LengthExceeded, p')
    /\ yBlocks p' = yBlocks pageWithRoot /\ blockMap p' = blockMap pageWithRoot
    /\ heap p' = heap pageWithRoot /\ root p' = root pageWithRoot
    /\ idCalls p' = S (idCalls pageWithRoot)
    /\ txCount p' = S (txCount pageWithRoot).
Proof.
  apply (@addBlockByFlavour_index_beyond_end pageWithRoot "affine:paragraph" noProps
           ParentUndefined 5%Z "0" []); try (vm_compute; reflexivity).
  - discriminate.
  - discriminate.
Defined.

(** ** Inserting a block next to another *)

(** [addBlockByFlavour] called inside an open transaction: the callback
    runs in that transaction and the id is returned at once. *)
Lemma addBlockByFlavour_nested (q : Page) (flavour : string) (props : BlockProps)
    (parent : ParentArg) (parentIndex : option Z) (pid : string)
    (y1 y2 : list string) :
  let id := idGenerator q (idCalls q) in
  let q0 := set_idCalls (S (idCalls q)) q in
  readonly q = false -> inTxn q = true ->
  flavour <> "" ->
  bp_children props = None ->
  resolveParentId parent q = Some pid ->
  pid <> "" ->
  yChildrenOf q pid = Some (y1 ++ y2) ->
  (parentIndex = Some (Z.of_nat (length y1)) \/ (parentIndex = None /\ y2 = [])) ->
  addBlockByFlavour flavour props parent parentIndex q
  = (Ok id,
     let q1 := putChildren pid (y1 ++ [id] ++ y2) q0 in
     set_changed (changed q1 ++ [ChTop id])
       (set_yBlocks (OMap.set id (newYBlock flavour id props (ignoredKeys q0)) (yBlocks q1))
                    q1)).
Proof.
  intros id q0 Hro Htx Hfl Hkids Hpar Hpid HY Hidx.
  unfold addBlockByFlavour, nextId, transact, transactWith, transactFrom, bind, gets, modify, ret, throw.
  rewrite Hro. apply String.eqb_neq in Hfl. rewrite Hfl.
  change (inTxn (set_idCalls (S (idCalls q)) q)) with (inTxn q). rewrite Htx.
  fold q0. fold id.
  assert (resolveParentId parent q0 = Some pid) as Hpar'
      by (rewrite <- Hpar; apply resolveParentId_ext; reflexivity).
  assert (yChildrenOf q0 pid = Some (y1 ++ y2)) as HY' by exact HY.
  rewrite (@addBlockBody_run q0 flavour id props parent parentIndex pid y1 y2
             Hkids Hpar' Hpid HY' Hidx).
  reflexivity.
Qed.

(** X16.  [insertBlock] is [addBlockByFlavour] at the position of the
    target: on a writable store, for a registered flavour and a target whose
    parent lists it, the call takes the next id of the generator and puts it
    into the parent's [sys:children] immediately before the target (for
    [top]) or immediately after it, the rest of the list unchanged, and
    stores the new block under that id.  The id is not returned. *)
Theorem insertBlock_next_to_target (p : Page) (t tp : addr) (mt mtp : BaseBlockModel)
    (f : string) (type : option JsVal) (top : bool) (c : BlockModelCtor)
    (sid : string) (ypa : YBlock) (am : addr) (l1 l2 : list string) (x : option addr)
    (Hro : readonly p = false)
    (Htx : inTxn p = false)
    (Hcl : inCleanup p = false)
    (Ht : getModel t p = Some mt)
    (Hpt : getParent p (m_id mt) = Ok (Some tp))
    (Hmtp : getModel tp p = Some mtp)
    (Hbm : getBlockById (m_id mtp) p = Some tp)
    (Hpid : m_id mtp <> "")
    (Hfl : f <> "")
    (Hreg : OMap.get f (flavourMap p) = Some c)
    (Hid : idGenerator p (idCalls p) <> "")
    (Hfresh : OMap.get (idGenerator p (idCalls p)) (yBlocks p) = None)
    (HY : yChildrenOf p (m_id mtp) = Some (l1 ++ m_id mt :: l2))
    (Hfirst : ~ In (m_id mt) l1)
    (Hypa : OMap.get (m_id mtp) (yBlocks p) = Some ypa)
    (Hsys : sysIdOf ypa = Some sid)
    (Ham : OMap.get sid (blockMap p) = Some am)
    (Hwalk : getParent p (idGenerator p (idCalls p)) = Ok x) :
  exists p',
    insertBlock (Some f) type t top p = (Ok tt, p')
    /\ idCalls p' = S (idCalls p)
    /\ OMap.has (idGenerator p (idCalls p)) (yBlocks p') = true
    /\ yChildrenOf p' (m_id mtp)
       = Some (if top
               then l1 ++ idGenerator p (idCalls p) :: m_id mt :: l2
               else l1 ++ m_id mt :: idGenerator p (idCalls p) :: l2).
Proof.
  set (id := idGenerator p (idCalls p)) in *.
  set (pid := m_id mtp) in *. set (tid := m_id mt) in *.
  set (props := mkProps None None None None
                        (match type with Some v => [("type", v)] | None => [] end)).
  set (y1 := if top then l1 else l1 ++ [tid]).
  set (y2 := if top then tid :: l2 else l2).
  assert (l1 ++ tid :: l2 = y1 ++ y2) as Hsplit.
  { unfold y1, y2. destruct top; [reflexivity|]. now rewrite <- app_assoc. }
  assert ((if top then Z.of_nat (length l1) else (Z.of_nat (length l1) + 1)%Z)
          = Z.of_nat (length y1)) as Hidx.
  { unfold y1. destruct top; [reflexivity|]. rewrite length_app. simpl. lia. }
  assert (pid <> id) as Hne by (intros E; rewrite E in Hypa; congruence).
  set (p1 := beginTxn p).
  set (p0 := set_idCalls (S (idCalls p)) p1).
  set (yb := newYBlock f id props (ignoredKeys p)).
  set (lnew := y1 ++ [id] ++ y2).
  set (ypa' := OMap.set "sys:children" (YArray lnew) ypa).
  set (q1 := set_changed ([] ++ [ChArray pid "sys:children"])
               (set_yBlocks (OMap.set pid ypa' (yBlocks p)) p0)).
  set (q2 := set_changed (changed q1 ++ [ChTop id])
               (set_yBlocks (OMap.set id yb (yBlocks q1)) q1)).
  assert (putChildren pid lnew p0 = q1) as Hput.
  { unfold putChildren. change (yBlocks p0) with (yBlocks p).
    rewrite Hypa. reflexivity. }
  assert (insertBlockBody (Some f) type pid tid top p1 = (Ok tt, q2)) as Hbody.
  { unfold insertBlockBody. unfold bind at 1.
    assert (yChildrenOf p1 pid = Some (l1 ++ tid :: l2)) as HY1 by exact HY.
    rewrite (@yChildren_get_ok p1 pid _ HY1).
    rewrite findIndex_split by exact Hfirst. rewrite Hidx.
    unfold bind at 1. fold props.
    assert (resolveParentId (ParentId pid) p1 = Some pid) as Hpar.
    { unfold resolveParentId. change (blockMap p1) with (blockMap p).
      unfold getBlockById in Hbm. rewrite Hbm.
      change (getModel tp p1) with (getModel tp p). rewrite Hmtp. reflexivity. }
    rewrite Hsplit in HY1.
    rewrite (@addBlockByFlavour_nested p1 f props (ParentId pid)
               (Some (Z.of_nat (length y1))) pid y1 y2
               Hro eq_refl Hfl eq_refl Hpar Hpid HY1 (or_introl eq_refl)).
    cbv zeta. change (idGenerator p1 (idCalls p1)) with id.
    change (set_idCalls (S (idCalls p1)) p1) with p0.
    fold lnew. rewrite Hput. reflexivity. }
  set (batch := [EvBlocks [(id, KAdd)]; EvBlockArray pid "sys:children"]).
  assert (computeEvents (txnBefore q2) (yBlocks q2) (changed q2) = batch) as Hev.
  { apply computeEvents_add; auto.
    - unfold OMap.has. simpl. now rewrite omap_get_set_eq.
    - unfold OMap.has. simpl. rewrite omap_get_set_ne by auto.
      now rewrite omap_get_set_eq. }
  set (q := set_inCleanup true (set_changed [] (set_inTxn false q2))).
  destruct (newYBlock_sys f id props (ignoredKeys p)) as (Hsid & Hsfl & Hsch).
  destruct (@drain_add (OMap.size (yBlocks q)) q id pid f sid yb ypa' c x am lnew)
    as (final & Hdrain & Hother & Hidc & Hcase); auto.
  { simpl. apply omap_get_set_eq. }
  { rewrite <- Hwalk. apply getParent_ext; reflexivity. }
  { simpl. rewrite omap_get_set_ne by auto. apply omap_get_set_eq. }
  { unfold sysIdOf, ypa'. rewrite omap_get_set_ne by discriminate. exact Hsys. }
  { unfold ypa'. apply omap_get_set_eq. }
  assert (transactWith handleAdd (insertBlockBody (Some f) type pid tid top) p
          = (Ok tt, set_inCleanup false final)) as Htrans.
  { unfold transactWith, transactFrom. rewrite Htx. fold (beginTxn p). fold p1. rewrite Hbody. cbv zeta.
    change (inCleanup (set_changed [] (set_inTxn false q2))) with (inCleanup p).
    rewrite Hcl. rewrite Hev.
    change (set_inCleanup true
              (set_queued [(true, batch)] (set_changed [] (set_inTxn false q2))))
      with (set_queued [(true, batch)] q).
    change (yBlocks (set_queued [(true, batch)] q)) with (yBlocks q).
    unfold batch. rewrite Hdrain. reflexivity. }
  exists (set_inCleanup false final). split.
  { unfold insertBlock, modelIdOf, getParentM, bind, gets, ret, throw.
    rewrite Ht. fold tid. rewrite Hpt, Hmtp. fold pid. unfold transact.
    exact Htrans. }
  split; [exact Hidc|]. split.
  { unfold OMap.has. simpl.
    destruct (observing q && textDefaultDue (ctor_flavour c) yb);
      destruct Hcase as [-> _]; reflexivity. }
  unfold yChildrenOf. simpl. rewrite Hother by auto. simpl.
  rewrite omap_get_set_ne by auto. rewrite omap_get_set_eq.
  unfold ypa'. rewrite omap_get_set_eq. unfold lnew, y1, y2.
  destruct top; [reflexivity|]. rewrite <- app_assoc. reflexivity.
Qed.

Lemma insertBlock_next_to_target_witness :
  exists p',
    insertBlock (Some "affine:paragraph") None 2 true pageWithParagraphs = (Ok tt, p')
    /\ yChildrenOf p' "0" = Some ["1"; "3"; "2"].
Proof.
  set (p := pageWithParagraphs).
  set (ypa := match OMap.get "0" (yBlocks p) with Some y => y | None => [] end).
  assert (readonly p = false) as Hro by (vm_compute; reflexivity).
  assert (inTxn p = false) as Htx by (vm_compute; reflexivity).
  assert (inCleanup p = false) as Hcl by (vm_compute; reflexivity).
  assert (getModel 2 p = Some (modelAt 2 p)) as Ht by (vm_compute; reflexivity).
  assert (getParent p (m_id (modelAt 2 p)) = Ok (Some 0)) as Hpt
      by (vm_compute; reflexivity).
  assert (getModel 0 p = Some (modelAt 0 p)) as Hmtp by (vm_compute; reflexivity).
  assert (getBlockById (m_id (modelAt 0 p)) p = Some 0) as Hbm
      by (vm_compute; reflexivity).
  assert (m_id (modelAt 0 p) <> "") as Hpid by (vm_compute; discriminate).
  assert ("affine:paragraph" <> "") as Hfl by discriminate.
  assert (OMap.get "affine:paragraph" (flavourMap p)
          = Some (mkCtor "affine:paragraph" 1)) as Hreg by (vm_compute; reflexivity).
  assert (idGenerator p (idCalls p) <> "") as Hid by (vm_compute; discriminate).
  assert (OMap.get (idGenerator p (idCalls p)) (yBlocks p) = None) as Hfresh
      by (vm_compute; reflexivity).
  assert (yChildrenOf p (m_id (modelAt 0 p))
          = Some (["1"] ++ m_id (modelAt 2 p) :: [])) as HY by (vm_compute; reflexivity).
  assert (~ In (m_id (modelAt 2 p)) ["1"]) as Hfirst
      by (vm_compute; intros [H | []]; discriminate).
  assert (OMap.get (m_id (modelAt 0 p)) (yBlocks p) = Some ypa) as Hypa
      by (vm_compute; reflexivity).
  assert (sysIdOf ypa = Some "0") as Hsys by (vm_compute; reflexivity).
  assert (OMap.get "0" (blockMap p) = Some 0) as Ham by (vm_compute; reflexivity).
  assert (getParent p (idGenerator p (idCalls p)) = Ok None) as Hwalk
      by (vm_compute; reflexivity).
  destruct (@insertBlock_next_to_target p 2 0 (modelAt 2 p) (modelAt 0 p)
              "affine:paragraph" None true (mkCtor "affine:paragraph" 1) "0" ypa
              0 ["1"] [] None Hro Htx Hcl Ht Hpt Hmtp Hbm Hpid Hfl Hreg Hid Hfresh
              HY Hfirst Hypa Hsys Ham Hwalk)
    as (p' & Hrun & _ & _ & Hkids).
  exists p'. split; [exact Hrun | exact Hkids].
Defined.

(** ** Replacing the children of a block *)






(** ** Deleting a block that has no parent *)



